(** * Dragon's World: the enemies module (src/enemies.js)

    A shallow embedding of [window.Enemies]: the four zones, their enemies,
    hazards and eggs, the shrinking safe zone and the frame driver [update],
    followed by the properties the specification states about them.

    Numbers.  JavaScript numbers are modelled as real numbers ([R]), with
    [Math.sqrt], [Math.cos], [Math.sin] and [Math.PI] the real functions, so
    rounding and overflow are idealised away.  The one place of the module
    where a division can meet a zero denominator without a guard is the aim
    of an ice bullet; the four coordinates of a bullet are therefore [jsnum]s,
    a real or [NaN].

    Randomness.  [Math.random()] reads an oracle, a sequence of reals of
    [[0,1)], in call order; every frame is given its own oracle.

    Mutation.  The module mutates one global object [S] and the [player]
    passed in; here every function takes the state and the player and returns
    the new ones.  A [forEach] whose body mutates its element is a [map] or a
    fold, and where the body reads the array it iterates over
    ([_aliveCount] inside the split loop) the fold carries the elements
    already visited, in their mutated form. *)

From Stdlib Require Import Reals Lra Lia List Bool Arith ZArith.
Import ListNotations.
Open Scope R_scope.

(** ** JavaScript numbers and comparisons *)

Definition Rltb (a b : R) : bool := if Rlt_dec a b then true else false.
Definition Rleb (a b : R) : bool := if Rle_dec a b then true else false.
Definition Reqb (a b : R) : bool := if Req_dec_T a b then true else false.

Infix "<?" := Rltb : R_scope.
Infix "<=?" := Rleb : R_scope.
Infix "=?" := Reqb : R_scope.
Notation "a >? b" := (Rltb b a) (at level 70, only parsing) : R_scope.
Notation "a >=? b" := (Rleb b a) (at level 70, only parsing) : R_scope.

(** [d || 1] on a number: [0] is the only falsy real. *)
Definition orOne (d : R) : R := if d =? 0 then 1 else d.

(** [Math.sqrt(dx * dx + dy * dy)]. *)
Definition hypot (dx dy : R) : R := sqrt (dx * dx + dy * dy).

(** [Math.floor] of a non-negative product, as an array index. *)
Definition floorIdx (r : R) : nat := Z.to_nat (Int_part r).

(** [Math.atan2(dy, dx)]. *)
Definition atan2 (dy dx : R) : R :=
  if 0 <? dx then atan (dy / dx)
  else if dx <? 0 then (if 0 <=? dy then atan (dy / dx) + PI else atan (dy / dx) - PI)
  else if 0 <? dy then PI / 2
  else if dy <? 0 then - (PI / 2)
  else 0.

(** A number that may be [NaN].  Arithmetic propagates [NaN] and every
    comparison with [NaN] is false. *)
Inductive jsnum : Type :=
| Num (r : R)
| NaN.

(** [a / b] where the denominator may be zero.  [0 / 0] is [NaN]; a non-zero
    numerator over zero does not arise where this is used, see
    [hypot_zero_components]. *)
Definition jdiv (a b : R) : jsnum :=
  if b =? 0 then NaN else Num (a / b).

Definition jmap (f : R -> R) (a : jsnum) : jsnum :=
  match a with Num r => Num (f r) | NaN => NaN end.

Definition jmap2 (f : R -> R -> R) (a b : jsnum) : jsnum :=
  match a, b with Num r, Num s => Num (f r s) | _, _ => NaN end.

Definition jtest (f : R -> R -> bool) (a b : jsnum) : bool :=
  match a, b with Num r, Num s => f r s | _, _ => false end.

Definition jadd := jmap2 Rplus.
Definition jsub := jmap2 Rminus.
Definition jmul := jmap2 Rmult.
Definition jsqrt := jmap sqrt.
Definition jltb := jtest Rltb.
Definition jleb := jtest Rleb.

(** ** Constants *)

Definition MAP_W : R := 2000.
Definition MAP_H : R := 2000.
Definition CENTER_X : R := 1000.
Definition CENTER_Y : R := 1000.
Definition MAX_PER_ZONE : nat := 6.

Module Zone.
Record t : Type := mk { x : R; y : R; w : R; h : R }.
End Zone.

Module ZONES.
Definition volcanic : Zone.t := Zone.mk 50 50 900 900.
Definition glacial : Zone.t := Zone.mk 1050 50 900 900.
Definition canopy : Zone.t := Zone.mk 1050 1050 900 900.
Definition reef : Zone.t := Zone.mk 50 1050 900 900.
End ZONES.

(** ** Status effects *)

Inductive Duration : Type :=
| Finite (d : R)
| Infinity.

(** The [type] tag of an effect, with the [multiplier] the slowing kinds
    carry. *)
Inductive EffectKind : Type :=
| freeze
| stun
| slow (multiplier : R)
| permanentSlow (multiplier : R)
| dead
| invisible.

Module Effect.
Record t : Type := mk { type : EffectKind; duration : Duration }.
End Effect.

(** ** The player, as far as this module reads and writes it *)

Module Player.
Record t : Type := mk {
    x : R; y : R; radius : R; facing : R;
    abilityCooldown : R;
    activeEffects : list Effect.t }.

Definition moveTo (p : t) (x' y' : R) : t :=
    mk x' y' (radius p) (facing p) (abilityCooldown p) (activeEffects p).

Definition pushEffect (p : t) (e : Effect.t) : t :=
    mk (x p) (y p) (radius p) (facing p) (abilityCooldown p) (activeEffects p ++ [e]).
End Player.

(** ** Enemies

    The four kinds share a base shape and differ in the fields of [ext]. *)

Module Enemy.
Record t (V : Type) : Type := mk {
    x : R; y : R; radius : R; speed : R;
    alive : bool; frozen : bool;
    activeEffects : list Effect.t;
    ext : V }.
Arguments mk {V}.
Arguments x {V}.
Arguments y {V}.
Arguments radius {V}.
Arguments speed {V}.
Arguments alive {V}.
Arguments frozen {V}.
Arguments activeEffects {V}.
Arguments ext {V}.

Section Setters.
Context {V : Type}.
Definition moveTo (e : t V) (x' y' : R) : t V :=
      mk x' y' (radius e) (speed e) (alive e) (frozen e) (activeEffects e) (ext e).
Definition setSpeed (e : t V) (s : R) : t V :=
      mk (x e) (y e) (radius e) s (alive e) (frozen e) (activeEffects e) (ext e).
Definition setAlive (e : t V) (b : bool) : t V :=
      mk (x e) (y e) (radius e) (speed e) b (frozen e) (activeEffects e) (ext e).
Definition setFrozen (e : t V) (b : bool) : t V :=
      mk (x e) (y e) (radius e) (speed e) (alive e) b (activeEffects e) (ext e).
Definition setEffects (e : t V) (l : list Effect.t) : t V :=
      mk (x e) (y e) (radius e) (speed e) (alive e) (frozen e) l (ext e).
Definition setExt (e : t V) (v : V) : t V :=
      mk (x e) (y e) (radius e) (speed e) (alive e) (frozen e) (activeEffects e) v.
End Setters.
End Enemy.

Module Magma.
Record t : Type := mk {
    sizeMult : R; baseSpeed : R; speedBoostMult : R; trailTimer : R }.
End Magma.

Module Frost.
Record t : Type := mk { expandTimer : R; expandRadius : R }.
End Frost.

Module Thorn.
Record t : Type := mk {
    visible : bool; lunging : bool; lungeVx : R; lungeVy : R; teleportRange : R }.
End Thorn.

Module Tide.
Record t : Type := mk { waveOffset : R }.
End Tide.

Abbreviation Magmawyrm := (Enemy.t Magma.t).
Abbreviation Frostwyrm := (Enemy.t Frost.t).
Abbreviation Thornwyrm := (Enemy.t Thorn.t).
Abbreviation Tidewyrm := (Enemy.t Tide.t).

(** ** Hazards and eggs *)

Module LavaTrail.
Record t : Type := mk { x : R; y : R; radius : R; life : R; maxLife : R }.
End LavaTrail.

Module Geyser.
Record t : Type := mk {
    x : R; y : R; radius : R; timer : R; erupting : bool; eruptDur : R }.
End Geyser.

Module Tile.
Record t : Type := mk { x : R; y : R; w : R; h : R }.
End Tile.

Module Bullet.
Record t : Type := mk {
    x : jsnum; y : jsnum; vx : jsnum; vy : jsnum; radius : R; alive : bool }.
End Bullet.

Module Foliage.
Record t : Type := mk { x : R; y : R; r : R }.
End Foliage.

Module Bouncer.
Record t : Type := mk { x : R; y : R; vx : R; vy : R; r : R }.
End Bouncer.

Module VolcanicEgg.
Record t : Type := mk { x : R; y : R; collected : bool }.
End VolcanicEgg.

Module GlacialEgg.
Record t : Type := mk {
    x : R; y : R; collected : bool; thawTimer : R; thawRequired : R }.
End GlacialEgg.

(** [_host] refers to one of the zone's obstacles; obstacles are only ever
    appended, so the reference is the obstacle's index in the list. *)
Module CanopyEgg.
Record t : Type := mk {
    x : R; y : R; collected : bool; _visible : bool; _host : option nat }.
End CanopyEgg.

Module ReefEgg.
Record t : Type := mk { x : R; y : R; vx : R; vy : R; collected : bool }.
End ReefEgg.

(** ** The runtime state [S] *)

Module SafeZone.
Record t : Type := mk {
    x : R; y : R; radius : R;
    uses : nat; maxUses : nat;
    active : bool; playerWasInside : bool }.
End SafeZone.

Module Volcanic.
Record t : Type := mk {
    enemies : list Magmawyrm;
    lavaTrails : list LavaTrail.t;
    geysers : list Geyser.t;
    speedTimer : R;
    visualPhase : R;
    egg : VolcanicEgg.t }.
End Volcanic.

Module Glacial.
Record t : Type := mk {
    enemies : list Frostwyrm;
    frozenTiles : list Tile.t;
    iceBullets : list Bullet.t;
    bulletCooldown : R;
    egg : GlacialEgg.t }.
End Glacial.

Module Canopy.
Record t : Type := mk {
    enemies : list Thornwyrm;
    obstacles : list Foliage.t;
    multiplyTimer : R;
    teleportTimer : R;
    teleportRange : R;
    escalateTimer : R;
    escalateWave : nat;
    visualPhase : R;
    egg : CanopyEgg.t }.
End Canopy.

Module Reef.
Record t : Type := mk {
    enemies : list Tidewyrm;
    obstacles : list Bouncer.t;
    multiplyTimer : R;
    waveTimer : R;
    waveComplexity : nat;
    wavePhase : R;
    visualPhase : R;
    egg : ReefEgg.t }.
End Reef.

Module State.
Record t : Type := mk {
    level : Z;
    speedMult : R;
    time : R;
    playerMoved : bool;
    prevPX : option R; prevPY : option R;
    prevAbilityCooldown : R;
    safeZone : SafeZone.t;
    volcanic : Volcanic.t;
    glacial : Glacial.t;
    canopy : Canopy.t;
    reef : Reef.t }.

Definition setSafeZone (s : t) (z : SafeZone.t) : t :=
    mk (level s) (speedMult s) (time s) (playerMoved s) (prevPX s) (prevPY s)
       (prevAbilityCooldown s) z (volcanic s) (glacial s) (canopy s) (reef s).
Definition setVolcanic (s : t) (v : Volcanic.t) : t :=
    mk (level s) (speedMult s) (time s) (playerMoved s) (prevPX s) (prevPY s)
       (prevAbilityCooldown s) (safeZone s) v (glacial s) (canopy s) (reef s).
Definition setGlacial (s : t) (g : Glacial.t) : t :=
    mk (level s) (speedMult s) (time s) (playerMoved s) (prevPX s) (prevPY s)
       (prevAbilityCooldown s) (safeZone s) (volcanic s) g (canopy s) (reef s).
Definition setCanopy (s : t) (c : Canopy.t) : t :=
    mk (level s) (speedMult s) (time s) (playerMoved s) (prevPX s) (prevPY s)
       (prevAbilityCooldown s) (safeZone s) (volcanic s) (glacial s) c (reef s).
Definition setReef (s : t) (r : Reef.t) : t :=
    mk (level s) (speedMult s) (time s) (playerMoved s) (prevPX s) (prevPY s)
       (prevAbilityCooldown s) (safeZone s) (volcanic s) (glacial s) (canopy s) r.
End State.

(** ** The random source *)

Module Oracle.
Record t : Type := mk {
    draw : nat -> R;
    draw_range : forall k, 0 <= draw k < 1 }.
End Oracle.

(** A computation that calls [Math.random()]: it reads the oracle from a
    position and returns the position after its last call. *)
Definition Rand (A : Type) : Type := Oracle.t -> nat -> A * nat.

Definition ret {A : Type} (a : A) : Rand A := fun _ k => (a, k).

Definition bind {A B : Type} (m : Rand A) (f : A -> Rand B) : Rand B :=
  fun o k => let (a, k') := m o k in f a o k'.

Definition random : Rand R := fun o k => (Oracle.draw o k, S k).

Declare Scope rand_scope.
Delimit Scope rand_scope with rand.
Notation "x <- m ;; f" := (bind m (fun x => f))
  (at level 61, m at next level, right associativity) : rand_scope.
Notation "' pat <- m ;; f" := (bind m (fun x => match x with pat => f end))
  (at level 61, pat pattern, m at next level, right associativity) : rand_scope.
Open Scope rand_scope.

(** A [forEach] whose body draws random numbers and mutates its element. *)
Fixpoint mapR {A B : Type} (f : A -> Rand B) (l : list A) : Rand (list B) :=
  match l with
  | [] => ret []
  | a :: l' => b <- f a ;; bs <- mapR f l' ;; ret (b :: bs)
  end.

(** A [for] loop of [n] rounds over an accumulator. *)
Fixpoint repeatR {A : Type} (n : nat) (f : A -> Rand A) (a : A) : Rand A :=
  match n with
  | O => ret a
  | S n' => a' <- f a ;; repeatR n' f a'
  end.

(** A [forEach] (or an indexed [for]) that threads an accumulator. *)
Fixpoint foldR {A B : Type} (f : A -> B -> Rand A) (l : list B) (a : A) : Rand A :=
  match l with
  | [] => ret a
  | b :: l' => a' <- f a b ;; foldR f l' a'
  end.

(** ** [resetState] *)

Definition resetState (level : Z) : State.t :=
  let speedMult := powerRZ 1.25 (level - 1) in
  State.mk level speedMult 0 false None None 0
    (SafeZone.mk CENTER_X CENTER_Y 120 0 3 true false)
    (Volcanic.mk [] [] [] 0 0 (VolcanicEgg.mk 250 250 false))
    (Glacial.mk [] [] [] 0 (GlacialEgg.mk 1800 250 false 0 2))
    (Canopy.mk [] [] 0 0 150 0 0 0 (CanopyEgg.mk 0 0 false false None))
    (Reef.mk [] [] 0 0 0 0 0 (ReefEgg.mk 0 0 0 0 false)).

(** ** Enemy factories *)

(** An optional argument [a] read as [a || 1]. *)
Definition defaultOne (a : option R) : R :=
  match a with Some r => orOne r | None => 1 end.

Definition makeMagmawyrm (S : State.t) (x y : R) (sizeMult extraSpeed : option R)
  : Magmawyrm :=
  let sizeMult := defaultOne sizeMult in
  let extraSpeed := defaultOne extraSpeed in
  let base := 60 * State.speedMult S * extraSpeed in
  Enemy.mk x y (20 * sizeMult) base true true []
    (Magma.mk sizeMult base 1 0).

Definition makeFrostwyrm (S : State.t) (x y : R) : Frostwyrm :=
  Enemy.mk x y 24 (30 * State.speedMult S) true true [] (Frost.mk 0 50).

Definition makeThornwyrm (S : State.t) (x y : R) : Thornwyrm :=
  Enemy.mk x y 16 (80 * State.speedMult S) true true []
    (Thorn.mk false false 0 0 (Canopy.teleportRange (State.canopy S))).

Definition makeTidewyrm (S : State.t) (x y waveOffset : R) : Tidewyrm :=
  Enemy.mk x y 14 (70 * State.speedMult S) true true [] (Tide.mk waveOffset).

(** ** Helpers *)

(** [_aliveCount]: the living enemies of a zone's list. *)
Definition _aliveCount {V : Type} (enemies : list (Enemy.t V)) : nat :=
  length (filter Enemy.alive enemies).

(** [_inZone] *)
Definition _inZone (x y : R) (zone : Zone.t) : bool :=
  (x >=? Zone.x zone) && (x <=? Zone.x zone + Zone.w zone) &&
  (y >=? Zone.y zone) && (y <=? Zone.y zone + Zone.h zone).

(** One effect of [_tickEffects]: [None] when it is spliced out. *)
Definition tickEffect (dt : R) (eff : Effect.t) : option Effect.t :=
  match Effect.duration eff with
  | Infinity => Some eff
  | Finite d =>
      if d - dt <=? 0 then None
      else Some (Effect.mk (Effect.type eff) (Finite (d - dt)))
  end.

Fixpoint tickEffectList (dt : R) (effs : list Effect.t) : list Effect.t :=
  match effs with
  | [] => []
  | eff :: rest =>
      match tickEffect dt eff with
      | Some eff' => eff' :: tickEffectList dt rest
      | None => tickEffectList dt rest
      end
  end.

Definition _tickEffects {V : Type} (enemies : list (Enemy.t V)) (dt : R)
  : list (Enemy.t V) :=
  map (fun e => Enemy.setEffects e (tickEffectList dt (Enemy.activeEffects e))) enemies.

Definition blocksMovement (eff : Effect.t) : bool :=
  match Effect.type eff with
  | freeze | stun => true
  | _ => false
  end.

Definition slowFactor (speedMult : R) (eff : Effect.t) : R :=
  match Effect.type eff with
  | slow m | permanentSlow m => speedMult * m
  | _ => speedMult
  end.

(** [_chasePlayer] *)
Definition _chasePlayer {V : Type} (enemy : Enemy.t V) (player : Player.t) (dt : R)
  : Enemy.t V :=
  if Enemy.frozen enemy then enemy
  else
    let effs := Enemy.activeEffects enemy in
    if existsb blocksMovement effs then enemy
    else
      let speedMult := fold_left slowFactor effs 1 in
      let dx := Player.x player - Enemy.x enemy in
      let dy := Player.y player - Enemy.y enemy in
      let dist := orOne (hypot dx dy) in
      Enemy.moveTo enemy
        (Enemy.x enemy + (dx / dist) * Enemy.speed enemy * speedMult * dt)
        (Enemy.y enemy + (dy / dist) * Enemy.speed enemy * speedMult * dt).

(** The body of the [forEach] of [_blockFromSafeZone]. *)
Definition blockOne {V : Type} (sz : SafeZone.t) (e : Enemy.t V) : Enemy.t V :=
  if negb (Enemy.alive e) then e
  else
    let dx := Enemy.x e - SafeZone.x sz in
    let dy := Enemy.y e - SafeZone.y sz in
    let dist := orOne (hypot dx dy) in
    let minD := SafeZone.radius sz + Enemy.radius e in
    if dist <? minD then
      Enemy.moveTo e (SafeZone.x sz + (dx / dist) * minD)
                     (SafeZone.y sz + (dy / dist) * minD)
    else e.

(** [_blockFromSafeZone] *)
Definition _blockFromSafeZone {V : Type} (S : State.t) (enemies : list (Enemy.t V))
  : list (Enemy.t V) :=
  let sz := State.safeZone S in
  if negb (SafeZone.active sz) then enemies
  else map (blockOne sz) enemies.

(** [_knockBack] on the position of the entity, player or enemy. *)
Definition _knockBack (pos : R * R) (obs : Bouncer.t) (entityRadius distance : R)
  : R * R :=
  let (x, y) := pos in
  let dx := x - Bouncer.x obs in
  let dy := y - Bouncer.y obs in
  let dist := orOne (hypot dx dy) in
  if dist <? entityRadius + Bouncer.r obs then
    (x + (dx / dist) * distance, y + (dy / dist) * distance)
  else (x, y).

Definition knockBackPlayer (player : Player.t) (obs : Bouncer.t) : Player.t :=
  let (x, y) := _knockBack (Player.x player, Player.y player) obs (Player.radius player) 40 in
  Player.moveTo player x y.

Definition knockBackEnemy {V : Type} (obs : Bouncer.t) (e : Enemy.t V) : Enemy.t V :=
  if Enemy.alive e then
    let (x, y) := _knockBack (Enemy.x e, Enemy.y e) obs (Enemy.radius e) 40 in
    Enemy.moveTo e x y
  else e.

(** [Math.max(lo, Math.min(hi, v))] *)
Definition clamp (lo hi v : R) : R := Rmax lo (Rmin hi v).

(** ** Initialization *)

Definition geyserGrid : list (R * R) :=
  [(200, 200); (700, 200); (450, 450); (200, 700); (700, 700)].

Definition _initVolcanic (S : State.t) : Rand State.t :=
  let z := ZONES.volcanic in
  let v := State.volcanic S in
  let enemies :=
    Volcanic.enemies v ++
    [makeMagmawyrm S (Zone.x z + Zone.w z / 2) (Zone.y z + Zone.h z / 2) None None] in
  geysers <- foldR (fun gs (pos : R * R) =>
                      r <- random ;;
                      ret (gs ++ [Geyser.mk (Zone.x z + fst pos) (Zone.y z + snd pos)
                                            28 (r * 5) false 1.5]))
                   geyserGrid (Volcanic.geysers v) ;;
  ret (State.setVolcanic S
         (Volcanic.mk enemies (Volcanic.lavaTrails v) geysers
            (Volcanic.speedTimer v) (Volcanic.visualPhase v) (Volcanic.egg v))).

Definition _initGlacial (S : State.t) : State.t :=
  let z := ZONES.glacial in
  let g := State.glacial S in
  let fw := makeFrostwyrm S (Zone.x z + Zone.w z / 2) (Zone.y z + Zone.h z / 2) in
  let tiles :=
    fold_left (fun ts (i : nat) =>
                 let ang := (INR i / 6) * PI * 2 in
                 ts ++ [Tile.mk (Enemy.x fw + cos ang * 50 - 20)
                                (Enemy.y fw + sin ang * 50 - 20) 40 40])
              (seq 0 6) (Glacial.frozenTiles g) in
  State.setGlacial S
    (Glacial.mk (Glacial.enemies g ++ [fw]) tiles (Glacial.iceBullets g)
       (Glacial.bulletCooldown g) (Glacial.egg g)).

Definition setCanopyEnemies (c : Canopy.t) (l : list Thornwyrm) : Canopy.t :=
  Canopy.mk l (Canopy.obstacles c) (Canopy.multiplyTimer c) (Canopy.teleportTimer c)
    (Canopy.teleportRange c) (Canopy.escalateTimer c) (Canopy.escalateWave c)
    (Canopy.visualPhase c) (Canopy.egg c).

Definition setCanopyObstacles (c : Canopy.t) (l : list Foliage.t) : Canopy.t :=
  Canopy.mk (Canopy.enemies c) l (Canopy.multiplyTimer c) (Canopy.teleportTimer c)
    (Canopy.teleportRange c) (Canopy.escalateTimer c) (Canopy.escalateWave c)
    (Canopy.visualPhase c) (Canopy.egg c).

Definition setCanopyEgg (c : Canopy.t) (egg : CanopyEgg.t) : Canopy.t :=
  Canopy.mk (Canopy.enemies c) (Canopy.obstacles c) (Canopy.multiplyTimer c)
    (Canopy.teleportTimer c) (Canopy.teleportRange c) (Canopy.escalateTimer c)
    (Canopy.escalateWave c) (Canopy.visualPhase c) egg.

Definition _spawnThornwyrm (S : State.t) : Rand State.t :=
  let c := State.canopy S in
  if (MAX_PER_ZONE <=? _aliveCount (Canopy.enemies c))%nat then ret S
  else
    let z := ZONES.canopy in
    rx <- random ;;
    ry <- random ;;
    let tw := makeThornwyrm S (Zone.x z + 120 + rx * (Zone.w z - 240))
                              (Zone.y z + 120 + ry * (Zone.h z - 240)) in
    let tw := Enemy.setFrozen tw (negb (State.playerMoved S)) in
    ret (State.setCanopy S (setCanopyEnemies c (Canopy.enemies c ++ [tw]))).

Definition _addCanopyObstacles (count : nat) (S : State.t) : Rand State.t :=
  let z := ZONES.canopy in
  repeatR count
    (fun S =>
       rx <- random ;;
       ry <- random ;;
       rr <- random ;;
       let c := State.canopy S in
       ret (State.setCanopy S
              (setCanopyObstacles c
                 (Canopy.obstacles c ++
                  [Foliage.mk (Zone.x z + 80 + rx * (Zone.w z - 160))
                              (Zone.y z + 80 + ry * (Zone.h z - 160))
                              (35 + rr * 25)]))))
    S.

(** [obs[i]] is [undefined] past the end of the array and reading [host.x]
    would then throw; the oracle's range excludes it (see [floorIdx_lt]), and
    the state is left as it is. *)
Definition _assignCanopyEgg (S : State.t) : Rand State.t :=
  let c := State.canopy S in
  let obs := Canopy.obstacles c in
  match obs with
  | [] => ret S
  | _ =>
      r <- random ;;
      let i := floorIdx (r * INR (length obs)) in
      match nth_error obs i with
      | Some host =>
          let egg := Canopy.egg c in
          ret (State.setCanopy S
                 (setCanopyEgg c
                    (CanopyEgg.mk (Foliage.x host) (Foliage.y host)
                       (CanopyEgg.collected egg) (CanopyEgg._visible egg) (Some i))))
      | None => ret S
      end
  end.

Definition _initCanopy (S : State.t) : Rand State.t :=
  S <- repeatR 2 _spawnThornwyrm S ;;
  S <- _addCanopyObstacles 5 S ;;
  _assignCanopyEgg S.

Definition setReefEnemies (r : Reef.t) (l : list Tidewyrm) : Reef.t :=
  Reef.mk l (Reef.obstacles r) (Reef.multiplyTimer r) (Reef.waveTimer r)
    (Reef.waveComplexity r) (Reef.wavePhase r) (Reef.visualPhase r) (Reef.egg r).

Definition setReefObstacles (r : Reef.t) (l : list Bouncer.t) : Reef.t :=
  Reef.mk (Reef.enemies r) l (Reef.multiplyTimer r) (Reef.waveTimer r)
    (Reef.waveComplexity r) (Reef.wavePhase r) (Reef.visualPhase r) (Reef.egg r).

Definition setReefEgg (r : Reef.t) (egg : ReefEgg.t) : Reef.t :=
  Reef.mk (Reef.enemies r) (Reef.obstacles r) (Reef.multiplyTimer r) (Reef.waveTimer r)
    (Reef.waveComplexity r) (Reef.wavePhase r) (Reef.visualPhase r) egg.

Definition _initReef (S : State.t) : Rand State.t :=
  let z := ZONES.reef in
  S <- foldR (fun S (i : nat) =>
                rx <- random ;;
                ry <- random ;;
                let r := State.reef S in
                ret (State.setReef S
                       (setReefEnemies r
                          (Reef.enemies r ++
                           [makeTidewyrm S (Zone.x z + 200 + rx * (Zone.w z - 400))
                                           (Zone.y z + 200 + ry * (Zone.h z - 400))
                                           ((INR i / 3) * PI * 2)]))))
             (seq 0 3) S ;;
  S <- repeatR 4
         (fun S =>
            ra <- random ;;
            let ang := ra * PI * 2 in
            rx <- random ;;
            ry <- random ;;
            let r := State.reef S in
            ret (State.setReef S
                   (setReefObstacles r
                      (Reef.obstacles r ++
                       [Bouncer.mk (Zone.x z + 120 + rx * (Zone.w z - 240))
                                   (Zone.y z + 120 + ry * (Zone.h z - 240))
                                   (cos ang * 80) (sin ang * 80) 28]))))
         S ;;
  re <- random ;;
  let ea := re * PI * 2 in
  rx <- random ;;
  ry <- random ;;
  ret (State.setReef S
         (setReefEgg (State.reef S)
            (ReefEgg.mk (Zone.x z + 200 + rx * (Zone.w z - 400))
                        (Zone.y z + 200 + ry * (Zone.h z - 400))
                        (cos ea * 45) (sin ea * 45) false))).

(** [init] *)
Definition init (level : Z) : Rand State.t :=
  let S := resetState level in
  S <- _initVolcanic S ;;
  let S := _initGlacial S in
  S <- _initCanopy S ;;
  _initReef S.

(** ** The frame update *)

Definition _unfreezeAll (S : State.t) : State.t :=
  let thaw {V : Type} (l : list (Enemy.t V)) := map (fun e => Enemy.setFrozen e false) l in
  let v := State.volcanic S in
  let g := State.glacial S in
  let c := State.canopy S in
  let r := State.reef S in
  State.mk (State.level S) (State.speedMult S) (State.time S) (State.playerMoved S)
    (State.prevPX S) (State.prevPY S) (State.prevAbilityCooldown S) (State.safeZone S)
    (Volcanic.mk (thaw (Volcanic.enemies v)) (Volcanic.lavaTrails v) (Volcanic.geysers v)
       (Volcanic.speedTimer v) (Volcanic.visualPhase v) (Volcanic.egg v))
    (Glacial.mk (thaw (Glacial.enemies g)) (Glacial.frozenTiles g) (Glacial.iceBullets g)
       (Glacial.bulletCooldown g) (Glacial.egg g))
    (setCanopyEnemies c (thaw (Canopy.enemies c)))
    (setReefEnemies r (thaw (Reef.enemies r))).

(** *** Safe zone *)

(** The test [inside] of [_updateSafeZone]. *)
Definition insideSafeZone (sz : SafeZone.t) (player : Player.t) : bool :=
  let dx := Player.x player - SafeZone.x sz in
  let dy := Player.y player - SafeZone.y sz in
  hypot dx dy <? SafeZone.radius sz - Player.radius player.

Definition stepSafeZone (sz : SafeZone.t) (player : Player.t) : SafeZone.t :=
  if negb (SafeZone.active sz) then sz
  else
    let inside := insideSafeZone sz player in
    let sz :=
      if inside && negb (SafeZone.playerWasInside sz) then
        let uses := S (SafeZone.uses sz) in
        let radius := SafeZone.radius sz * 0.80 in
        let active :=
          if (SafeZone.maxUses sz <=? uses)%nat || (radius <? 18) then false
          else SafeZone.active sz in
        SafeZone.mk (SafeZone.x sz) (SafeZone.y sz) radius uses (SafeZone.maxUses sz)
          active (SafeZone.playerWasInside sz)
      else sz in
    SafeZone.mk (SafeZone.x sz) (SafeZone.y sz) (SafeZone.radius sz) (SafeZone.uses sz)
      (SafeZone.maxUses sz) (SafeZone.active sz) inside.

(** [_updateSafeZone] *)
Definition _updateSafeZone (player : Player.t) (S : State.t) : State.t :=
  State.setSafeZone S (stepSafeZone (State.safeZone S) player).

(** *** Volcanic Wastes *)

(** A lava trail or an erupting geyser pushes the player out of its circle. *)
Definition pushOut (cx cy cr : R) (player : Player.t) : Player.t :=
  let dx := Player.x player - cx in
  let dy := Player.y player - cy in
  let dist := hypot dx dy in
  if (dist <? cr + Player.radius player) && (dist >? 0) then
    Player.moveTo player
      (Player.x player + (dx / dist) * (cr + Player.radius player - dist + 1))
      (Player.y player + (dy / dist) * (cr + Player.radius player - dist + 1))
  else player.

Definition boostSpeed (e : Magmawyrm) : Magmawyrm :=
  let m := Enemy.ext e in
  let boost := Magma.speedBoostMult m * 1.15 in
  Enemy.setSpeed
    (Enemy.setExt e (Magma.mk (Magma.sizeMult m) (Magma.baseSpeed m) boost (Magma.trailTimer m)))
    (Magma.baseSpeed m * boost).

Definition tickTrail (dt : R) (t : LavaTrail.t) : LavaTrail.t :=
  LavaTrail.mk (LavaTrail.x t) (LavaTrail.y t) (LavaTrail.radius t)
    (LavaTrail.life t - dt) (LavaTrail.maxLife t).

(** The body of the geyser [forEach]. *)
Definition geyserStep (dt : R) (acc : list Geyser.t * Player.t) (g : Geyser.t)
  : list Geyser.t * Player.t :=
  let (done, player) := acc in
  let timer := Geyser.timer g + dt in
  let erupting := Geyser.erupting g in
  let '(erupting, timer) :=
    if negb erupting && (timer >=? 5) then (true, 0) else (erupting, timer) in
  let '(erupting, timer) :=
    if erupting && (timer >=? Geyser.eruptDur g) then (false, 0) else (erupting, timer) in
  let g := Geyser.mk (Geyser.x g) (Geyser.y g) (Geyser.radius g) timer erupting
             (Geyser.eruptDur g) in
  let player :=
    if erupting then pushOut (Geyser.x g) (Geyser.y g) (Geyser.radius g) player
    else player in
  (done ++ [g], player).

Definition setTrailTimer (e : Magmawyrm) (t : R) : Magmawyrm :=
  let m := Enemy.ext e in
  Enemy.setExt e (Magma.mk (Magma.sizeMult m) (Magma.baseSpeed m) (Magma.speedBoostMult m) t).

(** One child of a split. *)
Definition spawnChild (S : State.t) (e : Magmawyrm) : Rand Magmawyrm :=
  rx <- random ;;
  ry <- random ;;
  let child :=
    makeMagmawyrm S
      (Enemy.x e + (rx - 0.5) * Enemy.radius e * 2)
      (Enemy.y e + (ry - 0.5) * Enemy.radius e * 2)
      (Some (Magma.sizeMult (Enemy.ext e) * 0.6)) (Some 1.3) in
  let child := Enemy.setFrozen child false in
  let m := Enemy.ext child in
  let boost := Magma.speedBoostMult (Enemy.ext e) in
  let child :=
    Enemy.setExt child
      (Magma.mk (Magma.sizeMult m) (Magma.baseSpeed m) boost (Magma.trailTimer m)) in
  ret (Enemy.setSpeed child (Magma.baseSpeed m * boost)).

(** The split test of one enemy: within 200 px and large enough. *)
Definition splits (player : Player.t) (e : Magmawyrm) : bool :=
  let dx := Player.x player - Enemy.x e in
  let dy := Player.y player - Enemy.y e in
  (hypot dx dy <=? 200) && (Magma.sizeMult (Enemy.ext e) >? 0.4).

(** The body of the enemy [forEach] of [_updateVolcanic].  [done] are the
    enemies of [v.enemies] before the current one, as the loop left them, and
    [rest] those after it: together with the current enemy they are the array
    [_aliveCount('volcanic')] reads.  The result is the enemy, the lava
    trails and the children to append to [newSplits]. *)
Definition magmaStep (S : State.t) (dt : R) (player : Player.t) (abilityJustUsed : bool)
    (done rest : list Magmawyrm) (trails : list LavaTrail.t) (e : Magmawyrm)
  : Rand (Magmawyrm * list LavaTrail.t * list Magmawyrm) :=
  if negb (Enemy.alive e) || Enemy.frozen e then ret (e, trails, [])
  else
    let e := _chasePlayer e player dt in
    let timer := Magma.trailTimer (Enemy.ext e) + dt in
    let '(e, trails) :=
      if timer >=? 0.3 then
        (setTrailTimer e 0,
         trails ++ [LavaTrail.mk (Enemy.x e) (Enemy.y e) (Enemy.radius e * 0.9) 5 5])
      else (setTrailTimer e timer, trails) in
    if abilityJustUsed && splits player e then
      let e := Enemy.setAlive e false in
      if (_aliveCount (done ++ e :: rest) + 2 <=? MAX_PER_ZONE)%nat then
        c1 <- spawnChild S e ;;
        c2 <- spawnChild S e ;;
        ret (e, trails, [c1; c2])
      else ret (e, trails, [])
    else ret (e, trails, []).

Fixpoint magmaLoop (S : State.t) (dt : R) (player : Player.t) (abilityJustUsed : bool)
    (done todo : list Magmawyrm) (trails : list LavaTrail.t) (newSplits : list Magmawyrm)
  : Rand (list Magmawyrm * list LavaTrail.t * list Magmawyrm) :=
  match todo with
  | [] => ret (done, trails, newSplits)
  | e :: rest =>
      '(e', trails', kids) <- magmaStep S dt player abilityJustUsed done rest trails e ;;
      magmaLoop S dt player abilityJustUsed (done ++ [e']) rest trails' (newSplits ++ kids)
  end.

(** [_updateVolcanic] *)
Definition _updateVolcanic (dt : R) (player : Player.t) (abilityJustUsed : bool)
    (S : State.t) : Rand (State.t * Player.t) :=
  let v := State.volcanic S in
  let speedTimer := Volcanic.speedTimer v + dt in
  let '(speedTimer, enemies) :=
    if speedTimer >=? 5 then (speedTimer - 5, map boostSpeed (Volcanic.enemies v))
    else (speedTimer, Volcanic.enemies v) in
  let lavaTrails := map (tickTrail dt) (Volcanic.lavaTrails v) in
  let lavaTrails := filter (fun t => LavaTrail.life t >? 0) lavaTrails in
  let player :=
    fold_left (fun p t => pushOut (LavaTrail.x t) (LavaTrail.y t) (LavaTrail.radius t) p)
              lavaTrails player in
  let '(geysers, player) := fold_left (geyserStep dt) (Volcanic.geysers v) ([], player) in
  let enemies := _tickEffects enemies dt in
  '(enemies, lavaTrails, newSplits) <-
     magmaLoop S dt player abilityJustUsed [] enemies lavaTrails [] ;;
  let enemies := filter Enemy.alive enemies ++ newSplits in
  let enemies := _blockFromSafeZone S enemies in
  ret (State.setVolcanic S
         (Volcanic.mk enemies lavaTrails geysers speedTimer (Volcanic.visualPhase v)
            (Volcanic.egg v)),
       player).

(** *** Glacial Peaks *)

(** What the enemy [forEach] of [_updateGlacial] mutates besides its
    element. *)
Module FrostAcc.
Record t : Type := mk {
    frozenTiles : list Tile.t;
    iceBullets : list Bullet.t;
    bulletCooldown : R }.
End FrostAcc.

(** The aim of an ice bullet: [(bx / dist) * spd], with [dist] unguarded. *)
Definition aimBullet (e : Frostwyrm) (bx by_ dist : R) : Bullet.t :=
  let spd := 210 in
  Bullet.mk (Num (Enemy.x e)) (Num (Enemy.y e))
    (jmul (jdiv bx dist) (Num spd)) (jmul (jdiv by_ dist) (Num spd)) 8 true.

(** The first half of the body: frozen territory and drift, every 1.5 s. *)
Definition expandStep (dt : R) (acc : FrostAcc.t) (e : Frostwyrm)
  : Rand (FrostAcc.t * Frostwyrm) :=
  let z := ZONES.glacial in
  let f := Enemy.ext e in
  let timer := Frost.expandTimer f + dt in
  if timer >=? 1.5 then
    ra <- random ;;
    let ang := ra * PI * 2 in
    let tile := Tile.mk (Enemy.x e + cos ang * Frost.expandRadius f - 20)
                        (Enemy.y e + sin ang * Frost.expandRadius f - 20) 40 40 in
    let e := Enemy.setExt e (Frost.mk 0 (Rmin (Frost.expandRadius f + 6) 220)) in
    rx <- random ;;
    ry <- random ;;
    let x := Enemy.x e + (rx - 0.5) * 18 in
    let y := Enemy.y e + (ry - 0.5) * 18 in
    let x := clamp (Zone.x z + Enemy.radius e) (Zone.x z + Zone.w z - Enemy.radius e) x in
    let y := clamp (Zone.y z + Enemy.radius e) (Zone.y z + Zone.h z - Enemy.radius e) y in
    ret (FrostAcc.mk (FrostAcc.frozenTiles acc ++ [tile]) (FrostAcc.iceBullets acc)
           (FrostAcc.bulletCooldown acc),
         Enemy.moveTo e x y)
  else
    ret (acc, Enemy.setExt e (Frost.mk timer (Frost.expandRadius f))).

(** The second half: the zone's [bulletCooldown] and the shot. *)
Definition shootStep (dt : R) (player : Player.t) (acc : FrostAcc.t) (e : Frostwyrm)
  : FrostAcc.t :=
  let cooldown := FrostAcc.bulletCooldown acc - dt in
  if cooldown <=? 0 then
    let bx := Player.x player - Enemy.x e in
    let by_ := Player.y player - Enemy.y e in
    let dist := hypot bx by_ in
    if dist <=? 300 then
      FrostAcc.mk (FrostAcc.frozenTiles acc)
        (FrostAcc.iceBullets acc ++ [aimBullet e bx by_ dist]) 2.0
    else
      FrostAcc.mk (FrostAcc.frozenTiles acc) (FrostAcc.iceBullets acc) 0.5
  else
    FrostAcc.mk (FrostAcc.frozenTiles acc) (FrostAcc.iceBullets acc) cooldown.

(** The body of the enemy [forEach] of [_updateGlacial]. *)
Definition frostStep (dt : R) (player : Player.t)
    (acc : FrostAcc.t * list Frostwyrm) (e : Frostwyrm)
  : Rand (FrostAcc.t * list Frostwyrm) :=
  let (a, done) := acc in
  if negb (Enemy.alive e) || Enemy.frozen e then ret (a, done ++ [e])
  else
    '(a, e) <- expandStep dt a e ;;
    ret (shootStep dt player a e, done ++ [e]).

Definition bulletOutOfMap (x y : jsnum) : bool :=
  jltb x (Num 0) || jltb (Num MAP_W) x || jltb y (Num 0) || jltb (Num MAP_H) y.

(** The body of the bullet [forEach]. *)
Definition bulletStep (dt : R) (acc : list Bullet.t * Player.t) (b : Bullet.t)
  : list Bullet.t * Player.t :=
  let (done, player) := acc in
  if negb (Bullet.alive b) then (done ++ [b], player)
  else
    let x := jadd (Bullet.x b) (jmul (Bullet.vx b) (Num dt)) in
    let y := jadd (Bullet.y b) (jmul (Bullet.vy b) (Num dt)) in
    let dx := jsub (Num (Player.x player)) x in
    let dy := jsub (Num (Player.y player)) y in
    let hit :=
      jleb (jsqrt (jadd (jmul dx dx) (jmul dy dy)))
           (Num (Player.radius player + Bullet.radius b)) in
    let player :=
      if hit then Player.pushEffect player (Effect.mk dead Infinity) else player in
    let alive := if hit then false else Bullet.alive b in
    let alive := if bulletOutOfMap x y then false else alive in
    (done ++ [Bullet.mk x y (Bullet.vx b) (Bullet.vy b) (Bullet.radius b) alive], player).

(** A frozen tile pushes the player out along the axis of least overlap. *)
Definition tilePush (player : Player.t) (t : Tile.t) : Player.t :=
  let px := Player.x player in
  let py := Player.y player in
  let pr := Player.radius player in
  if (px >? Tile.x t - pr) && (px <? Tile.x t + Tile.w t + pr) &&
     (py >? Tile.y t - pr) && (py <? Tile.y t + Tile.h t + pr) then
    let cx := px - (Tile.x t + Tile.w t / 2) in
    let cy := py - (Tile.y t + Tile.h t / 2) in
    let overlapX := (Tile.w t / 2 + pr) - Rabs cx in
    let overlapY := (Tile.h t / 2 + pr) - Rabs cy in
    if (overlapX >? 0) && (overlapY >? 0) then
      if overlapX <? overlapY then
        Player.moveTo player (px + overlapX * (if cx <? 0 then -1 else 1)) py
      else
        Player.moveTo player px (py + overlapY * (if cy <? 0 then -1 else 1))
    else player
  else player.

(** The thaw timer of the glacial egg. *)
Definition glacialEggStep (dt : R) (player : Player.t) (egg : GlacialEgg.t)
  : GlacialEgg.t :=
  if negb (GlacialEgg.collected egg) then
    let ex := Player.x player - GlacialEgg.x egg in
    let ey := Player.y player - GlacialEgg.y egg in
    if hypot ex ey <=? Player.radius player + 30 then
      let thaw := GlacialEgg.thawTimer egg + dt in
      GlacialEgg.mk (GlacialEgg.x egg) (GlacialEgg.y egg)
        (if thaw >=? GlacialEgg.thawRequired egg then true else GlacialEgg.collected egg)
        thaw (GlacialEgg.thawRequired egg)
    else
      GlacialEgg.mk (GlacialEgg.x egg) (GlacialEgg.y egg) (GlacialEgg.collected egg)
        (Rmax 0 (GlacialEgg.thawTimer egg - dt * 0.5)) (GlacialEgg.thawRequired egg)
  else egg.

(** [_updateGlacial] *)
Definition _updateGlacial (dt : R) (player : Player.t) (S : State.t)
  : Rand (State.t * Player.t) :=
  let g := State.glacial S in
  let enemies := _tickEffects (Glacial.enemies g) dt in
  '(acc, enemies) <-
     foldR (frostStep dt player) enemies
       (FrostAcc.mk (Glacial.frozenTiles g) (Glacial.iceBullets g)
          (Glacial.bulletCooldown g), []) ;;
  let '(iceBullets, player) :=
    fold_left (bulletStep dt) (FrostAcc.iceBullets acc) ([], player) in
  let iceBullets := filter Bullet.alive iceBullets in
  let player := fold_left tilePush (FrostAcc.frozenTiles acc) player in
  let egg := glacialEggStep dt player (Glacial.egg g) in
  let enemies := _blockFromSafeZone S enemies in
  ret (State.setGlacial S
         (Glacial.mk enemies (FrostAcc.frozenTiles acc) iceBullets
            (FrostAcc.bulletCooldown acc) egg),
       player).

(** *** Ancient Canopy *)

Definition setThorn (e : Thornwyrm) (visible lunging : bool) (lungeVx lungeVy : R)
  : Thornwyrm :=
  Enemy.setExt e
    (Thorn.mk visible lunging lungeVx lungeVy (Thorn.teleportRange (Enemy.ext e))).

Definition setTeleportRange (range : R) (e : Thornwyrm) : Thornwyrm :=
  let t := Enemy.ext e in
  Enemy.setExt e
    (Thorn.mk (Thorn.visible t) (Thorn.lunging t) (Thorn.lungeVx t) (Thorn.lungeVy t) range).

(** The random jolt of one obstacle. *)
Definition joltObstacle (obs : Foliage.t) : Rand Foliage.t :=
  let z := ZONES.canopy in
  rx <- random ;;
  ry <- random ;;
  ret (Foliage.mk
         (clamp (Zone.x z + Foliage.r obs) (Zone.x z + Zone.w z - Foliage.r obs)
                (Foliage.x obs + (rx - 0.5) * 70))
         (clamp (Zone.y z + Foliage.r obs) (Zone.y z + Zone.h z - Foliage.r obs)
                (Foliage.y obs + (ry - 0.5) * 70))
         (Foliage.r obs)).

(** The body of the enemy [forEach] of [_updateCanopy]. *)
Definition thornStep (dt : R) (player : Player.t) (e : Thornwyrm) : Thornwyrm :=
  if negb (Enemy.alive e) || Enemy.frozen e then e
  else
    let dx := Player.x player - Enemy.x e in
    let dy := Player.y player - Enemy.y e in
    let dist := orOne (hypot dx dy) in
    let e :=
      if negb (Thorn.visible (Enemy.ext e)) && (dist <=? 150) then
        let ls := Enemy.speed e * 2.5 in
        setThorn e true true ((dx / dist) * ls) ((dy / dist) * ls)
      else e in
    let e :=
      if Thorn.lunging (Enemy.ext e) then
        let t := Enemy.ext e in
        let e := Enemy.moveTo e (Enemy.x e + Thorn.lungeVx t * dt)
                                (Enemy.y e + Thorn.lungeVy t * dt) in
        let dx2 := Player.x player - Enemy.x e in
        let dy2 := Player.y player - Enemy.y e in
        let e :=
          if hypot dx2 dy2 <=? Enemy.radius e + Player.radius player + 8 then
            setThorn e (Thorn.visible t) false (Thorn.lungeVx t) (Thorn.lungeVy t)
          else e in
        if hypot dx2 dy2 >? Thorn.teleportRange t then
          let ang := atan2 dy2 dx2 in
          Enemy.moveTo e (Player.x player - cos ang * (Thorn.teleportRange t * 0.75))
                         (Player.y player - sin ang * (Thorn.teleportRange t * 0.75))
        else e
      else if Thorn.visible (Enemy.ext e) then _chasePlayer e player dt
      else e in
    let z := ZONES.canopy in
    Enemy.moveTo e
      (clamp (Zone.x z + Enemy.radius e) (Zone.x z + Zone.w z - Enemy.radius e) (Enemy.x e))
      (clamp (Zone.y z + Enemy.radius e) (Zone.y z + Zone.h z - Enemy.radius e) (Enemy.y e)).

(** The canopy egg follows its host obstacle until it is collected. *)
Definition canopyEggStep (player : Player.t) (obstacles : list Foliage.t)
    (egg : CanopyEgg.t) : CanopyEgg.t :=
  if negb (CanopyEgg.collected egg) then
    match CanopyEgg._host egg with
    | Some i =>
        match nth_error obstacles i with
        | Some host =>
            let ex := Player.x player - Foliage.x host in
            let ey := Player.y player - Foliage.y host in
            let visible := hypot ex ey <=? 100 in
            CanopyEgg.mk (Foliage.x host) (Foliage.y host)
              (if visible && (hypot ex ey <=? Player.radius player + 18) then true
               else CanopyEgg.collected egg)
              visible (CanopyEgg._host egg)
        | None => egg
        end
    | None => egg
    end
  else egg.

Definition setCanopyTimers (c : Canopy.t) (multiplyTimer teleportTimer teleportRange
    escalateTimer : R) (escalateWave : nat) : Canopy.t :=
  Canopy.mk (Canopy.enemies c) (Canopy.obstacles c) multiplyTimer teleportTimer
    teleportRange escalateTimer escalateWave (Canopy.visualPhase c) (Canopy.egg c).

(** [_updateCanopy], first part: silent multiplication every 10 s while the
    player is in another zone. *)
Definition canopyMultiply (dt : R) (player : Player.t) (S : State.t) : Rand State.t :=
  let playerInCanopy := _inZone (Player.x player) (Player.y player) ZONES.canopy in
  let c := State.canopy S in
  let multiplyTimer := Canopy.multiplyTimer c + dt in
  if negb playerInCanopy && (multiplyTimer >=? 10) then
    _spawnThornwyrm
      (State.setCanopy S
         (setCanopyTimers c 0 (Canopy.teleportTimer c) (Canopy.teleportRange c)
            (Canopy.escalateTimer c) (Canopy.escalateWave c)))
  else
    ret (State.setCanopy S
           (setCanopyTimers c multiplyTimer (Canopy.teleportTimer c)
              (Canopy.teleportRange c) (Canopy.escalateTimer c) (Canopy.escalateWave c))).

(** Teleport range +50 px every 5 s. *)
Definition canopyTeleport (dt : R) (S : State.t) : State.t :=
  let c := State.canopy S in
  let teleportTimer := Canopy.teleportTimer c + dt in
  if teleportTimer >=? 5 then
    let range := Canopy.teleportRange c + 50 in
    State.setCanopy S
      (setCanopyEnemies
         (setCanopyTimers c (Canopy.multiplyTimer c) 0 range (Canopy.escalateTimer c)
            (Canopy.escalateWave c))
         (map (setTeleportRange range) (Canopy.enemies c)))
  else
    State.setCanopy S
      (setCanopyTimers c (Canopy.multiplyTimer c) teleportTimer (Canopy.teleportRange c)
         (Canopy.escalateTimer c) (Canopy.escalateWave c)).

(** Obstacle escalation every 5 s. *)
Definition canopyEscalate (dt : R) (S : State.t) : Rand State.t :=
  let c := State.canopy S in
  let escalateTimer := Canopy.escalateTimer c + dt in
  if escalateTimer >=? 5 then
    let wave := Nat.min (Canopy.escalateWave c + 1) 3 in
    S <- _addCanopyObstacles wave
           (State.setCanopy S
              (setCanopyTimers c (Canopy.multiplyTimer c) (Canopy.teleportTimer c)
                 (Canopy.teleportRange c) 0 wave)) ;;
    match CanopyEgg._host (Canopy.egg (State.canopy S)) with
    | None => _assignCanopyEgg S
    | Some _ => ret S
    end
  else
    ret (State.setCanopy S
           (setCanopyTimers c (Canopy.multiplyTimer c) (Canopy.teleportTimer c)
              (Canopy.teleportRange c) escalateTimer (Canopy.escalateWave c))).

(** The sudden jolt of the obstacles. *)
Definition canopyJolt (dt : R) (S : State.t) : Rand State.t :=
  let c := State.canopy S in
  rj <- random ;;
  if rj <? dt * 0.8 then
    obstacles <- mapR joltObstacle (Canopy.obstacles c) ;;
    ret (State.setCanopy S (setCanopyObstacles c obstacles))
  else ret S.

(** Effects, the enemy [forEach] and the egg. *)
Definition canopyEnemies (dt : R) (player : Player.t) (S : State.t) : State.t :=
  let c := State.canopy S in
  let enemies := _tickEffects (Canopy.enemies c) dt in
  let enemies := map (thornStep dt player) enemies in
  let egg := canopyEggStep player (Canopy.obstacles c) (Canopy.egg c) in
  State.setCanopy S (setCanopyEgg (setCanopyEnemies c enemies) egg).

(** [_updateCanopy] *)
Definition _updateCanopy (dt : R) (player : Player.t) (S : State.t)
  : Rand (State.t * Player.t) :=
  S <- canopyMultiply dt player S ;;
  S <- canopyEscalate dt (canopyTeleport dt S) ;;
  S <- canopyJolt dt S ;;
  let S := canopyEnemies dt player S in
  let c := State.canopy S in
  ret (State.setCanopy S (setCanopyEnemies c (_blockFromSafeZone S (Canopy.enemies c))),
       player).

(** *** Sunken Reef *)

(** The target of the [i]-th of the [n] moving enemies of the school, and the
    step towards it. *)
Definition tideStep (dt : R) (r : Reef.t) (n i : nat) (e : Tidewyrm) : Tidewyrm :=
  let z := ZONES.reef in
  let i := INR i in
  let phase := Reef.wavePhase r + Tide.waveOffset (Enemy.ext e) in
  let freq := 0.8 + INR (Reef.waveComplexity r) * 0.15 in
  let tx := Zone.x z + Zone.w z / 2 + cos (phase * freq) * (Zone.w z * 0.36) in
  let ty := Zone.y z + Zone.h z / 2
            + sin (phase * freq + (i / INR (Nat.max n 1)) * PI * 2) * (Zone.h z * 0.36) in
  let '(tx, ty) :=
    if (2 <=? Reef.waveComplexity r)%nat then
      (tx + sin (phase * 2.3 + i) * 80, ty + cos (phase * 1.7 + i) * 80)
    else (tx, ty) in
  let '(tx, ty) :=
    if (3 <=? Reef.waveComplexity r)%nat then
      (tx + cos (phase * 3.1) * 45, ty + sin (phase * 2.9) * 45)
    else (tx, ty) in
  let '(tx, ty) :=
    if (4 <=? Reef.waveComplexity r)%nat then
      (tx + sin (phase * 4.2 + i * 0.5) * 30, ty + cos (phase * 3.8 - i * 0.5) * 30)
    else (tx, ty) in
  let dx := tx - Enemy.x e in
  let dy := ty - Enemy.y e in
  let dist := orOne (hypot dx dy) in
  let x := Enemy.x e + (dx / dist) * Enemy.speed e * dt in
  let y := Enemy.y e + (dy / dist) * Enemy.speed e * dt in
  Enemy.moveTo e
    (clamp (Zone.x z + Enemy.radius e) (Zone.x z + Zone.w z - Enemy.radius e) x)
    (clamp (Zone.y z + Enemy.radius e) (Zone.y z + Zone.h z - Enemy.radius e) y).

Definition inSchool (e : Tidewyrm) : bool := Enemy.alive e && negb (Enemy.frozen e).

(** The [forEach] over [r.enemies.filter(...)]: the filtered array shares its
    elements with [r.enemies], so the loop is a pass over [r.enemies] that
    counts the members of the school it has met. *)
Fixpoint schoolLoop (dt : R) (r : Reef.t) (n i : nat) (l : list Tidewyrm)
  : list Tidewyrm :=
  match l with
  | [] => []
  | e :: rest =>
      if inSchool e then tideStep dt r n i e :: schoolLoop dt r n (S i) rest
      else e :: schoolLoop dt r n i rest
  end.

(** The body of the obstacle [forEach] of [_updateReef]. *)
Definition bouncerStep (dt : R) (acc : list Bouncer.t * Player.t * list Tidewyrm)
    (obs : Bouncer.t) : list Bouncer.t * Player.t * list Tidewyrm :=
  let '(done, player, enemies) := acc in
  let z := ZONES.reef in
  let r := Bouncer.r obs in
  let x := Bouncer.x obs + Bouncer.vx obs * dt in
  let y := Bouncer.y obs + Bouncer.vy obs * dt in
  let vx := Bouncer.vx obs in
  let vy := Bouncer.vy obs in
  let '(x, vx) := if x - r <? Zone.x z then (Zone.x z + r, Rabs vx) else (x, vx) in
  let '(x, vx) :=
    if x + r >? Zone.x z + Zone.w z then (Zone.x z + Zone.w z - r, - Rabs vx) else (x, vx) in
  let '(y, vy) := if y - r <? Zone.y z then (Zone.y z + r, Rabs vy) else (y, vy) in
  let '(y, vy) :=
    if y + r >? Zone.y z + Zone.h z then (Zone.y z + Zone.h z - r, - Rabs vy) else (y, vy) in
  let obs := Bouncer.mk x y vx vy r in
  (done ++ [obs], knockBackPlayer player obs, map (knockBackEnemy obs) enemies).

(** The drifting egg of the reef. *)
Definition reefEggStep (dt : R) (player : Player.t) (egg : ReefEgg.t) : ReefEgg.t :=
  if negb (ReefEgg.collected egg) then
    let z := ZONES.reef in
    let x := ReefEgg.x egg + ReefEgg.vx egg * dt in
    let y := ReefEgg.y egg + ReefEgg.vy egg * dt in
    let vx := ReefEgg.vx egg in
    let vy := ReefEgg.vy egg in
    let '(x, vx) := if x <? Zone.x z + 20 then (Zone.x z + 20, Rabs vx) else (x, vx) in
    let '(x, vx) :=
      if x >? Zone.x z + Zone.w z - 20 then (Zone.x z + Zone.w z - 20, - Rabs vx)
      else (x, vx) in
    let '(y, vy) := if y <? Zone.y z + 20 then (Zone.y z + 20, Rabs vy) else (y, vy) in
    let '(y, vy) :=
      if y >? Zone.y z + Zone.h z - 20 then (Zone.y z + Zone.h z - 20, - Rabs vy)
      else (y, vy) in
    let ex := Player.x player - x in
    let ey := Player.y player - y in
    ReefEgg.mk x y vx vy
      (if hypot ex ey <=? Player.radius player + 18 then true else ReefEgg.collected egg)
  else egg.

(** [_updateReef], first part: one more enemy every 10 s, below the cap. *)
Definition reefMultiply (dt : R) (S : State.t) : Rand State.t :=
  let r := State.reef S in
  let z := ZONES.reef in
  let multiplyTimer := Reef.multiplyTimer r + dt in
  let setTimer (r : Reef.t) (t : R) :=
    Reef.mk (Reef.enemies r) (Reef.obstacles r) t (Reef.waveTimer r)
      (Reef.waveComplexity r) (Reef.wavePhase r) (Reef.visualPhase r) (Reef.egg r) in
  if multiplyTimer >=? 10 then
    if (_aliveCount (Reef.enemies r) <? MAX_PER_ZONE)%nat then
      rx <- random ;;
      ry <- random ;;
      ro <- random ;;
      let tw := makeTidewyrm S (Zone.x z + 150 + rx * (Zone.w z - 300))
                               (Zone.y z + 150 + ry * (Zone.h z - 300))
                               (ro * PI * 2) in
      ret (State.setReef S
             (setReefEnemies (setTimer r 0) (Reef.enemies r ++ [Enemy.setFrozen tw false])))
    else ret (State.setReef S (setTimer r 0))
  else ret (State.setReef S (setTimer r multiplyTimer)).

(** Wave complexity and phase, effects, and the school's movement. *)
Definition reefSchool (dt : R) (S : State.t) : State.t :=
  let r := State.reef S in
  let waveTimer := Reef.waveTimer r + dt in
  let '(waveTimer, waveComplexity) :=
    if waveTimer >=? 5 then (0, Nat.min (Reef.waveComplexity r + 1) 4)
    else (waveTimer, Reef.waveComplexity r) in
  let wavePhase := Reef.wavePhase r + dt in
  let enemies := _tickEffects (Reef.enemies r) dt in
  let r := Reef.mk enemies (Reef.obstacles r) (Reef.multiplyTimer r) waveTimer
             waveComplexity wavePhase (Reef.visualPhase r) (Reef.egg r) in
  let n := length (filter inSchool enemies) in
  State.setReef S (setReefEnemies r (schoolLoop dt r n 0 enemies)).

(** [_updateReef] *)
Definition _updateReef (dt : R) (player : Player.t) (S : State.t)
  : Rand (State.t * Player.t) :=
  S <- reefMultiply dt S ;;
  let S := reefSchool dt S in
  let r := State.reef S in
  let '(obstacles, player, enemies) :=
    fold_left (bouncerStep dt) (Reef.obstacles r) ([], player, Reef.enemies r) in
  let egg := reefEggStep dt player (Reef.egg r) in
  let enemies := _blockFromSafeZone S enemies in
  ret (State.setReef S
         (setReefEgg (setReefObstacles (setReefEnemies r enemies) obstacles) egg),
       player).

(** *** [update] *)

(** [S.prevPX !== null && (player.x !== S.prevPX || player.y !== S.prevPY)] *)
Definition playerDisplaced (player : Player.t) (S : State.t) : bool :=
  match State.prevPX S with
  | None => false
  | Some px =>
      negb (Player.x player =? px) ||
      match State.prevPY S with
      | Some py => negb (Player.y player =? py)
      | None => true
      end
  end.

(** The first-movement edge at the head of [update]. *)
Definition detectMovement (player : Player.t) (S : State.t) : State.t :=
  if negb (State.playerMoved S) then
    let S :=
      if playerDisplaced player S then
        _unfreezeAll
          (State.mk (State.level S) (State.speedMult S) (State.time S) true
             (State.prevPX S) (State.prevPY S) (State.prevAbilityCooldown S)
             (State.safeZone S) (State.volcanic S) (State.glacial S) (State.canopy S)
             (State.reef S))
      else S in
    State.mk (State.level S) (State.speedMult S) (State.time S) (State.playerMoved S)
      (Some (Player.x player)) (Some (Player.y player)) (State.prevAbilityCooldown S)
      (State.safeZone S) (State.volcanic S) (State.glacial S) (State.canopy S)
      (State.reef S)
  else S.

(** The four zone simulators, in their fixed order. *)
Definition updateZones (dt : R) (player : Player.t) (abilityJustUsed : bool)
    (S : State.t) : Rand (State.t * Player.t) :=
  '(S, player) <- _updateVolcanic dt player abilityJustUsed S ;;
  '(S, player) <- _updateGlacial dt player S ;;
  '(S, player) <- _updateCanopy dt player S ;;
  _updateReef dt player S.

Definition advanceVisualPhases (dt : R) (S : State.t) : State.t :=
  let v := State.volcanic S in
  let c := State.canopy S in
  let r := State.reef S in
  State.mk (State.level S) (State.speedMult S) (State.time S) (State.playerMoved S)
    (State.prevPX S) (State.prevPY S) (State.prevAbilityCooldown S) (State.safeZone S)
    (Volcanic.mk (Volcanic.enemies v) (Volcanic.lavaTrails v) (Volcanic.geysers v)
       (Volcanic.speedTimer v) (Volcanic.visualPhase v + dt * 8) (Volcanic.egg v))
    (State.glacial S)
    (Canopy.mk (Canopy.enemies c) (Canopy.obstacles c) (Canopy.multiplyTimer c)
       (Canopy.teleportTimer c) (Canopy.teleportRange c) (Canopy.escalateTimer c)
       (Canopy.escalateWave c) (Canopy.visualPhase c + dt * 3) (Canopy.egg c))
    (Reef.mk (Reef.enemies r) (Reef.obstacles r) (Reef.multiplyTimer r) (Reef.waveTimer r)
       (Reef.waveComplexity r) (Reef.wavePhase r) (Reef.visualPhase r + dt * 1.5)
       (Reef.egg r)).

(** The value of [abilityJustUsed] in [update]. *)
Definition abilityEdge (player : Player.t) (S : State.t) : bool :=
  (State.prevAbilityCooldown S =? 0) && (Player.abilityCooldown player >? 0).

(** The head of [update], up to the safe zone: the state the zone simulators
    start from, and the value of [abilityJustUsed]. *)
Definition enterFrame (dt : R) (player : Player.t) (S : State.t) : State.t * bool :=
  let S :=
    State.mk (State.level S) (State.speedMult S) (State.time S + dt) (State.playerMoved S)
      (State.prevPX S) (State.prevPY S) (State.prevAbilityCooldown S) (State.safeZone S)
      (State.volcanic S) (State.glacial S) (State.canopy S) (State.reef S) in
  let S := detectMovement player S in
  let abilityJustUsed := abilityEdge player S in
  let S :=
    State.mk (State.level S) (State.speedMult S) (State.time S) (State.playerMoved S)
      (State.prevPX S) (State.prevPY S) (Player.abilityCooldown player) (State.safeZone S)
      (State.volcanic S) (State.glacial S) (State.canopy S) (State.reef S) in
  (_updateSafeZone player S, abilityJustUsed).

(** [update] *)
Definition update (dt : R) (player : Player.t) (S : State.t) : Rand (State.t * Player.t) :=
  let (S, abilityJustUsed) := enterFrame dt player S in
  '(S, player) <-
     (if State.playerMoved S then updateZones dt player abilityJustUsed S
      else ret (S, player)) ;;
  ret (advanceVisualPhases dt S, player).

(** ** Runs of the module: [init] followed by frames *)

Module Frame.
Record t : Type := mk { dt : R; player : Player.t; oracle : Oracle.t }.
End Frame.

(** The state after [init(level)]. *)
Definition initState (level : Z) (o : Oracle.t) : State.t := fst (init level o 0%nat).

(** The state after one call of [update]. *)
Definition frame (S : State.t) (f : Frame.t) : State.t :=
  fst (fst (update (Frame.dt f) (Frame.player f) S (Frame.oracle f) 0%nat)).

(** The player as [update] leaves it. *)
Definition framePlayer (S : State.t) (f : Frame.t) : Player.t :=
  snd (fst (update (Frame.dt f) (Frame.player f) S (Frame.oracle f) 0%nat)).

(** The state after a sequence of frames. *)
Definition run (S : State.t) (frames : list Frame.t) : State.t :=
  fold_left frame frames S.

(** ** Predicates used by the properties *)

(** [S'] differs from [S] in one zone at most. *)
Definition onlyVolcanic (S S' : State.t) : Prop :=
  S' = State.setVolcanic S (State.volcanic S').
Definition onlyGlacial (S S' : State.t) : Prop :=
  S' = State.setGlacial S (State.glacial S').
Definition onlyCanopy (S S' : State.t) : Prop :=
  S' = State.setCanopy S (State.canopy S').
Definition onlyReef (S S' : State.t) : Prop :=
  S' = State.setReef S (State.reef S').

(** The distance test of the safe zone, as a proposition: the player's
    circle lies strictly inside the zone. *)
Definition strictlyInside (sz : SafeZone.t) (player : Player.t) : Prop :=
  hypot (Player.x player - SafeZone.x sz) (Player.y player - SafeZone.y sz)
  < SafeZone.radius sz - Player.radius player.

(** A frame consumes a use of the safe zone. *)
Definition consumesUse (sz : SafeZone.t) (player : Player.t) : Prop :=
  SafeZone.active sz = true /\ strictlyInside sz player /\
  SafeZone.playerWasInside sz = false.

(** ** Sample inputs *)

Definition oracle0 : Oracle.t :=
  Oracle.mk (fun _ => 0) (fun _ => conj (Rle_refl 0) Rlt_0_1).

(** The player of src/player.js, placed at [(x, y)]. *)
Definition playerAt (x y : R) : Player.t := Player.mk x y 12 0 0 [].

Definition frameAt (x y : R) : Frame.t := Frame.mk 0.1 (playerAt x y) oracle0.

(** In and out of the safe zone, three times. *)
Definition threeEntries : list Frame.t :=
  [frameAt 1000 1000; frameAt 2000 1000; frameAt 1000 1000; frameAt 2000 1000;
   frameAt 1000 1000].

(** [S'] is [S] with its zones paused: enemies, hazards, timers and eggs are
    those of [S]; only the visual phases may differ. *)
Definition pausedZones (S S' : State.t) : Prop :=
  let v := State.volcanic S in
  let c := State.canopy S in
  let r := State.reef S in
  State.volcanic S' =
    Volcanic.mk (Volcanic.enemies v) (Volcanic.lavaTrails v) (Volcanic.geysers v)
      (Volcanic.speedTimer v) (Volcanic.visualPhase (State.volcanic S')) (Volcanic.egg v) /\
  State.glacial S' = State.glacial S /\
  State.canopy S' =
    Canopy.mk (Canopy.enemies c) (Canopy.obstacles c) (Canopy.multiplyTimer c)
      (Canopy.teleportTimer c) (Canopy.teleportRange c) (Canopy.escalateTimer c)
      (Canopy.escalateWave c) (Canopy.visualPhase (State.canopy S')) (Canopy.egg c) /\
  State.reef S' =
    Reef.mk (Reef.enemies r) (Reef.obstacles r) (Reef.multiplyTimer r) (Reef.waveTimer r)
      (Reef.waveComplexity r) (Reef.wavePhase r) (Reef.visualPhase (State.reef S'))
      (Reef.egg r).

(** The player standing on the first Magmawyrm with the ability just used. *)
Definition abilityFrame : Frame.t :=
  Frame.mk 0.1 (Player.mk 500 500 12 0 10 []) oracle0.

(** [child] is a child of the split of [parent], made in state [S]. *)
Definition splitChild (S : State.t) (parent child : Magmawyrm) : Prop :=
  Magma.sizeMult (Enemy.ext child) = Magma.sizeMult (Enemy.ext parent) * 0.6 /\
  Enemy.radius child = 20 * (Magma.sizeMult (Enemy.ext parent) * 0.6) /\
  Magma.baseSpeed (Enemy.ext child) = 60 * State.speedMult S * 1.3 /\
  Magma.speedBoostMult (Enemy.ext child) = Magma.speedBoostMult (Enemy.ext parent) /\
  Enemy.speed child =
    60 * State.speedMult S * 1.3 * Magma.speedBoostMult (Enemy.ext parent) /\
  Enemy.frozen child = false /\
  Enemy.alive child = true.

(** A Magmawyrm of size 1 under [playerAt 500 500]. *)
Definition sampleMagmawyrm : Magmawyrm :=
  Enemy.mk 500 500 20 60 true false [] (Magma.mk 1 60 1 0).

(** The canopy egg has a host obstacle, as it has from [init] on. *)
Definition hostAssigned (S : State.t) : Prop :=
  CanopyEgg._host (Canopy.egg (State.canopy S)) <> None.

(** A state in which the four eggs have been collected. *)
Definition collectedState : State.t :=
  State.mk 1 1 0 true (Some 1000) (Some 1000) 0
    (SafeZone.mk CENTER_X CENTER_Y 120 0 3 true false)
    (Volcanic.mk [] [] [] 0 0 (VolcanicEgg.mk 250 250 true))
    (Glacial.mk [] [] [] 0 (GlacialEgg.mk 1800 250 true 2 2))
    (Canopy.mk [] [Foliage.mk 1500 1500 40] 0 0 150 0 0 0
       (CanopyEgg.mk 1500 1500 true true (Some 0%nat)))
    (Reef.mk [] [] 0 0 0 0 0 (ReefEgg.mk 500 1500 45 0 true)).

(** The sizes a Magmawyrm can have: that of [init], of its children and of
    its grandchildren, the last being too small to split. *)
Definition knownSize (e : Magmawyrm) : Prop :=
  Magma.sizeMult (Enemy.ext e) = 1 \/
  Magma.sizeMult (Enemy.ext e) = 1 * 0.6 \/
  Magma.sizeMult (Enemy.ext e) = 1 * 0.6 * 0.6.

(** The number of smallest Magmawyrms an enemy can end up as. *)
Definition sizeCost (s : R) : nat :=
  if s =? 1 then 4 else if s =? 1 * 0.6 then 2 else 1.

Definition aliveCost (e : Magmawyrm) : nat :=
  if Enemy.alive e then sizeCost (Magma.sizeMult (Enemy.ext e)) else 0.

Fixpoint budget (l : list Magmawyrm) : nat :=
  match l with
  | [] => 0
  | e :: l' => aliveCost e + budget l'
  end.

(** The invariant behind the cap of 6 enemies per zone. *)
Definition capInv (S : State.t) : Prop :=
  Forall knownSize (Volcanic.enemies (State.volcanic S)) /\
  (budget (Volcanic.enemies (State.volcanic S)) <= 4)%nat /\
  (_aliveCount (Glacial.enemies (State.glacial S)) <= MAX_PER_ZONE)%nat /\
  (_aliveCount (Canopy.enemies (State.canopy S)) <= MAX_PER_ZONE)%nat /\
  (_aliveCount (Reef.enemies (State.reef S)) <= MAX_PER_ZONE)%nat.

(** Two Frostwyrms 100 px apart, the player between them. *)
Definition frostA : Frostwyrm := Enemy.mk 1500 500 24 30 true false [] (Frost.mk 0 50).

(** A bouncing obstacle of the reef and a lava circle, for the examples. *)
Definition sampleBouncer : Bouncer.t := Bouncer.mk 500 1500 80 0 28.




(** ** Predicates on the enemies of a state *)

(** Every enemy of a zone satisfies the predicate of its zone. *)
Definition zoneEnemies (PV : Magmawyrm -> Prop) (PG : Frostwyrm -> Prop)
    (PC : Thornwyrm -> Prop) (PR : Tidewyrm -> Prop) (S : State.t) : Prop :=
  Forall PV (Volcanic.enemies (State.volcanic S)) /\
  Forall PG (Glacial.enemies (State.glacial S)) /\
  Forall PC (Canopy.enemies (State.canopy S)) /\
  Forall PR (Reef.enemies (State.reef S)).

(** Every enemy of the four zones satisfies [P]. *)
Definition allEnemies (P : forall V : Type, Enemy.t V -> Prop) (S : State.t) : Prop :=
  zoneEnemies (P Magma.t) (P Frost.t) (P Thorn.t) (P Tide.t) S.

(** The [frozen] flag of an enemy has the value [b]. *)
Definition frozenAs (b : bool) (V : Type) (e : Enemy.t V) : Prop := Enemy.frozen e = b.

(** The enemy's circle lies within the rectangle of the zone. *)
Definition withinZone {V : Type} (z : Zone.t) (e : Enemy.t V) : Prop :=
  Zone.x z + Enemy.radius e <= Enemy.x e <= Zone.x z + Zone.w z - Enemy.radius e /\
  Zone.y z + Enemy.radius e <= Enemy.y e <= Zone.y z + Zone.h z - Enemy.radius e.

(** An enemy of radius [r] whose circle lies within the zone. *)
Definition confined {V : Type} (z : Zone.t) (r : R) (e : Enemy.t V) : Prop :=
  Enemy.radius e = r /\ withinZone z e.

(** The safe zone is where [resetState] puts it and no larger. *)
Definition ringInv (sz : SafeZone.t) : Prop :=
  SafeZone.x sz = CENTER_X /\ SafeZone.y sz = CENTER_Y /\ 0 < SafeZone.radius sz <= 120.



(** A foliage obstacle of the canopy: radius in [[35, 60]], inside the zone. *)
Definition foliageInv (obs : Foliage.t) : Prop :=
  35 <= Foliage.r obs <= 60 /\
  Zone.x ZONES.canopy + Foliage.r obs <= Foliage.x obs
    <= Zone.x ZONES.canopy + Zone.w ZONES.canopy - Foliage.r obs /\
  Zone.y ZONES.canopy + Foliage.r obs <= Foliage.y obs
    <= Zone.y ZONES.canopy + Zone.h ZONES.canopy - Foliage.r obs.

(** What every phase of [_updateCanopy] keeps: the wave counter is capped,
    each Thornwyrm carries the zone's teleport range, the obstacles are at
    least the five of [init], and the egg's host is one of them. *)
Definition canopyCore (c : Canopy.t) : Prop :=
  (Canopy.escalateWave c <= 3)%nat /\
  150 <= Canopy.teleportRange c /\
  Forall (fun e : Thornwyrm => Thorn.teleportRange (Enemy.ext e) = Canopy.teleportRange c)
    (Canopy.enemies c) /\
  (5 <= length (Canopy.obstacles c))%nat /\
  Forall foliageInv (Canopy.obstacles c) /\
  exists i, CanopyEgg._host (Canopy.egg c) = Some i /\ (i < length (Canopy.obstacles c))%nat.

(** Until it is collected the egg is where its host obstacle is. *)
Definition eggRidesHost (c : Canopy.t) : Prop :=
  CanopyEgg.collected (Canopy.egg c) = false ->
  exists i host,
    CanopyEgg._host (Canopy.egg c) = Some i /\
    nth_error (Canopy.obstacles c) i = Some host /\
    CanopyEgg.x (Canopy.egg c) = Foliage.x host /\
    CanopyEgg.y (Canopy.egg c) = Foliage.y host.

(** A geyser of [init]: radius 28, eruptions of 1.5 s, and a timer below the
    length of its current phase. *)
Definition geyserInv (g : Geyser.t) : Prop :=
  Geyser.radius g = 28 /\ Geyser.eruptDur g = 1.5 /\
  Geyser.timer g < (if Geyser.erupting g then 1.5 else 5).

(** A lava trail that is still burning. *)
Definition trailInv (t : LavaTrail.t) : Prop :=
  0 < LavaTrail.life t /\ LavaTrail.maxLife t = 5.

Definition geyserPos (g : Geyser.t) : R * R := (Geyser.x g, Geyser.y g).

(** A frozen tile as the Glacial zone lays them: 40 px square. *)
Definition tileInv (t : Tile.t) : Prop := Tile.w t = 40 /\ Tile.h t = 40.

(** A Frostwyrm that is alive with its expansion radius between the 50 px
    it starts with and the cap of 220 px. *)
Definition frostInv (e : Frostwyrm) : Prop :=
  Enemy.alive e = true /\ 50 <= Frost.expandRadius (Enemy.ext e) <= 220.

(** The game time a sequence of frames spans. *)
Definition elapsed (frames : list Frame.t) : R :=
  fold_left (fun t f => t + Frame.dt f) frames 0.

(** * src/player.js

    [window.Player] is the object [Enemies.update] receives as [player]; the
    record [Player.t] above has the fields the two files read and write.
    The [game] object the abilities receive is not part of the sources: the
    model keeps what the abilities read and write of it, [game.enemies] and
    [game.player], the latter being the [Player] object itself (the effect
    ability 2 pushes on [game.player] is one [Player.update] ticks).  The
    calls [game.spawnVisualEffect], [game.spawnDecoy] and [game.spawnZone]
    return nothing the abilities use and are left out. *)

Module Game.
Record t (V : Type) : Type := mk { enemies : list (Enemy.t V); player : Player.t }.
Arguments mk {V}.
Arguments enemies {V}.
Arguments player {V}.
End Game.

Definition ABILITY_COOLDOWN_DURATION : R := 10.

(** [isNearLineSegment] *)
Definition isNearLineSegment (px py x1 y1 x2 y2 halfWidth : R) : bool :=
  let dx := x2 - x1 in
  let dy := y2 - y1 in
  let lenSq := dx * dx + dy * dy in
  let t := if lenSq =? 0 then 0 else ((px - x1) * dx + (py - y1) * dy) / lenSq in
  let t := Rmax 0 (Rmin 1 t) in
  let closestX := x1 + t * dx in
  let closestY := y1 + t * dy in
  let distX := px - closestX in
  let distY := py - closestY in
  distX * distX + distY * distY <=? halfWidth * halfWidth.

(** [enemy.activeEffects.push(eff)] *)
Definition pushEnemyEffect {V : Type} (e : Enemy.t V) (eff : Effect.t) : Enemy.t V :=
  Enemy.setEffects e (Enemy.activeEffects e ++ [eff]).

Definition isPermanentSlow (eff : Effect.t) : bool :=
  match Effect.type eff with
  | permanentSlow _ => true
  | _ => false
  end.

(** The bodies of the [game.enemies.forEach] of the abilities. *)
Module Abilities.
Section Bodies.
Context {V : Type}.

(** Tidesong, Slow Bubble. *)
Definition slowBubble (player : Player.t) (enemy : Enemy.t V) : Enemy.t V :=
  let dx := Enemy.x enemy - Player.x player in
  let dy := Enemy.y enemy - Player.y player in
  let dist := hypot dx dy in
  if dist <=? 200 then pushEnemyEffect enemy (Effect.mk (slow 0.5) (Finite 3))
  else enemy.

(** Stormtalon, Lightning Dash: the trail from [(startX, startY)] to
    [(endX, endY)]. *)
Definition lightningTrail (startX startY endX endY : R) (enemy : Enemy.t V) : Enemy.t V :=
  if isNearLineSegment (Enemy.x enemy) (Enemy.y enemy) startX startY endX endY 24 then
    pushEnemyEffect enemy (Effect.mk stun (Finite 2))
  else enemy.

(** Shadowmend, Gravity Pull. *)
Definition gravityPull (player : Player.t) (enemy : Enemy.t V) : Enemy.t V :=
  pushEnemyEffect (Enemy.moveTo enemy (Player.x player) (Player.y player))
    (Effect.mk freeze (Finite 5)).

(** Emberclaw, Fire Ring. *)
Definition fireRing (player : Player.t) (enemy : Enemy.t V) : Enemy.t V :=
  let dx := Enemy.x enemy - Player.x player in
  let dy := Enemy.y enemy - Player.y player in
  let dist := orOne (hypot dx dy) in
  Enemy.moveTo enemy (Enemy.x enemy + (dx / dist) * 80) (Enemy.y enemy + (dy / dist) * 80).

(** Frostfang, Mass Freeze. *)
Definition massFreeze (enemy : Enemy.t V) : Enemy.t V :=
  let enemy := pushEnemyEffect enemy (Effect.mk freeze (Finite 4)) in
  let alreadySlowed := existsb isPermanentSlow (Enemy.activeEffects enemy) in
  if negb alreadySlowed then
    pushEnemyEffect enemy (Effect.mk (permanentSlow (1 - 0.3)) Infinity)
  else enemy.

End Bodies.
End Abilities.

Module PlayerJs.
Section Abilities.
Context {V : Type}.

(** [abilities[id]], keyed by dragon id; [None] where the table has no
    entry. *)
Definition abilities (id : Z) : option (Game.t V -> Game.t V) :=
  let onEnemies (f : Player.t -> Enemy.t V -> Enemy.t V) (game : Game.t V) :=
    Game.mk (map (f (Game.player game)) (Game.enemies game)) (Game.player game) in
  match id with
  | 1%Z => Some (onEnemies Abilities.slowBubble)
  | 2%Z => Some (fun game =>
             Game.mk (Game.enemies game)
               (Player.pushEffect (Game.player game) (Effect.mk invisible (Finite 4))))
  | 3%Z => Some (fun game =>
             let p := Game.player game in
             let startX := Player.x p in
             let startY := Player.y p in
             let endX := startX + cos (Player.facing p) * 300 in
             let endY := startY + sin (Player.facing p) * 300 in
             Game.mk (map (Abilities.lightningTrail startX startY endX endY)
                          (Game.enemies game))
                     (Player.moveTo p endX endY))
  | 4%Z => Some (onEnemies Abilities.gravityPull)
  | 5%Z => Some (onEnemies Abilities.fireRing)
  | 6%Z => Some (onEnemies (fun _ => Abilities.massFreeze))
  | _ => None
  end.

Definition setCooldown (p : Player.t) (c : R) : Player.t :=
  Player.mk (Player.x p) (Player.y p) (Player.radius p) (Player.facing p) c
    (Player.activeEffects p).

(** [useAbility], with [this.currentDragonId] as a parameter. *)
Definition useAbility (currentDragonId : Z) (game : Game.t V) : Game.t V :=
  if Player.abilityCooldown (Game.player game) >? 0 then game
  else
    match abilities currentDragonId with
    | None => game
    | Some abilityFn =>
        let game := abilityFn game in
        Game.mk (Game.enemies game) (setCooldown (Game.player game) ABILITY_COOLDOWN_DURATION)
    end.

End Abilities.

(** [update]: the cooldown and the player's effects.  An effect of infinite
    duration stays infinite under [-= dt] and is never [<= 0], which is what
    [tickEffectList] does. *)
Definition update (dt : R) (p : Player.t) : Player.t :=
  let cooldown :=
    if Player.abilityCooldown p >? 0 then Rmax 0 (Player.abilityCooldown p - dt)
    else Player.abilityCooldown p in
  Player.mk (Player.x p) (Player.y p) (Player.radius p) (Player.facing p) cooldown
    (tickEffectList dt (Player.activeEffects p)).

End PlayerJs.

(** [Player.update] on the player of a game, [dt] after [dt]. *)
Definition playerUpdates {V : Type} (dts : list R) (game : Game.t V) : Game.t V :=
  Game.mk (Game.enemies game)
    (fold_left (fun p dt => PlayerJs.update dt p) dts (Game.player game)).

Definition sumR (l : list R) : R := fold_left Rplus l 0.

(** The Frostwyrm of [init], thawed, for the examples. *)
Definition sampleEnemy : Frostwyrm := Enemy.mk 1500 500 24 30 true false [] (Frost.mk 0 50).

Definition sampleGame : Game.t Frost.t := Game.mk [sampleEnemy] (playerAt 1400 500).

(** The derived fields of a Magmawyrm agree with the ones they derive from:
    the speed is the base speed times the boost, which is at least 1, and the
    radius is 20 times the size. *)
Definition magmaInv (e : Magmawyrm) : Prop :=
  Enemy.speed e = Magma.baseSpeed (Enemy.ext e) * Magma.speedBoostMult (Enemy.ext e) /\
  1 <= Magma.speedBoostMult (Enemy.ext e) /\
  Enemy.radius e = 20 * Magma.sizeMult (Enemy.ext e).

(** A Thornwyrm lunges only once it has shown itself. *)
Definition revealed (e : Thornwyrm) : Prop :=
  Thorn.lunging (Enemy.ext e) = true -> Thorn.visible (Enemy.ext e) = true.

(** A Thornwyrm lying in wait inside the canopy, out of the player's reach. *)
Definition sampleThornwyrm : Thornwyrm :=
  Enemy.mk 1500 1500 16 80 true false [] (Thorn.mk false false 0 0 150).

(** * Properties *)


(** ** Comparisons *)

Lemma Rltb_true (a b : R) : (a <? b) = true <-> a < b.
Proof. unfold Rltb. destruct (Rlt_dec a b); split; intros; try discriminate; tauto. Qed.

Lemma Rltb_false (a b : R) : (a <? b) = false <-> b <= a.
Proof.
  unfold Rltb. destruct (Rlt_dec a b); split; intros; try discriminate; try lra; reflexivity.
Qed.

Lemma Rleb_true (a b : R) : (a <=? b) = true <-> a <= b.
Proof. unfold Rleb. destruct (Rle_dec a b); split; intros; try discriminate; tauto. Qed.

Lemma Rleb_false (a b : R) : (a <=? b) = false <-> b < a.
Proof.
  unfold Rleb. destruct (Rle_dec a b); split; intros; try discriminate; try lra; reflexivity.
Qed.

Lemma Reqb_true (a b : R) : (a =? b) = true <-> a = b.
Proof. unfold Reqb. destruct (Req_dec_T a b); split; intros; try discriminate; tauto. Qed.

Lemma Reqb_false (a b : R) : (a =? b) = false <-> a <> b.
Proof.
  unfold Reqb. destruct (Req_dec_T a b); split; intros; try discriminate; tauto.
Qed.

Lemma Reqb_refl (a : R) : (a =? a) = true.
Proof. apply Reqb_true. reflexivity. Qed.

(** Turns the boolean tests in the context and the goal into real
    inequalities. *)
Ltac reflectR :=
  repeat match goal with
  | H : (_ <? _) = true |- _ => apply Rltb_true in H
  | H : (_ <? _) = false |- _ => apply Rltb_false in H
  | H : (_ <=? _) = true |- _ => apply Rleb_true in H
  | H : (_ <=? _) = false |- _ => apply Rleb_false in H
  | H : (_ =? _) = true |- _ => apply Reqb_true in H
  | H : (_ =? _) = false |- _ => apply Reqb_false in H
  | |- (_ <? _) = true => apply Rltb_true
  | |- (_ <? _) = false => apply Rltb_false
  | |- (_ <=? _) = true => apply Rleb_true
  | |- (_ <=? _) = false => apply Rleb_false
  | |- (_ =? _) = true => apply Reqb_true
  | |- (_ =? _) = false => apply Reqb_false
  end.

Lemma hypot_0 : hypot 0 0 = 0.
Proof. unfold hypot. replace (0 * 0 + 0 * 0) with 0 by lra. apply sqrt_0. Qed.

Lemma hypot_nonneg (dx dy : R) : 0 <= hypot dx dy.
Proof. apply sqrt_pos. Qed.

(** A zero distance has zero components: the numerator of an aim is zero
    whenever its denominator is. *)
Lemma hypot_zero_components (dx dy : R) : hypot dx dy = 0 -> dx = 0 /\ dy = 0.
Proof.
  unfold hypot. intros H. apply sqrt_eq_0 in H; [| nra].
  split; nra.
Qed.

Lemma hypot_axis (d : R) : 0 <= d -> hypot d 0 = d.
Proof.
  intros H. unfold hypot. replace (d * d + 0 * 0) with (d * d) by lra.
  apply sqrt_square; assumption.
Qed.

Lemma orOne_0 : orOne 0 = 1.
Proof. unfold orOne. rewrite Reqb_refl. reflexivity. Qed.

Lemma orOne_nonzero (d : R) : orOne d <> 0.
Proof.
  unfold orOne. destruct (d =? 0) eqn:E; reflectR; lra.
Qed.

(** ** Computations that draw random numbers *)

Lemma repeatR_inv {A : Type} (P : A -> Prop) (f : A -> Rand A) :
  (forall a o k, P a -> P (fst (f a o k))) ->
  forall n a o k, P a -> P (fst (repeatR n f a o k)).
Proof.
  intros Hf n. induction n as [| n IH]; intros a o k Ha; simpl.
  - exact Ha.
  - unfold bind. specialize (Hf a o k Ha).
    destruct (f a o k) as [a' k']. apply IH. exact Hf.
Qed.

Lemma foldR_inv {A B : Type} (P : A -> Prop) (f : A -> B -> Rand A) :
  (forall a b o k, P a -> P (fst (f a b o k))) ->
  forall l a o k, P a -> P (fst (foldR f l a o k)).
Proof.
  intros Hf l. induction l as [| b l IH]; intros a o k Ha; simpl.
  - exact Ha.
  - unfold bind. specialize (Hf a b o k Ha).
    destruct (f a b o k) as [a' k']. apply IH. exact Hf.
Qed.

Lemma mapR_length {A B : Type} (f : A -> Rand B) (l : list A) (o : Oracle.t) (k : nat) :
  length (fst (mapR f l o k)) = length l.
Proof.
  revert k. induction l as [| a l IH]; intros k; simpl.
  - reflexivity.
  - unfold bind. destruct (f a o k) as [b k1].
    specialize (IH k1). destruct (mapR f l o k1) as [bs k2]. simpl in *.
    now rewrite IH.
Qed.

(** Names the result of every random computation in the goal. *)
Ltac stepR :=
  unfold bind, ret; simpl;
  repeat match goal with
  | |- context [let (_, _) := ?m in _] =>
      let E := fresh "E" in destruct m as [? ?] eqn:E; simpl
  end.

(** ** Each simulator writes its own zone only *)

Lemma onlyVolcanic_refl S : onlyVolcanic S S.
Proof. destruct S; reflexivity. Qed.
Lemma onlyGlacial_refl S : onlyGlacial S S.
Proof. destruct S; reflexivity. Qed.
Lemma onlyCanopy_refl S : onlyCanopy S S.
Proof. destruct S; reflexivity. Qed.
Lemma onlyReef_refl S : onlyReef S S.
Proof. destruct S; reflexivity. Qed.

Lemma onlyCanopy_trans S1 S2 S3 :
  onlyCanopy S1 S2 -> onlyCanopy S2 S3 -> onlyCanopy S1 S3.
Proof. unfold onlyCanopy. intros H1 H2. rewrite H2 at 1. rewrite H1 at 1. reflexivity. Qed.

Lemma onlyReef_trans S1 S2 S3 :
  onlyReef S1 S2 -> onlyReef S2 S3 -> onlyReef S1 S3.
Proof. unfold onlyReef. intros H1 H2. rewrite H2 at 1. rewrite H1 at 1. reflexivity. Qed.

Lemma onlyCanopy_set S c : onlyCanopy S (State.setCanopy S c).
Proof. reflexivity. Qed.
Lemma onlyReef_set S r : onlyReef S (State.setReef S r).
Proof. reflexivity. Qed.

Lemma spawnThornwyrm_only S o k : onlyCanopy S (fst (_spawnThornwyrm S o k)).
Proof.
  unfold _spawnThornwyrm.
  destruct (MAX_PER_ZONE <=? _)%nat; simpl.
  - apply onlyCanopy_refl.
  - reflexivity.
Qed.

Lemma addCanopyObstacles_only n S o k : onlyCanopy S (fst (_addCanopyObstacles n S o k)).
Proof.
  unfold _addCanopyObstacles.
  apply (repeatR_inv (onlyCanopy S)); [| apply onlyCanopy_refl].
  intros a o' k' Ha. simpl.
  eapply onlyCanopy_trans; [exact Ha | reflexivity].
Qed.

Lemma assignCanopyEgg_only S o k : onlyCanopy S (fst (_assignCanopyEgg S o k)).
Proof.
  unfold _assignCanopyEgg.
  destruct (Canopy.obstacles (State.canopy S)) as [| ob obs]; simpl.
  - apply onlyCanopy_refl.
  - unfold bind, random. simpl.
    destruct (nth_error _ _); simpl; [reflexivity | apply onlyCanopy_refl].
Qed.

Lemma updateVolcanic_only dt p a S o k :
  onlyVolcanic S (fst (fst (_updateVolcanic dt p a S o k))).
Proof.
  unfold _updateVolcanic.
  repeat match goal with
  | |- context [let '(_, _) := ?m in _] => destruct m
  end.
  stepR. destruct p0 as [[? ?] ?]. reflexivity.
Qed.

Lemma updateGlacial_only dt p S o k :
  onlyGlacial S (fst (fst (_updateGlacial dt p S o k))).
Proof.
  unfold _updateGlacial. stepR. destruct p0. 
  repeat match goal with
  | |- context [let '(_, _) := ?m in _] => destruct m
  end. reflexivity.
Qed.

Lemma canopyMultiply_only dt p S o k : onlyCanopy S (fst (canopyMultiply dt p S o k)).
Proof.
  unfold canopyMultiply. destruct (negb _ && _).
  - eapply onlyCanopy_trans; [| apply spawnThornwyrm_only]. reflexivity.
  - reflexivity.
Qed.

Lemma canopyTeleport_only dt S : onlyCanopy S (canopyTeleport dt S).
Proof. unfold canopyTeleport. destruct (_ >=? 5); reflexivity. Qed.

Lemma canopyEscalate_only dt S o k : onlyCanopy S (fst (canopyEscalate dt S o k)).
Proof.
  unfold canopyEscalate. destruct (_ >=? 5); [| reflexivity].
  unfold bind.
  match goal with |- context [_addCanopyObstacles ?n ?S0 o k] =>
    pose proof (addCanopyObstacles_only n S0 o k) as H;
    destruct (_addCanopyObstacles n S0 o k) as [S1 k1] end.
  simpl in H.
  assert (H' : onlyCanopy S S1) by (eapply onlyCanopy_trans; [| exact H]; reflexivity).
  destruct (CanopyEgg._host _).
  - exact H'.
  - eapply onlyCanopy_trans; [exact H' | apply assignCanopyEgg_only].
Qed.

Lemma canopyJolt_only dt S o k : onlyCanopy S (fst (canopyJolt dt S o k)).
Proof.
  unfold canopyJolt, bind, random. destruct (_ <? _).
  - destruct (mapR _ _ _ _). reflexivity.
  - apply onlyCanopy_refl.
Qed.

Lemma canopyEnemies_only dt p S : onlyCanopy S (canopyEnemies dt p S).
Proof. reflexivity. Qed.

Lemma updateCanopy_only dt p S o k :
  onlyCanopy S (fst (fst (_updateCanopy dt p S o k))).
Proof.
  unfold _updateCanopy, bind.
  pose proof (canopyMultiply_only dt p S o k) as H1.
  destruct (canopyMultiply dt p S o k) as [S1 k1]. simpl in H1.
  pose proof (canopyEscalate_only dt (canopyTeleport dt S1) o k1) as H2.
  destruct (canopyEscalate dt (canopyTeleport dt S1) o k1) as [S2 k2]. simpl in H2.
  pose proof (canopyJolt_only dt S2 o k2) as H3.
  destruct (canopyJolt dt S2 o k2) as [S3 k3]. simpl in *.
  repeat (eapply onlyCanopy_trans; [eassumption |]).
  eapply onlyCanopy_trans; [apply canopyTeleport_only |].
  repeat (eapply onlyCanopy_trans; [eassumption |]).
  reflexivity.
Qed.

Lemma reefMultiply_only dt S o k : onlyReef S (fst (reefMultiply dt S o k)).
Proof.
  unfold reefMultiply. destruct (_ >=? 10); [| reflexivity].
  destruct (_ <? _)%nat; reflexivity.
Qed.

Lemma reefSchool_only dt S : onlyReef S (reefSchool dt S).
Proof. unfold reefSchool. destruct (_ >=? 5); reflexivity. Qed.

Lemma updateReef_only dt p S o k :
  onlyReef S (fst (fst (_updateReef dt p S o k))).
Proof.
  unfold _updateReef, bind.
  pose proof (reefMultiply_only dt S o k) as H1.
  destruct (reefMultiply dt S o k) as [S1 k1]. simpl in H1.
  destruct (fold_left _ _ _) as [[obs p'] es]. simpl.
  eapply onlyReef_trans; [exact H1 |].
  eapply onlyReef_trans; [apply reefSchool_only | reflexivity].
Qed.

(** What [update] does to the fields outside the zones. *)
Lemma safeZone_only_volcanic S S' : onlyVolcanic S S' -> State.safeZone S' = State.safeZone S.
Proof. intros H. rewrite H. reflexivity. Qed.

(** ** The frame driver *)

Lemma updateZones_safeZone dt p a S o k :
  State.safeZone (fst (fst (updateZones dt p a S o k))) = State.safeZone S /\
  State.playerMoved (fst (fst (updateZones dt p a S o k))) = State.playerMoved S.
Proof.
  unfold updateZones, bind.
  pose proof (updateVolcanic_only dt p a S o k) as H1.
  destruct (_updateVolcanic dt p a S o k) as [[S1 p1] k1]. simpl in H1.
  pose proof (updateGlacial_only dt p1 S1 o k1) as H2.
  destruct (_updateGlacial dt p1 S1 o k1) as [[S2 p2] k2]. simpl in H2.
  pose proof (updateCanopy_only dt p2 S2 o k2) as H3.
  destruct (_updateCanopy dt p2 S2 o k2) as [[S3 p3] k3]. simpl in H3.
  pose proof (updateReef_only dt p3 S3 o k3) as H4.
  destruct (_updateReef dt p3 S3 o k3) as [[S4 p4] k4]. simpl in *.
  rewrite H4, H3, H2, H1. split; reflexivity.
Qed.

Lemma detectMovement_safeZone p S :
  State.safeZone (detectMovement p S) = State.safeZone S.
Proof.
  unfold detectMovement. destruct (negb _); [| reflexivity].
  destruct (playerDisplaced p S); reflexivity.
Qed.

Lemma detectMovement_playerMoved p S :
  State.playerMoved (detectMovement p S) = State.playerMoved S || playerDisplaced p S.
Proof.
  unfold detectMovement. destruct (State.playerMoved S) eqn:E; simpl; [exact E |].
  destruct (playerDisplaced p S) eqn:D.
  - reflexivity.
  - simpl. exact E.
Qed.

Lemma enterFrame_safeZone dt p S :
  State.safeZone (fst (enterFrame dt p S)) = stepSafeZone (State.safeZone S) p.
Proof.
  unfold enterFrame, _updateSafeZone. simpl.
  rewrite detectMovement_safeZone. reflexivity.
Qed.

Lemma enterFrame_playerMoved dt p S :
  State.playerMoved (fst (enterFrame dt p S)) = State.playerMoved S || playerDisplaced p S.
Proof.
  unfold enterFrame, _updateSafeZone. simpl.
  rewrite detectMovement_playerMoved. destruct S; reflexivity.
Qed.

(** The safe zone of the next frame depends on the safe zone and the player
    only. *)
Lemma safeZone_frame S f :
  State.safeZone (frame S f) = stepSafeZone (State.safeZone S) (Frame.player f).
Proof.
  unfold frame, update.
  rewrite <- enterFrame_safeZone with (dt := Frame.dt f).
  destruct (enterFrame _ _ S) as [S1 a]. unfold bind. simpl.
  destruct (State.playerMoved S1).
  - pose proof (updateZones_safeZone (Frame.dt f) (Frame.player f) a S1 (Frame.oracle f) 0%nat)
      as [H _].
    destruct (updateZones _ _ _ _ _ _) as [[S2 p2] k2]. simpl in *. exact H.
  - reflexivity.
Qed.

Lemma playerMoved_frame S f :
  State.playerMoved (frame S f) =
  State.playerMoved S || playerDisplaced (Frame.player f) S.
Proof.
  unfold frame, update.
  rewrite <- enterFrame_playerMoved with (dt := Frame.dt f).
  destruct (enterFrame _ _ S) as [S1 a]. unfold bind. simpl.
  destruct (State.playerMoved S1) eqn:E.
  - pose proof (updateZones_safeZone (Frame.dt f) (Frame.player f) a S1 (Frame.oracle f) 0%nat)
      as [_ H].
    destruct (updateZones _ _ _ _ _ _) as [[S2 p2] k2]. simpl in *. congruence.
  - simpl. exact E.
Qed.

Lemma safeZone_run S frames :
  State.safeZone (run S frames) =
  fold_left stepSafeZone (map Frame.player frames) (State.safeZone S).
Proof.
  revert S. induction frames as [| f frames IH]; intros S; simpl.
  - reflexivity.
  - unfold run in *. simpl. rewrite IH, safeZone_frame. reflexivity.
Qed.

(** ** [init] *)

Lemma onlyVolcanic_header S S' :
  onlyVolcanic S S' ->
  State.safeZone S' = State.safeZone S /\ State.playerMoved S' = State.playerMoved S /\
  State.prevPX S' = State.prevPX S /\ State.prevPY S' = State.prevPY S /\
  State.prevAbilityCooldown S' = State.prevAbilityCooldown S /\
  State.speedMult S' = State.speedMult S.
Proof. intros H. rewrite H. repeat split. Qed.

Lemma onlyGlacial_header S S' :
  onlyGlacial S S' ->
  State.safeZone S' = State.safeZone S /\ State.playerMoved S' = State.playerMoved S /\
  State.prevPX S' = State.prevPX S /\ State.prevPY S' = State.prevPY S /\
  State.prevAbilityCooldown S' = State.prevAbilityCooldown S /\
  State.speedMult S' = State.speedMult S.
Proof. intros H. rewrite H. repeat split. Qed.

Lemma onlyCanopy_header S S' :
  onlyCanopy S S' ->
  State.safeZone S' = State.safeZone S /\ State.playerMoved S' = State.playerMoved S /\
  State.prevPX S' = State.prevPX S /\ State.prevPY S' = State.prevPY S /\
  State.prevAbilityCooldown S' = State.prevAbilityCooldown S /\
  State.speedMult S' = State.speedMult S.
Proof. intros H. rewrite H. repeat split. Qed.

Lemma onlyReef_header S S' :
  onlyReef S S' ->
  State.safeZone S' = State.safeZone S /\ State.playerMoved S' = State.playerMoved S /\
  State.prevPX S' = State.prevPX S /\ State.prevPY S' = State.prevPY S /\
  State.prevAbilityCooldown S' = State.prevAbilityCooldown S /\
  State.speedMult S' = State.speedMult S.
Proof. intros H. rewrite H. repeat split. Qed.

Lemma initVolcanic_only S o k : onlyVolcanic S (fst (_initVolcanic S o k)).
Proof.
  unfold _initVolcanic, bind. destruct (foldR _ _ _ _ _). reflexivity.
Qed.

Lemma initGlacial_only S : onlyGlacial S (_initGlacial S).
Proof. reflexivity. Qed.

Lemma initCanopy_only S o k : onlyCanopy S (fst (_initCanopy S o k)).
Proof.
  unfold _initCanopy, bind.
  pose proof (repeatR_inv (onlyCanopy S) _spawnThornwyrm) as H1.
  specialize (H1 (fun a o k Ha => onlyCanopy_trans _ _ _ Ha (spawnThornwyrm_only a o k))).
  specialize (H1 2%nat S o k (onlyCanopy_refl S)).
  destruct (repeatR 2 _spawnThornwyrm S o k) as [S1 k1]. simpl in H1.
  pose proof (addCanopyObstacles_only 5 S1 o k1) as H2.
  destruct (_addCanopyObstacles 5 S1 o k1) as [S2 k2]. simpl in H2.
  eapply onlyCanopy_trans; [exact H1 |].
  eapply onlyCanopy_trans; [exact H2 | apply assignCanopyEgg_only].
Qed.

Lemma initReef_only S o k : onlyReef S (fst (_initReef S o k)).
Proof.
  unfold _initReef, bind.
  match goal with |- context [foldR ?f ?l S o k] =>
    pose proof (foldR_inv (onlyReef S) f) as H1;
    specialize (H1 (fun a b o k Ha => onlyReef_trans _ _ _ Ha (onlyReef_set _ _)));
    specialize (H1 l S o k (onlyReef_refl S));
    destruct (foldR f l S o k) as [S1 k1]
  end.
  simpl in H1.
  match goal with |- context [repeatR 4 ?f S1 o k1] =>
    pose proof (repeatR_inv (onlyReef S1) f) as H2;
    specialize (H2 (fun a o k Ha => onlyReef_trans _ _ _ Ha (onlyReef_set _ _)));
    specialize (H2 4%nat S1 o k1 (onlyReef_refl S1));
    destruct (repeatR 4 f S1 o k1) as [S2 k2]
  end.
  simpl in *.
  eapply onlyReef_trans; [exact H1 |].
  eapply onlyReef_trans; [exact H2 | reflexivity].
Qed.

(** [init] leaves the fields of [resetState] outside the zones as they are. *)
Lemma initState_header level o :
  State.safeZone (initState level o) = SafeZone.mk CENTER_X CENTER_Y 120 0 3 true false /\
  State.playerMoved (initState level o) = false /\
  State.prevPX (initState level o) = None /\
  State.prevPY (initState level o) = None /\
  State.prevAbilityCooldown (initState level o) = 0 /\
  State.speedMult (initState level o) = powerRZ 1.25 (level - 1).
Proof.
  unfold initState, init, bind.
  pose proof (initVolcanic_only (resetState level) o 0%nat) as H1.
  destruct (_initVolcanic (resetState level) o 0%nat) as [S1 k1]. simpl in H1.
  pose proof (initGlacial_only S1) as H2.
  pose proof (initCanopy_only (_initGlacial S1) o k1) as H3.
  destruct (_initCanopy (_initGlacial S1) o k1) as [S3 k3]. simpl in H3.
  pose proof (initReef_only S3 o k3) as H4.
  apply onlyVolcanic_header in H1. apply onlyGlacial_header in H2.
  apply onlyCanopy_header in H3. apply onlyReef_header in H4.
  destruct H1 as (A1 & B1 & C1 & D1 & E1 & F1).
  destruct H2 as (A2 & B2 & C2 & D2 & E2 & F2).
  destruct H3 as (A3 & B3 & C3 & D3 & E3 & F3).
  destruct H4 as (A4 & B4 & C4 & D4 & E4 & F4).
  rewrite A4, B4, C4, D4, E4, F4, A3, B3, C3, D3, E3, F3, A2, B2, C2, D2, E2, F2,
    A1, B1, C1, D1, E1, F1.
  repeat split.
Qed.

(** ** The safe zone *)

Lemma insideSafeZone_true sz p : insideSafeZone sz p = true <-> strictlyInside sz p.
Proof. unfold insideSafeZone, strictlyInside. apply Rltb_true. Qed.

Lemma insideSafeZone_false sz p : insideSafeZone sz p = false <-> ~ strictlyInside sz p.
Proof.
  unfold insideSafeZone, strictlyInside. rewrite Rltb_false. split; intros; lra.
Qed.

Lemma stepSafeZone_inactive sz p :
  SafeZone.active sz = false -> stepSafeZone sz p = sz.
Proof. intros H. unfold stepSafeZone. rewrite H. reflexivity. Qed.

(** An entry: the player is inside and was not on the frame before. *)
Lemma stepSafeZone_enter sz p :
  consumesUse sz p ->
  stepSafeZone sz p =
  SafeZone.mk (SafeZone.x sz) (SafeZone.y sz) (SafeZone.radius sz * 0.80)
    (S (SafeZone.uses sz)) (SafeZone.maxUses sz)
    (negb ((SafeZone.maxUses sz <=? S (SafeZone.uses sz))%nat ||
           (SafeZone.radius sz * 0.80 <? 18)))
    true.
Proof.
  intros (Ha & Hi & Hw). apply insideSafeZone_true in Hi.
  unfold stepSafeZone. rewrite Ha, Hi, Hw. simpl.
  destruct (_ || _); reflexivity.
Qed.

(** Any other frame of an active zone records the test and nothing else. *)
Lemma stepSafeZone_no_entry sz p :
  SafeZone.active sz = true ->
  ~ (strictlyInside sz p /\ SafeZone.playerWasInside sz = false) ->
  stepSafeZone sz p =
  SafeZone.mk (SafeZone.x sz) (SafeZone.y sz) (SafeZone.radius sz) (SafeZone.uses sz)
    (SafeZone.maxUses sz) true (insideSafeZone sz p).
Proof.
  intros Ha Hn. unfold stepSafeZone. rewrite Ha. simpl.
  destruct (insideSafeZone sz p) eqn:Hi; simpl.
  - destruct (SafeZone.playerWasInside sz) eqn:Hw; simpl.
    + rewrite Ha. reflexivity.
    + exfalso. apply Hn. split; [apply insideSafeZone_true; exact Hi | reflexivity].
  - rewrite Ha. reflexivity.
Qed.

Lemma consumesUse_dec sz p : consumesUse sz p \/ ~ consumesUse sz p.
Proof.
  unfold consumesUse.
  destruct (SafeZone.active sz); [| right; intros (H & _); discriminate].
  destruct (SafeZone.playerWasInside sz); [right; intros (_ & _ & H); discriminate |].
  destruct (insideSafeZone sz p) eqn:E.
  - left. apply insideSafeZone_true in E. auto.
  - right. apply insideSafeZone_false in E. tauto.
Qed.

Lemma stepSafeZone_not_consumed sz p :
  ~ consumesUse sz p ->
  SafeZone.uses (stepSafeZone sz p) = SafeZone.uses sz /\
  SafeZone.radius (stepSafeZone sz p) = SafeZone.radius sz /\
  SafeZone.active (stepSafeZone sz p) = SafeZone.active sz.
Proof.
  intros Hn. destruct (SafeZone.active sz) eqn:Ha.
  - rewrite stepSafeZone_no_entry; [simpl; auto | exact Ha |].
    intros (Hi & Hw). apply Hn. repeat split; assumption.
  - rewrite stepSafeZone_inactive by exact Ha. auto.
Qed.

Lemma stepSafeZone_radius sz p :
  0 < SafeZone.radius sz ->
  0 < SafeZone.radius (stepSafeZone sz p) <= SafeZone.radius sz.
Proof.
  intros Hr. destruct (consumesUse_dec sz p) as [Hc | Hc].
  - rewrite stepSafeZone_enter by exact Hc. simpl. lra.
  - destruct (stepSafeZone_not_consumed sz p Hc) as (_ & -> & _). lra.
Qed.

Lemma stepSafeZone_stays_inactive sz p :
  SafeZone.active sz = false -> SafeZone.active (stepSafeZone sz p) = false.
Proof. intros H. rewrite stepSafeZone_inactive; assumption. Qed.

Lemma fold_stepSafeZone_monotone players sz :
  0 < SafeZone.radius sz ->
  0 < SafeZone.radius (fold_left stepSafeZone players sz) <= SafeZone.radius sz /\
  (SafeZone.active sz = false ->
   SafeZone.active (fold_left stepSafeZone players sz) = false).
Proof.
  revert sz. induction players as [| p players IH]; intros sz Hr; simpl.
  - split; [lra | auto].
  - pose proof (stepSafeZone_radius sz p Hr) as H1.
    destruct (IH (stepSafeZone sz p)) as [H2 H3]; [lra |].
    split; [lra |].
    intros Ha. apply H3. apply stepSafeZone_stays_inactive. exact Ha.
Qed.

Lemma run_one S f : run S [f] = frame S f.
Proof. reflexivity. Qed.

Lemma run_cons S f frames : run S (f :: frames) = run (frame S f) frames.
Proof. reflexivity. Qed.


(** The radius stays positive in every state a level goes through. *)
Lemma radius_positive level o frames :
  0 < SafeZone.radius (State.safeZone (run (initState level o) frames)).
Proof.
  rewrite safeZone_run.
  destruct (initState_header level o) as (H & _). rewrite H.
  apply fold_stepSafeZone_monotone. simpl. lra.
Qed.

(** C7.  Within one level (the frames that follow one [init]), the radius
    of the safe zone never grows from a state to any later one, and a safe
    zone that is inactive stays inactive. *)
Theorem safe_zone_monotone (level : Z) (o : Oracle.t) (frames frames' : list Frame.t) :
  let S := run (initState level o) frames in
  let S' := run S frames' in
  SafeZone.radius (State.safeZone S') <= SafeZone.radius (State.safeZone S) /\
  (SafeZone.active (State.safeZone S) = false ->
   SafeZone.active (State.safeZone S') = false).
Proof.
  intros S S'. unfold S'. rewrite safeZone_run.
  pose proof (radius_positive level o frames) as Hr. fold S in Hr.
  destruct (fold_stepSafeZone_monotone (map Frame.player frames') _ Hr) as [H1 H2].
  split; [lra | exact H2].
Qed.

(** The scenario of three entries, on the safe zone alone. *)
Lemma sampleEntries :
  fold_left stepSafeZone (map Frame.player threeEntries)
    (SafeZone.mk CENTER_X CENTER_Y 120 0 3 true false) =
  SafeZone.mk CENTER_X CENTER_Y (120 * 0.80 * 0.80 * 0.80) 3 3 false true.
Proof.
  assert (Hin : forall r u, 12 < r ->
            consumesUse (SafeZone.mk CENTER_X CENTER_Y r u 3 true false) (playerAt 1000 1000)).
  { intros r u Hr. repeat split. unfold strictlyInside, CENTER_X, CENTER_Y. simpl.
    replace (1000 - 1000) with 0 by lra. rewrite hypot_0. lra. }
  assert (Hout : forall r u w, r < 1000 ->
            ~ (strictlyInside (SafeZone.mk CENTER_X CENTER_Y r u 3 true w) (playerAt 2000 1000)
               /\ w = false)).
  { intros r u w Hr (H & _). unfold strictlyInside, CENTER_X, CENTER_Y in H. simpl in H.
    replace (2000 - 1000) with 1000 in H by lra.
    replace (1000 - 1000) with 0 in H by lra.
    rewrite hypot_axis in H; lra. }
  assert (Hf : forall r, 18 <= r -> (r <? 18) = false) by (intros; reflectR; lra).
  simpl.
  repeat match goal with
  | |- context [stepSafeZone (SafeZone.mk ?a ?b ?c ?d ?e true false) (playerAt 1000 1000)] =>
      rewrite (stepSafeZone_enter (SafeZone.mk a b c d e true false) (playerAt 1000 1000))
        by (apply Hin; lra);
      simpl; try (rewrite Hf by lra; simpl)
  | |- context [stepSafeZone (SafeZone.mk ?a ?b ?c ?d ?e true ?w) (playerAt 2000 1000)] =>
      rewrite (stepSafeZone_no_entry (SafeZone.mk a b c d e true w) (playerAt 2000 1000))
        by (first [reflexivity | apply Hout; lra]);
      simpl;
      replace (insideSafeZone (SafeZone.mk a b c d e true w) (playerAt 2000 1000)) with false
        by (symmetry; apply insideSafeZone_false; intros H;
            apply (Hout c d false); [lra | split; [exact H | reflexivity]])
  end.
  reflexivity.
Qed.

Lemma safe_zone_monotone_witness :
  let S := run (initState 1 oracle0) threeEntries in
  let S' := run S [frameAt 1000 1000] in
  SafeZone.active (State.safeZone S) = false /\
  SafeZone.radius (State.safeZone S') <= SafeZone.radius (State.safeZone S) /\
  SafeZone.active (State.safeZone S') = false.
Proof.
  intros S S'.
  assert (Ha : SafeZone.active (State.safeZone S) = false).
  { unfold S. rewrite safeZone_run.
    destruct (initState_header 1 oracle0) as (H & _). rewrite H.
    rewrite sampleEntries. reflexivity. }
  destruct (safe_zone_monotone 1 oracle0 threeEntries [frameAt 1000 1000]) as [H1 H2].
  split; [exact Ha | split; [exact H1 | exact (H2 Ha)]].
Defined.

Lemma frame_enter S f :
  consumesUse (State.safeZone S) (Frame.player f) ->
  SafeZone.uses (State.safeZone (frame S f)) = Datatypes.S (SafeZone.uses (State.safeZone S)) /\
  SafeZone.radius (State.safeZone (frame S f)) = SafeZone.radius (State.safeZone S) * 0.8 /\
  SafeZone.active (State.safeZone (frame S f)) =
    negb ((SafeZone.maxUses (State.safeZone S) <=? Datatypes.S (SafeZone.uses (State.safeZone S)))%nat
          || (SafeZone.radius (State.safeZone S) * 0.8 <? 18)) /\
  SafeZone.playerWasInside (State.safeZone (frame S f)) = true.
Proof.
  intros H. rewrite safeZone_frame, stepSafeZone_enter by exact H. simpl.
  replace (0.80) with 0.8 by lra. auto.
Qed.

Lemma frame_no_entry S f :
  ~ consumesUse (State.safeZone S) (Frame.player f) ->
  SafeZone.uses (State.safeZone (frame S f)) = SafeZone.uses (State.safeZone S) /\
  SafeZone.radius (State.safeZone (frame S f)) = SafeZone.radius (State.safeZone S) /\
  SafeZone.active (State.safeZone (frame S f)) = SafeZone.active (State.safeZone S).
Proof.
  intros H. rewrite safeZone_frame. apply stepSafeZone_not_consumed. exact H.
Qed.

(** While the zone is active the flag records the test of the frame. *)
Lemma frame_playerWasInside S f :
  SafeZone.active (State.safeZone S) = true ->
  (SafeZone.playerWasInside (State.safeZone (frame S f)) = true <->
   strictlyInside (State.safeZone S) (Frame.player f)).
Proof.
  intros Ha. rewrite safeZone_frame.
  destruct (consumesUse_dec (State.safeZone S) (Frame.player f)) as [Hc | Hc].
  - rewrite stepSafeZone_enter by exact Hc. simpl. destruct Hc as (_ & Hi & _). tauto.
  - rewrite stepSafeZone_no_entry; [simpl; apply insideSafeZone_true | exact Ha |].
    intros (Hi & Hw). apply Hc. repeat split; assumption.
Qed.



(** C10.  A frame consumes a use of the safe zone (one more use, the radius
    times 0.8) exactly when the zone is active, the player's circle is
    strictly inside it (distance to the centre < radius - player radius) and
    the flag [playerWasInside] left by the previous frame is false.  Any other
    frame, with the player overlapping or touching the boundary for instance,
    leaves uses and radius as they are; and a frame with the player inside
    sets the flag, so the frame after it consumes nothing. *)
Theorem safe_zone_use_edge (S : State.t) (f : Frame.t) :
  let sz := State.safeZone S in
  let sz' := State.safeZone (frame S f) in
  (consumesUse sz (Frame.player f) ->
   SafeZone.uses sz' = Datatypes.S (SafeZone.uses sz) /\
   SafeZone.radius sz' = SafeZone.radius sz * 0.8) /\
  (~ consumesUse sz (Frame.player f) ->
   SafeZone.uses sz' = SafeZone.uses sz /\ SafeZone.radius sz' = SafeZone.radius sz) /\
  (SafeZone.active sz = true ->
   (SafeZone.playerWasInside sz' = true <-> strictlyInside sz (Frame.player f))) /\
  (strictlyInside sz (Frame.player f) ->
   forall f', SafeZone.uses (State.safeZone (frame (frame S f) f')) = SafeZone.uses sz' /\
              SafeZone.radius (State.safeZone (frame (frame S f) f')) = SafeZone.radius sz').
Proof.
  intros sz sz'. repeat split.
  - apply frame_enter; assumption.
  - apply frame_enter; assumption.
  - apply frame_no_entry; assumption.
  - apply frame_no_entry; assumption.
  - apply frame_playerWasInside; assumption.
  - apply frame_playerWasInside; assumption.
  - apply frame_no_entry. intros (Ha & _ & Hw). subst sz sz'.
    destruct (SafeZone.active (State.safeZone S)) eqn:Hs.
    + apply (frame_playerWasInside S f Hs) in H. congruence.
    + rewrite safeZone_frame, stepSafeZone_inactive in Ha by exact Hs. congruence.
  - apply frame_no_entry. intros (Ha & _ & Hw). subst sz sz'.
    destruct (SafeZone.active (State.safeZone S)) eqn:Hs.
    + apply (frame_playerWasInside S f Hs) in H. congruence.
    + rewrite safeZone_frame, stepSafeZone_inactive in Ha by exact Hs. congruence.
Qed.

Lemma safe_zone_use_edge_witness :
  let S := initState 1 oracle0 in
  let f := frameAt 1000 1000 in
  consumesUse (State.safeZone S) (Frame.player f) /\
  SafeZone.uses (State.safeZone (frame S f)) = 1%nat /\
  SafeZone.radius (State.safeZone (frame S f)) = 120 * 0.8 /\
  SafeZone.uses (State.safeZone (frame (frame S f) f)) = 1%nat.
Proof.
  intros S f.
  assert (Hz : State.safeZone S = SafeZone.mk CENTER_X CENTER_Y 120 0 3 true false)
    by apply initState_header.
  assert (Hc : consumesUse (State.safeZone S) (Frame.player f)).
  { rewrite Hz. split; [reflexivity | split; [| reflexivity]].
    unfold strictlyInside, CENTER_X, CENTER_Y, f, frameAt, playerAt.
    cbn [Frame.player Player.x Player.y Player.radius SafeZone.x SafeZone.y SafeZone.radius].
    replace (1000 - 1000) with 0 by lra. rewrite hypot_0. lra. }
  destruct (safe_zone_use_edge S f) as (H1 & _ & _ & H4).
  destruct (H1 Hc) as [Hu Hr]. rewrite Hz in Hu, Hr.
  cbn [SafeZone.uses SafeZone.radius] in Hu, Hr.
  destruct (H4 (proj1 (proj2 Hc)) f) as [Hu' _].
  split; [exact Hc | split; [exact Hu | split; [exact Hr |]]].
  rewrite Hu'. exact Hu.
Defined.

(** ** The freeze gate *)

Lemma pausedZones_refl S : pausedZones S S.
Proof.
  unfold pausedZones. destruct S as [? ? ? ? ? ? ? ? v g c r].
  destruct v, c, r. simpl. auto.
Qed.

Lemma pausedZones_trans S1 S2 S3 :
  pausedZones S1 S2 -> pausedZones S2 S3 -> pausedZones S1 S3.
Proof.
  unfold pausedZones. intros (V1 & G1 & C1 & R1) (V2 & G2 & C2 & R2).
  rewrite V1 in V2. rewrite C1 in C2. rewrite R1 in R2. simpl in V2, C2, R2.
  rewrite G1 in G2. auto.
Qed.

(** A frame that leaves [playerMoved] false runs no zone simulator. *)
Lemma frame_paused S f :
  State.playerMoved (frame S f) = false -> pausedZones S (frame S f).
Proof.
  intros H. rewrite playerMoved_frame in H.
  apply orb_false_iff in H. destruct H as [Hm Hd].
  unfold frame, update, enterFrame, _updateSafeZone, detectMovement.
  destruct S as [lv sm tm pm px py pc sz v g c r].
  cbn [State.playerMoved] in Hm. subst pm.
  unfold playerDisplaced in *. cbn [State.prevPX State.prevPY State.playerMoved negb] in *.
  rewrite Hd. cbn.
  unfold pausedZones. cbn. destruct v, c, r. cbn. auto.
Qed.

Lemma playerMoved_stays S f :
  State.playerMoved S = true -> State.playerMoved (frame S f) = true.
Proof. intros H. rewrite playerMoved_frame, H. reflexivity. Qed.

Lemma run_paused frames : forall S,
  State.playerMoved (run S frames) = false -> pausedZones S (run S frames).
Proof.
  induction frames as [| f frames IH]; intros S H.
  - apply pausedZones_refl.
  - change (run S (f :: frames)) with (run (frame S f) frames) in *.
    assert (Hf : State.playerMoved (frame S f) = false).
    { destruct (State.playerMoved (frame S f)) eqn:E; [| reflexivity].
      assert (State.playerMoved (run (frame S f) frames) = true).
      { clear H IH. revert E. generalize (frame S f). induction frames as [| g gs IHg];
          intros T E; [exact E |].
        change (run T (g :: gs)) with (run (frame T g) gs).
        apply IHg, playerMoved_stays, E. }
      congruence. }
    eapply pausedZones_trans; [apply frame_paused; exact Hf | apply IH; exact H].
Qed.

Lemma initState_zones level o :
  exists S1 k1 S3 k3,
    _initVolcanic (resetState level) o 0%nat = (S1, k1) /\
    _initCanopy (_initGlacial S1) o k1 = (S3, k3) /\
    State.volcanic (initState level o) = State.volcanic S1 /\
    State.glacial (initState level o) = State.glacial (_initGlacial S1) /\
    State.canopy (initState level o) = State.canopy S3 /\
    initState level o = fst (_initReef S3 o k3).
Proof.
  unfold initState, init, bind.
  destruct (_initVolcanic (resetState level) o 0%nat) as [S1 k1] eqn:E1.
  pose proof (initCanopy_only (_initGlacial S1) o k1) as H3.
  destruct (_initCanopy (_initGlacial S1) o k1) as [S3 k3] eqn:E3. simpl in H3.
  pose proof (initReef_only S3 o k3) as H4.
  exists S1, k1, S3, k3. unfold onlyReef, onlyCanopy in *. cbv beta iota.
  split; [reflexivity |]. split; [exact E3 |]. split; [| split; [| split]].
  - rewrite H4. cbn [State.volcanic State.setReef]. rewrite H3. reflexivity.
  - rewrite H4. cbn [State.glacial State.setReef]. rewrite H3. reflexivity.
  - rewrite H4. reflexivity.
  - reflexivity.
Qed.

Lemma initState_volcanic level o :
  State.volcanic (initState level o) =
  Volcanic.mk
    [makeMagmawyrm (resetState level) (50 + 900 / 2) (50 + 900 / 2) None None] []
    (map (fun ip : nat * (R * R) =>
            Geyser.mk (50 + fst (snd ip)) (50 + snd (snd ip)) 28
              (Oracle.draw o (fst ip) * 5) false 1.5)
         (combine (seq 0 5) geyserGrid))
    0 0 (VolcanicEgg.mk 250 250 false).
Proof.
  destruct (initState_zones level o) as (S1 & k1 & S3 & k3 & E1 & _ & H & _).
  rewrite H. clear H.
  unfold _initVolcanic, bind, ret, random, geyserGrid in E1. cbn in E1.
  inversion E1. reflexivity.
Qed.

Lemma initState_glacial_enemies level o :
  Glacial.enemies (State.glacial (initState level o)) =
  [makeFrostwyrm (resetState level) (1050 + 900 / 2) (50 + 900 / 2)].
Proof.
  destruct (initState_zones level o) as (S1 & k1 & S3 & k3 & E1 & _ & _ & H & _).
  rewrite H. clear H.
  pose proof (initVolcanic_only (resetState level) o 0%nat) as H1. rewrite E1 in H1.
  simpl in H1. rewrite H1. reflexivity.
Qed.

Lemma playerDisplaced_initState level o p :
  playerDisplaced p (initState level o) = false.
Proof.
  unfold playerDisplaced.
  destruct (initState_header level o) as (_ & _ & H & _). rewrite H. reflexivity.
Qed.

Lemma playerMoved_first_frame level o f :
  State.playerMoved (frame (initState level o) f) = false.
Proof.
  rewrite playerMoved_frame, playerDisplaced_initState.
  destruct (initState_header level o) as (_ & H & _). rewrite H. reflexivity.
Qed.

(** C4, as the code has it.  Over every sequence of frames that leaves
    [playerMoved] false, no enemy of any zone changes (its position
    included), and the zone simulators do not run at all: geysers (their
    timers included), lava trails, the other hazards, timers and eggs are
    what they were; only the visual phases differ. *)
Theorem freeze_gate (S : State.t) (frames : list Frame.t) :
  State.playerMoved (run S frames) = false ->
  let S' := run S frames in
  Volcanic.enemies (State.volcanic S') = Volcanic.enemies (State.volcanic S) /\
  Glacial.enemies (State.glacial S') = Glacial.enemies (State.glacial S) /\
  Canopy.enemies (State.canopy S') = Canopy.enemies (State.canopy S) /\
  Reef.enemies (State.reef S') = Reef.enemies (State.reef S) /\
  Volcanic.geysers (State.volcanic S') = Volcanic.geysers (State.volcanic S) /\
  Volcanic.lavaTrails (State.volcanic S') = Volcanic.lavaTrails (State.volcanic S) /\
  pausedZones S S'.
Proof.
  intros H S'. pose proof (run_paused frames S H) as P. fold S' in P.
  pose proof P as (V & G & C & R).
  rewrite V, G, C, R. cbn. repeat split; try reflexivity; apply P.
Qed.

Lemma freeze_gate_witness :
  State.playerMoved (run (initState 1 oracle0) [frameAt 1000 1000]) = false /\
  Volcanic.enemies (State.volcanic (run (initState 1 oracle0) [frameAt 1000 1000])) =
    Volcanic.enemies (State.volcanic (initState 1 oracle0)) /\
  Volcanic.geysers (State.volcanic (run (initState 1 oracle0) [frameAt 1000 1000])) =
    Volcanic.geysers (State.volcanic (initState 1 oracle0)).
Proof.
  assert (H : State.playerMoved (run (initState 1 oracle0) [frameAt 1000 1000]) = false).
  { rewrite run_one. apply playerMoved_first_frame. }
  destruct (freeze_gate (initState 1 oracle0) [frameAt 1000 1000] H)
    as (A & _ & _ & _ & B & _).
  split; [exact H | split; [exact A | exact B]].
Defined.

(** Paused geysers do not tick. *)
Lemma paused_geysers_not_ticked S f g gs :
  State.playerMoved (frame S f) = false ->
  Volcanic.geysers (State.volcanic S) = g :: gs ->
  0 < Frame.dt f ->
  map Geyser.timer (Volcanic.geysers (State.volcanic (frame S f))) <>
  map (fun g => Geyser.timer g + Frame.dt f) (Volcanic.geysers (State.volcanic S)).
Proof.
  intros H G D.
  destruct (frame_paused _ _ H) as (V & _). rewrite V.
  destruct (State.volcanic S) as [en lt ge st vp eg]. cbn in G |- *. subst ge.
  cbn. intros E. injection E as E _. lra.
Qed.

(** C4, as the specification words it, fails: on the first frame after
    [init(1)] the flag stays false, and the geyser timers have not advanced
    by [dt]. *)
Lemma geyser_timers_paused_cex :
  State.playerMoved (frame (initState 1 oracle0) (frameAt 1000 1000)) = false /\
  map Geyser.timer
    (Volcanic.geysers (State.volcanic (frame (initState 1 oracle0) (frameAt 1000 1000)))) <>
  map (fun g => Geyser.timer g + Frame.dt (frameAt 1000 1000))
    (Volcanic.geysers (State.volcanic (initState 1 oracle0))).
Proof.
  split; [apply playerMoved_first_frame |].
  eapply paused_geysers_not_ticked.
  - apply playerMoved_first_frame.
  - rewrite initState_volcanic. unfold geyserGrid. cbn [Volcanic.geysers combine seq map].
    reflexivity.
  - cbn [frameAt Frame.dt]. lra.
Qed.

(** ** The split of the Volcanic zone *)



Lemma aliveCount_app {V : Type} (l1 l2 : list (Enemy.t V)) :
  _aliveCount (l1 ++ l2) = (_aliveCount l1 + _aliveCount l2)%nat.
Proof. unfold _aliveCount. rewrite filter_app, length_app. reflexivity. Qed.

Lemma aliveCount_cons {V : Type} (e : Enemy.t V) (l : list (Enemy.t V)) :
  _aliveCount (e :: l) = ((if Enemy.alive e then 1 else 0) + _aliveCount l)%nat.
Proof. unfold _aliveCount. simpl. destruct (Enemy.alive e); reflexivity. Qed.

Lemma chasePlayer_fields {V : Type} (e : Enemy.t V) p dt :
  Enemy.alive (_chasePlayer e p dt) = Enemy.alive e /\
  Enemy.frozen (_chasePlayer e p dt) = Enemy.frozen e /\
  Enemy.radius (_chasePlayer e p dt) = Enemy.radius e /\
  Enemy.speed (_chasePlayer e p dt) = Enemy.speed e /\
  Enemy.activeEffects (_chasePlayer e p dt) = Enemy.activeEffects e /\
  Enemy.ext (_chasePlayer e p dt) = Enemy.ext e.
Proof.
  unfold _chasePlayer. destruct (Enemy.frozen e) eqn:F; [rewrite F; auto 10 |].
  destruct (existsb blocksMovement (Enemy.activeEffects e)); simpl; auto 10.
Qed.

Lemma spawnChild_spec S e o k :
  0.4 < Magma.sizeMult (Enemy.ext e) ->
  splitChild S e (fst (spawnChild S e o k)).
Proof.
  intros Hs. unfold spawnChild, bind, random, ret, makeMagmawyrm, defaultOne, splitChild.
  cbn.
  assert (E1 : orOne (Magma.sizeMult (Enemy.ext e) * 0.6) = Magma.sizeMult (Enemy.ext e) * 0.6).
  { unfold orOne. destruct (_ =? 0) eqn:E; [reflectR; lra | reflexivity]. }
  assert (E2 : orOne 1.3 = 1.3).
  { unfold orOne. destruct (_ =? 0) eqn:E; [reflectR; lra | reflexivity]. }
  rewrite E1, E2. repeat split; reflexivity.
Qed.

(** The enemy [forEach] of [_updateVolcanic] passes dead and frozen enemies
    by. *)
Lemma magmaStep_skips S dt p a done rest trails e o k :
  Enemy.alive e = false \/ Enemy.frozen e = true ->
  fst (magmaStep S dt p a done rest trails e o k) = (e, trails, []).
Proof.
  intros H. unfold magmaStep.
  destruct H as [H | H]; rewrite H; simpl; [reflexivity |].
  rewrite orb_true_r. reflexivity.
Qed.

(** What the body of the enemy loop does to an alive, unfrozen enemy. *)
Lemma magmaStep_cases (S : State.t) (dt : R) (player : Player.t) (abilityJustUsed : bool)
    (done rest : list Magmawyrm) (trails : list LavaTrail.t) (e : Magmawyrm)
    (o : Oracle.t) (k : nat) :
  Enemy.alive e = true -> Enemy.frozen e = false ->
  let moved := _chasePlayer e player dt in
  let d := hypot (Player.x player - Enemy.x moved) (Player.y player - Enemy.y moved) in
  let e' := fst (fst (fst (magmaStep S dt player abilityJustUsed done rest trails e o k))) in
  let kids := snd (fst (magmaStep S dt player abilityJustUsed done rest trails e o k)) in
  let others := (_aliveCount done + _aliveCount rest)%nat in
  (abilityJustUsed = true /\ d <= 200 /\ 0.4 < Magma.sizeMult (Enemy.ext e) ->
   Enemy.alive e' = false /\
   _aliveCount (done ++ e' :: rest) = others /\
   ((others + 2 <= MAX_PER_ZONE)%nat ->
    exists c1 c2, kids = [c1; c2] /\ splitChild S e c1 /\ splitChild S e c2) /\
   (~ (others + 2 <= MAX_PER_ZONE)%nat -> kids = [])) /\
  (~ (abilityJustUsed = true /\ d <= 200 /\ 0.4 < Magma.sizeMult (Enemy.ext e)) ->
   Enemy.alive e' = true /\ kids = []).
Proof.
  intros Ha Hf moved d e' kids others.
  destruct (chasePlayer_fields e player dt) as (Ca & Cf & Cr & Cs & Ce & Cx).
  fold moved in Ca, Cf, Cr, Cs, Ce, Cx.
  assert (Hsplit : forall t, splits player (setTrailTimer moved t) = true <->
                             d <= 200 /\ 0.4 < Magma.sizeMult (Enemy.ext e)).
  { intros t. unfold splits, setTrailTimer. cbn. fold d. rewrite Cx.
    rewrite andb_true_iff, Rleb_true, Rltb_true. tauto. }
  assert (Hstep : exists t tr,
            let m := setTrailTimer moved t in
            magmaStep S dt player abilityJustUsed done rest trails e o k =
            (if abilityJustUsed && splits player m then
               let m' := Enemy.setAlive m false in
               if (_aliveCount (done ++ m' :: rest) + 2 <=? MAX_PER_ZONE)%nat then
                 (c1 <- spawnChild S m' ;; c2 <- spawnChild S m' ;; ret (m', tr, [c1; c2]))
               else ret (m', tr, [])
             else ret (m, tr, [])) o k).
  { unfold magmaStep. rewrite Ha, Hf. cbn [negb orb]. fold moved.
    destruct (_ >=? 0.3); eexists; eexists; reflexivity. }
  destruct Hstep as (t & tr & Hstep). cbv zeta in Hstep.
  unfold e', kids. rewrite Hstep. clear Hstep e' kids.
  specialize (Hsplit t).
  assert (Hcount : _aliveCount (done ++ Enemy.setAlive (setTrailTimer moved t) false :: rest)
                   = others).
  { unfold others, _aliveCount. rewrite filter_app, length_app. reflexivity. }
  split.
  - intros (H1 & H2 & H3). subst abilityJustUsed.
    rewrite (proj2 Hsplit (conj H2 H3)). cbn [andb]. rewrite Hcount.
    destruct (others + 2 <=? MAX_PER_ZONE)%nat eqn:E.
    + apply Nat.leb_le in E. unfold bind.
      assert (H3' : 0.4 < Magma.sizeMult
                      (Enemy.ext (Enemy.setAlive (setTrailTimer moved t) false))).
      { cbn. rewrite Cx. exact H3. }
      pose proof (spawnChild_spec S _ o k H3') as K1.
      destruct (spawnChild S _ o k) as [c1 k1].
      pose proof (spawnChild_spec S _ o k1 H3') as K2.
      destruct (spawnChild S _ o k1) as [c2 k2].
      unfold splitChild in K1, K2. cbn in K1, K2 |- *. rewrite Cx in K1, K2.
      split; [reflexivity |]. split; [exact Hcount |]. split.
      * intros _. exists c1, c2. unfold splitChild.
        split; [reflexivity |]. split; [exact K1 | exact K2].
      * intros N. contradiction.
    + apply Nat.leb_gt in E. cbn.
      split; [reflexivity |]. split; [exact Hcount |]. split.
      * intros N. lia.
      * intros _. reflexivity.
  - intros N.
    destruct (abilityJustUsed && splits player (setTrailTimer moved t)) eqn:E.
    + apply andb_true_iff in E. destruct E as [E1 E2]. exfalso. apply N.
      split; [exact E1 | apply Hsplit; exact E2].
    + cbn. rewrite Ca, Ha. auto.
Qed.



(** ** The eggs *)

Lemma floorIdx_lt (r : R) (n : nat) :
  0 <= r < 1 -> (0 < n)%nat -> (floorIdx (r * INR n) < n)%nat.
Proof.
  intros [H0 H1] Hn. unfold floorIdx.
  assert (Hp : 0 < INR n) by (apply lt_0_INR; exact Hn).
  destruct (base_Int_part (r * INR n)) as [Hl Hu].
  assert (Hx : 0 <= r * INR n < INR n) by (split; nra).
  assert (Z1 : (Int_part (r * INR n) < Z.of_nat n)%Z).
  { apply lt_IZR. rewrite <- INR_IZR_INZ. lra. }
  assert (Z0 : (-1 < Int_part (r * INR n))%Z).
  { apply lt_IZR. lra. }
  lia.
Qed.

Lemma updateVolcanic_egg dt p a S o k :
  Volcanic.egg (State.volcanic (fst (fst (_updateVolcanic dt p a S o k)))) =
  Volcanic.egg (State.volcanic S).
Proof.
  unfold _updateVolcanic.
  repeat match goal with
  | |- context [let '(_, _) := ?m in _] => destruct m
  end.
  stepR. destruct p0 as [[? ?] ?]. reflexivity.
Qed.

Lemma updateGlacial_egg dt p S o k :
  GlacialEgg.collected (Glacial.egg (State.glacial S)) = true ->
  Glacial.egg (State.glacial (fst (fst (_updateGlacial dt p S o k)))) =
  Glacial.egg (State.glacial S).
Proof.
  intros H. unfold _updateGlacial. stepR. destruct p0.
  repeat match goal with
  | |- context [let '(_, _) := ?m in _] => destruct m
  end.
  cbn. unfold glacialEggStep. rewrite H. reflexivity.
Qed.

Lemma spawnThornwyrm_egg S o k :
  Canopy.egg (State.canopy (fst (_spawnThornwyrm S o k))) = Canopy.egg (State.canopy S).
Proof.
  unfold _spawnThornwyrm. destruct (MAX_PER_ZONE <=? _)%nat; reflexivity.
Qed.

Lemma addCanopyObstacles_egg n S o k :
  Canopy.egg (State.canopy (fst (_addCanopyObstacles n S o k))) =
  Canopy.egg (State.canopy S).
Proof.
  unfold _addCanopyObstacles.
  apply (repeatR_inv (fun T => Canopy.egg (State.canopy T) = Canopy.egg (State.canopy S)));
    [| reflexivity].
  intros a o' k' Ha. cbn. exact Ha.
Qed.

Lemma canopyMultiply_egg dt p S o k :
  Canopy.egg (State.canopy (fst (canopyMultiply dt p S o k))) = Canopy.egg (State.canopy S).
Proof.
  unfold canopyMultiply. destruct (negb _ && _); [| reflexivity].
  rewrite spawnThornwyrm_egg. reflexivity.
Qed.

Lemma canopyTeleport_egg dt S :
  Canopy.egg (State.canopy (canopyTeleport dt S)) = Canopy.egg (State.canopy S).
Proof. unfold canopyTeleport. destruct (_ >=? 5); reflexivity. Qed.

Lemma canopyEscalate_egg dt S o k :
  hostAssigned S ->
  Canopy.egg (State.canopy (fst (canopyEscalate dt S o k))) = Canopy.egg (State.canopy S).
Proof.
  intros Hh. unfold canopyEscalate. destruct (_ >=? 5); [| reflexivity].
  unfold bind.
  match goal with |- context [_addCanopyObstacles ?n ?S0 o k] =>
    pose proof (addCanopyObstacles_egg n S0 o k) as H;
    destruct (_addCanopyObstacles n S0 o k) as [S1 k1] end.
  cbn in H. rewrite H.
  unfold hostAssigned in Hh. destruct (CanopyEgg._host _); [exact H | contradiction].
Qed.

Lemma canopyJolt_egg dt S o k :
  Canopy.egg (State.canopy (fst (canopyJolt dt S o k))) = Canopy.egg (State.canopy S).
Proof.
  unfold canopyJolt, bind, random. destruct (_ <? _); [| reflexivity].
  destruct (mapR _ _ _ _). reflexivity.
Qed.

Lemma canopyEnemies_egg dt p S :
  CanopyEgg.collected (Canopy.egg (State.canopy S)) = true ->
  Canopy.egg (State.canopy (canopyEnemies dt p S)) = Canopy.egg (State.canopy S).
Proof.
  intros H. unfold canopyEnemies, canopyEggStep. cbn. rewrite H. reflexivity.
Qed.

Lemma updateCanopy_egg dt p S o k :
  hostAssigned S ->
  CanopyEgg.collected (Canopy.egg (State.canopy S)) = true ->
  Canopy.egg (State.canopy (fst (fst (_updateCanopy dt p S o k)))) =
  Canopy.egg (State.canopy S).
Proof.
  intros Hh Hc. unfold _updateCanopy, bind.
  pose proof (canopyMultiply_egg dt p S o k) as H1.
  destruct (canopyMultiply dt p S o k) as [S1 k1]. cbn in H1.
  pose proof (canopyTeleport_egg dt S1) as H2.
  assert (Hh2 : hostAssigned (canopyTeleport dt S1)).
  { unfold hostAssigned. rewrite H2, H1. exact Hh. }
  pose proof (canopyEscalate_egg dt (canopyTeleport dt S1) o k1 Hh2) as H3.
  destruct (canopyEscalate dt (canopyTeleport dt S1) o k1) as [S2 k2]. cbn in H3.
  pose proof (canopyJolt_egg dt S2 o k2) as H4.
  destruct (canopyJolt dt S2 o k2) as [S3 k3]. cbn in H4.
  unfold ret. cbn [fst State.canopy State.setCanopy setCanopyEnemies Canopy.egg].
  rewrite canopyEnemies_egg; congruence.
Qed.

Lemma reefMultiply_egg dt S o k :
  Reef.egg (State.reef (fst (reefMultiply dt S o k))) = Reef.egg (State.reef S).
Proof.
  unfold reefMultiply. destruct (_ >=? 10); [| reflexivity].
  destruct (_ <? _)%nat; reflexivity.
Qed.

Lemma reefSchool_egg dt S :
  Reef.egg (State.reef (reefSchool dt S)) = Reef.egg (State.reef S).
Proof. unfold reefSchool. destruct (_ >=? 5); reflexivity. Qed.

Lemma updateReef_egg dt p S o k :
  ReefEgg.collected (Reef.egg (State.reef S)) = true ->
  Reef.egg (State.reef (fst (fst (_updateReef dt p S o k)))) = Reef.egg (State.reef S).
Proof.
  intros Hc. unfold _updateReef, bind.
  pose proof (reefMultiply_egg dt S o k) as H1.
  destruct (reefMultiply dt S o k) as [S1 k1]. cbn in H1.
  destruct (fold_left _ _ _) as [[obs p'] es].
  unfold ret. cbn [fst State.reef State.setReef setReefEgg Reef.egg].
  rewrite reefSchool_egg, H1. unfold reefEggStep. rewrite Hc. reflexivity.
Qed.

Lemma onlyVolcanic_others S S' :
  onlyVolcanic S S' ->
  State.glacial S' = State.glacial S /\ State.canopy S' = State.canopy S /\
  State.reef S' = State.reef S.
Proof. intros H. rewrite H. repeat split. Qed.

Lemma onlyGlacial_others S S' :
  onlyGlacial S S' ->
  State.volcanic S' = State.volcanic S /\ State.canopy S' = State.canopy S /\
  State.reef S' = State.reef S.
Proof. intros H. rewrite H. repeat split. Qed.

Lemma onlyCanopy_others S S' :
  onlyCanopy S S' ->
  State.volcanic S' = State.volcanic S /\ State.glacial S' = State.glacial S /\
  State.reef S' = State.reef S.
Proof. intros H. rewrite H. repeat split. Qed.

Lemma onlyReef_others S S' :
  onlyReef S S' ->
  State.volcanic S' = State.volcanic S /\ State.glacial S' = State.glacial S /\
  State.canopy S' = State.canopy S.
Proof. intros H. rewrite H. repeat split. Qed.

(** The zones after [updateZones], each in terms of its own simulator. *)
Lemma updateZones_split dt p a S o k :
  exists p1 p2 p3 k1 k2 k3 S1 S2 S3,
    S1 = fst (fst (_updateVolcanic dt p a S o k)) /\
    State.volcanic (fst (fst (updateZones dt p a S o k))) = State.volcanic S1 /\
    S2 = fst (fst (_updateGlacial dt p1 S1 o k1)) /\
    State.glacial S1 = State.glacial S /\
    State.glacial (fst (fst (updateZones dt p a S o k))) = State.glacial S2 /\
    S3 = fst (fst (_updateCanopy dt p2 S2 o k2)) /\
    State.canopy S2 = State.canopy S /\
    State.canopy (fst (fst (updateZones dt p a S o k))) = State.canopy S3 /\
    State.reef S3 = State.reef S /\
    State.reef (fst (fst (updateZones dt p a S o k))) =
      State.reef (fst (fst (_updateReef dt p3 S3 o k3))) /\
    State.safeZone S1 = State.safeZone S /\ State.safeZone S2 = State.safeZone S /\
    State.safeZone S3 = State.safeZone S /\
    State.playerMoved S2 = State.playerMoved S /\
    State.playerMoved S3 = State.playerMoved S /\
    State.speedMult S3 = State.speedMult S.
Proof.
  unfold updateZones, bind.
  pose proof (updateVolcanic_only dt p a S o k) as H1.
  destruct (_updateVolcanic dt p a S o k) as [[S1 p1] k1]. simpl in H1.
  pose proof (updateGlacial_only dt p1 S1 o k1) as H2.
  destruct (_updateGlacial dt p1 S1 o k1) as [[S2 p2] k2] eqn:E2. simpl in H2.
  pose proof (updateCanopy_only dt p2 S2 o k2) as H3.
  destruct (_updateCanopy dt p2 S2 o k2) as [[S3 p3] k3] eqn:E3. simpl in H3.
  pose proof (updateReef_only dt p3 S3 o k3) as H4.
  exists p1, p2, p3, k1, k2, k3, S1, S2, S3.
  rewrite E2, E3.
  destruct (_updateReef dt p3 S3 o k3) as [[S4 p4] k4]. simpl in *.
  destruct (onlyVolcanic_others _ _ H1) as (A1 & B1 & C1).
  destruct (onlyGlacial_others _ _ H2) as (A2 & B2 & C2).
  destruct (onlyCanopy_others _ _ H3) as (A3 & B3 & C3).
  destruct (onlyReef_others _ _ H4) as (A4 & B4 & C4).
  destruct (onlyVolcanic_header _ _ H1) as (Z1 & M1 & _ & _ & _ & V1).
  destruct (onlyGlacial_header _ _ H2) as (Z2 & M2 & _ & _ & _ & V2).
  destruct (onlyCanopy_header _ _ H3) as (Z3 & M3 & _ & _ & _ & V3).
  repeat split; congruence.
Qed.

Lemma unfreezeAll_eggs S :
  Volcanic.egg (State.volcanic (_unfreezeAll S)) = Volcanic.egg (State.volcanic S) /\
  Glacial.egg (State.glacial (_unfreezeAll S)) = Glacial.egg (State.glacial S) /\
  Canopy.egg (State.canopy (_unfreezeAll S)) = Canopy.egg (State.canopy S) /\
  Reef.egg (State.reef (_unfreezeAll S)) = Reef.egg (State.reef S).
Proof. repeat split. Qed.

Lemma enterFrame_eggs dt p S :
  Volcanic.egg (State.volcanic (fst (enterFrame dt p S))) = Volcanic.egg (State.volcanic S) /\
  Glacial.egg (State.glacial (fst (enterFrame dt p S))) = Glacial.egg (State.glacial S) /\
  Canopy.egg (State.canopy (fst (enterFrame dt p S))) = Canopy.egg (State.canopy S) /\
  Reef.egg (State.reef (fst (enterFrame dt p S))) = Reef.egg (State.reef S).
Proof.
  unfold enterFrame, _updateSafeZone, detectMovement.
  cbn [fst State.playerMoved].
  destruct (negb (State.playerMoved S)); [| repeat split].
  destruct (playerDisplaced _ _); repeat split.
Qed.

(** The frame, in terms of [enterFrame] and [updateZones]. *)
Lemma frame_unfold S f :
  let S1 := fst (enterFrame (Frame.dt f) (Frame.player f) S) in
  let a := snd (enterFrame (Frame.dt f) (Frame.player f) S) in
  frame S f =
  advanceVisualPhases (Frame.dt f)
    (if State.playerMoved S1
     then fst (fst (updateZones (Frame.dt f) (Frame.player f) a S1 (Frame.oracle f) 0%nat))
     else S1).
Proof.
  intros S1 a. unfold frame, update. subst S1 a.
  destruct (enterFrame _ _ S) as [S1 a]. unfold bind. cbn [fst snd].
  destruct (State.playerMoved S1).
  - destruct (updateZones _ _ _ _ _ _) as [[S2 p2] k2]. reflexivity.
  - reflexivity.
Qed.

Lemma advanceVisualPhases_eggs dt S :
  Volcanic.egg (State.volcanic (advanceVisualPhases dt S)) = Volcanic.egg (State.volcanic S) /\
  State.glacial (advanceVisualPhases dt S) = State.glacial S /\
  Canopy.egg (State.canopy (advanceVisualPhases dt S)) = Canopy.egg (State.canopy S) /\
  Reef.egg (State.reef (advanceVisualPhases dt S)) = Reef.egg (State.reef S).
Proof. repeat split. Qed.

Lemma updateZones_eggs dt p a S o k :
  hostAssigned S ->
  let S' := fst (fst (updateZones dt p a S o k)) in
  Volcanic.egg (State.volcanic S') = Volcanic.egg (State.volcanic S) /\
  (GlacialEgg.collected (Glacial.egg (State.glacial S)) = true ->
   Glacial.egg (State.glacial S') = Glacial.egg (State.glacial S)) /\
  (CanopyEgg.collected (Canopy.egg (State.canopy S)) = true ->
   Canopy.egg (State.canopy S') = Canopy.egg (State.canopy S)) /\
  (ReefEgg.collected (Reef.egg (State.reef S)) = true ->
   Reef.egg (State.reef S') = Reef.egg (State.reef S)).
Proof.
  intros Hh S'. subst S'.
  destruct (updateZones_split dt p a S o k)
    as (p1 & p2 & p3 & k1 & k2 & k3 & S1 & S2 & S3 &
        E1 & V & E2 & G1 & G & E3 & C2 & C & R3 & R & _).
  rewrite V, G, C, R. split; [| split; [| split]].
  - rewrite E1. apply updateVolcanic_egg.
  - intros H. rewrite E2, updateGlacial_egg; rewrite G1; [reflexivity | exact H].
  - intros H. rewrite E3, updateCanopy_egg; rewrite ?C2; try reflexivity; try exact H.
    unfold hostAssigned. rewrite C2. exact Hh.
  - intros H. rewrite updateReef_egg; rewrite R3; [reflexivity | exact H].
Qed.

Lemma frame_eggs S f :
  hostAssigned S ->
  (VolcanicEgg.collected (Volcanic.egg (State.volcanic S)) = true ->
   Volcanic.egg (State.volcanic (frame S f)) = Volcanic.egg (State.volcanic S)) /\
  (GlacialEgg.collected (Glacial.egg (State.glacial S)) = true ->
   Glacial.egg (State.glacial (frame S f)) = Glacial.egg (State.glacial S)) /\
  (CanopyEgg.collected (Canopy.egg (State.canopy S)) = true ->
   Canopy.egg (State.canopy (frame S f)) = Canopy.egg (State.canopy S)) /\
  (ReefEgg.collected (Reef.egg (State.reef S)) = true ->
   Reef.egg (State.reef (frame S f)) = Reef.egg (State.reef S)).
Proof.
  intros Hh. rewrite frame_unfold. cbv zeta.
  destruct (enterFrame_eggs (Frame.dt f) (Frame.player f) S) as (EV & EG & EC & ER).
  set (S1 := fst (enterFrame (Frame.dt f) (Frame.player f) S)) in *.
  set (a := snd (enterFrame (Frame.dt f) (Frame.player f) S)).
  assert (Hh1 : hostAssigned S1) by (unfold hostAssigned; rewrite EC; exact Hh).
  destruct (advanceVisualPhases_eggs (Frame.dt f)
              (if State.playerMoved S1
               then fst (fst (updateZones (Frame.dt f) (Frame.player f) a S1
                                 (Frame.oracle f) 0%nat))
               else S1)) as (AV & AG & AC & AR).
  rewrite AV, AG, AC, AR.
  destruct (State.playerMoved S1).
  - destruct (updateZones_eggs (Frame.dt f) (Frame.player f) a S1 (Frame.oracle f) 0%nat Hh1)
      as (ZV & ZG & ZC & ZR).
    rewrite <- EV, <- EG, <- EC, <- ER. auto.
  - rewrite EV, EG, EC, ER. auto.
Qed.

Lemma canopyEggStep_host p obs egg :
  CanopyEgg._host (canopyEggStep p obs egg) = CanopyEgg._host egg.
Proof.
  unfold canopyEggStep. destruct (negb _); [| reflexivity].
  destruct (CanopyEgg._host egg) as [i |] eqn:E; [| exact E].
  destruct (nth_error obs i); [reflexivity | exact E].
Qed.

Lemma updateCanopy_host dt p S o k :
  hostAssigned S -> hostAssigned (fst (fst (_updateCanopy dt p S o k))).
Proof.
  intros Hh. unfold hostAssigned in *. unfold _updateCanopy, bind.
  pose proof (canopyMultiply_egg dt p S o k) as H1.
  destruct (canopyMultiply dt p S o k) as [S1 k1]. cbn in H1.
  pose proof (canopyTeleport_egg dt S1) as H2.
  assert (Hh2 : hostAssigned (canopyTeleport dt S1)).
  { unfold hostAssigned. rewrite H2, H1. exact Hh. }
  pose proof (canopyEscalate_egg dt (canopyTeleport dt S1) o k1 Hh2) as H3.
  destruct (canopyEscalate dt (canopyTeleport dt S1) o k1) as [S2 k2]. cbn in H3.
  pose proof (canopyJolt_egg dt S2 o k2) as H4.
  destruct (canopyJolt dt S2 o k2) as [S3 k3]. cbn in H4.
  unfold ret. cbn [fst State.canopy State.setCanopy setCanopyEnemies Canopy.egg].
  unfold canopyEnemies. cbn [State.canopy State.setCanopy setCanopyEgg Canopy.egg].
  rewrite canopyEggStep_host. congruence.
Qed.

Lemma frame_hostAssigned S f : hostAssigned S -> hostAssigned (frame S f).
Proof.
  intros Hh. rewrite frame_unfold. cbv zeta.
  destruct (enterFrame_eggs (Frame.dt f) (Frame.player f) S) as (_ & _ & EC & _).
  set (S1 := fst (enterFrame (Frame.dt f) (Frame.player f) S)) in *.
  set (a := snd (enterFrame (Frame.dt f) (Frame.player f) S)).
  assert (Hh1 : hostAssigned S1) by (unfold hostAssigned; rewrite EC; exact Hh).
  unfold hostAssigned.
  match goal with |- context [advanceVisualPhases ?d ?T] =>
    destruct (advanceVisualPhases_eggs d T) as (_ & _ & AC & _); rewrite AC end.
  destruct (State.playerMoved S1); [| exact Hh1].
  destruct (updateZones_split (Frame.dt f) (Frame.player f) a S1 (Frame.oracle f) 0%nat)
    as (p1 & p2 & p3 & k1 & k2 & k3 & T1 & T2 & T3 &
        E1 & V & E2 & G1 & G & E3 & C2 & C & _).
  rewrite C, E3. apply updateCanopy_host. unfold hostAssigned. rewrite C2. exact Hh1.
Qed.

Lemma run_hostAssigned frames : forall S, hostAssigned S -> hostAssigned (run S frames).
Proof.
  induction frames as [| f frames IH]; intros S Hh; [exact Hh |].
  rewrite run_cons. apply IH, frame_hostAssigned, Hh.
Qed.

Lemma addCanopyObstacles_length n S o k :
  length (Canopy.obstacles (State.canopy (fst (_addCanopyObstacles n S o k)))) =
  (length (Canopy.obstacles (State.canopy S)) + n)%nat.
Proof.
  unfold _addCanopyObstacles. revert S o k.
  induction n as [| n IH]; intros S o k; simpl.
  - lia.
  - unfold bind, random, ret. simpl. rewrite IH. cbn. rewrite length_app. simpl. lia.
Qed.

Lemma assignCanopyEgg_host S o k :
  Canopy.obstacles (State.canopy S) <> [] ->
  hostAssigned (fst (_assignCanopyEgg S o k)).
Proof.
  intros Hne. unfold _assignCanopyEgg.
  destruct (Canopy.obstacles (State.canopy S)) as [| ob obs] eqn:E; [contradiction |].
  unfold bind, random.
  destruct (nth_error (ob :: obs) _) as [host |] eqn:N.
  - unfold hostAssigned. cbn. discriminate.
  - exfalso. apply nth_error_None in N.
    pose proof (floorIdx_lt (Oracle.draw o k) (length (ob :: obs)) (Oracle.draw_range o k)) as L.
    simpl in L, N. lia.
Qed.

(** [init] gives the canopy egg a host. *)
Lemma initState_hostAssigned level o : hostAssigned (initState level o).
Proof.
  destruct (initState_zones level o) as (S1 & k1 & S3 & k3 & _ & E3 & _ & _ & C & _).
  unfold hostAssigned. rewrite C.
  unfold _initCanopy, bind in E3.
  destruct (repeatR 2 _spawnThornwyrm (_initGlacial S1) o k1) as [T1 j1].
  pose proof (addCanopyObstacles_length 5 T1 o j1) as L.
  destruct (_addCanopyObstacles 5 T1 o j1) as [T2 j2]. cbn in L.
  pose proof (assignCanopyEgg_host T2 o j2) as A. rewrite E3 in A. apply A.
  intros N. rewrite N in L. simpl in L. lia.
Qed.

(** In every state of a level the canopy egg has its host. *)
Lemma reachable_hostAssigned level o frames :
  hostAssigned (run (initState level o) frames).
Proof. apply run_hostAssigned, initState_hostAssigned. Qed.

(** C9.  Once an egg is collected, no sequence of further [update] calls
    changes any of its fields (position, velocity, timers, visibility, host,
    the flag itself), in any of the four zones.  The state is one in which
    the canopy egg has its host obstacle, as in every state [init] and
    [update] produce ([reachable_hostAssigned]). *)
Theorem collected_egg_stable (S : State.t) (frames : list Frame.t) :
  hostAssigned S ->
  (VolcanicEgg.collected (Volcanic.egg (State.volcanic S)) = true ->
   Volcanic.egg (State.volcanic (run S frames)) = Volcanic.egg (State.volcanic S)) /\
  (GlacialEgg.collected (Glacial.egg (State.glacial S)) = true ->
   Glacial.egg (State.glacial (run S frames)) = Glacial.egg (State.glacial S)) /\
  (CanopyEgg.collected (Canopy.egg (State.canopy S)) = true ->
   Canopy.egg (State.canopy (run S frames)) = Canopy.egg (State.canopy S)) /\
  (ReefEgg.collected (Reef.egg (State.reef S)) = true ->
   Reef.egg (State.reef (run S frames)) = Reef.egg (State.reef S)).
Proof.
  revert S. induction frames as [| f frames IH]; intros S Hh.
  - repeat split.
  - rewrite run_cons.
    destruct (frame_eggs S f Hh) as (FV & FG & FC & FR).
    destruct (IH (frame S f) (frame_hostAssigned S f Hh)) as (IV & IG & IC & IR).
    split; [| split; [| split]]; intros H.
    + rewrite IV; rewrite FV; auto.
    + rewrite IG; rewrite FG; auto.
    + rewrite IC; rewrite FC; auto.
    + rewrite IR; rewrite FR; auto.
Qed.

Lemma collected_egg_stable_witness :
  hostAssigned collectedState /\
  Volcanic.egg (State.volcanic (run collectedState [frameAt 1000 1000])) =
    VolcanicEgg.mk 250 250 true /\
  Glacial.egg (State.glacial (run collectedState [frameAt 1000 1000])) =
    GlacialEgg.mk 1800 250 true 2 2 /\
  Canopy.egg (State.canopy (run collectedState [frameAt 1000 1000])) =
    CanopyEgg.mk 1500 1500 true true (Some 0%nat) /\
  Reef.egg (State.reef (run collectedState [frameAt 1000 1000])) =
    ReefEgg.mk 500 1500 45 0 true.
Proof.
  assert (Hh : hostAssigned collectedState) by (unfold hostAssigned; cbn; discriminate).
  destruct (collected_egg_stable collectedState [frameAt 1000 1000] Hh) as (V & G & C & R).
  split; [exact Hh |].
  split; [exact (V eq_refl) | split; [exact (G eq_refl) | split; [exact (C eq_refl) |
    exact (R eq_refl)]]].
Defined.

(** ** The cap of 6 enemies per zone *)

Lemma aliveCount_map {V : Type} (f : Enemy.t V -> Enemy.t V) (l : list (Enemy.t V)) :
  (forall e, Enemy.alive (f e) = Enemy.alive e) ->
  _aliveCount (map f l) = _aliveCount l.
Proof.
  intros Hf. induction l as [| e l IH]; [reflexivity |].
  simpl map. rewrite !aliveCount_cons, Hf, IH. reflexivity.
Qed.

Lemma blockOne_fields {V : Type} sz (e : Enemy.t V) :
  Enemy.alive (blockOne sz e) = Enemy.alive e /\ Enemy.ext (blockOne sz e) = Enemy.ext e /\
  Enemy.radius (blockOne sz e) = Enemy.radius e /\
  Enemy.frozen (blockOne sz e) = Enemy.frozen e.
Proof.
  unfold blockOne. destruct (negb (Enemy.alive e)); [auto |].
  destruct (_ <? _); auto.
Qed.

Lemma aliveCount_block {V : Type} S (l : list (Enemy.t V)) :
  _aliveCount (_blockFromSafeZone S l) = _aliveCount l.
Proof.
  unfold _blockFromSafeZone. destruct (negb _); [reflexivity |].
  apply aliveCount_map. intros e. apply blockOne_fields.
Qed.

Lemma aliveCount_tick {V : Type} (l : list (Enemy.t V)) dt :
  _aliveCount (_tickEffects l dt) = _aliveCount l.
Proof. apply aliveCount_map. reflexivity. Qed.

Lemma aliveCount_le_length {V : Type} (l : list (Enemy.t V)) :
  (_aliveCount l <= length l)%nat.
Proof. apply filter_length_le. Qed.

(** *** Volcanic *)

Lemma sizeCost_pos s : (1 <= sizeCost s)%nat.
Proof. unfold sizeCost. destruct (s =? 1); [lia |]. destruct (s =? _); lia. Qed.

Lemma aliveCount_le_budget l : (_aliveCount l <= budget l)%nat.
Proof.
  induction l as [| e l IH]; [reflexivity |].
  rewrite aliveCount_cons. simpl. unfold aliveCost.
  pose proof (sizeCost_pos (Magma.sizeMult (Enemy.ext e))).
  destruct (Enemy.alive e); lia.
Qed.

Lemma budget_app l1 l2 : budget (l1 ++ l2) = (budget l1 + budget l2)%nat.
Proof. induction l1 as [| e l1 IH]; simpl; [reflexivity | rewrite IH; lia]. Qed.

Lemma budget_filter_alive l : budget (filter Enemy.alive l) = budget l.
Proof.
  induction l as [| e l IH]; [reflexivity |].
  simpl. destruct (Enemy.alive e) eqn:E; simpl; rewrite IH; unfold aliveCost; rewrite E;
    reflexivity.
Qed.

(** A step of a loop that leaves [alive] and [sizeMult] alone leaves the
    budget alone. *)
Lemma budget_map (f : Magmawyrm -> Magmawyrm) l :
  (forall e, Enemy.alive (f e) = Enemy.alive e /\
             Magma.sizeMult (Enemy.ext (f e)) = Magma.sizeMult (Enemy.ext e)) ->
  budget (map f l) = budget l /\ (Forall knownSize l -> Forall knownSize (map f l)).
Proof.
  intros Hf. induction l as [| e l [IH1 IH2]]; [split; [reflexivity | constructor] |].
  destruct (Hf e) as [Ha Hs]. split.
  - simpl. rewrite IH1. unfold aliveCost. rewrite Ha, Hs. reflexivity.
  - intros H. inversion H; subst. constructor; [| auto].
    unfold knownSize in *. rewrite Hs. assumption.
Qed.

Lemma boostSpeed_fields e :
  Enemy.alive (boostSpeed e) = Enemy.alive e /\
  Magma.sizeMult (Enemy.ext (boostSpeed e)) = Magma.sizeMult (Enemy.ext e).
Proof. split; reflexivity. Qed.

Lemma sizeCost_values :
  sizeCost 1 = 4%nat /\ sizeCost (1 * 0.6) = 2%nat /\ sizeCost (1 * 0.6 * 0.6) = 1%nat.
Proof.
  unfold sizeCost. rewrite Reqb_refl.
  replace (1 * 0.6 =? 1) with false by (symmetry; reflectR; lra).
  rewrite Reqb_refl.
  replace (1 * 0.6 * 0.6 =? 1) with false by (symmetry; reflectR; lra).
  replace (1 * 0.6 * 0.6 =? 1 * 0.6) with false by (symmetry; reflectR; lra).
  auto.
Qed.

(** A split never costs more than the parent did. *)
Lemma magmaStep_budget S dt p a done rest trails e o k :
  knownSize e ->
  let r := fst (magmaStep S dt p a done rest trails e o k) in
  knownSize (fst (fst r)) /\ Forall knownSize (snd r) /\
  (aliveCost (fst (fst r)) + budget (snd r) <= aliveCost e)%nat.
Proof.
  intros Hk r. subst r.
  destruct (Enemy.alive e) eqn:Ha.
  2:{ rewrite magmaStep_skips by (left; exact Ha). cbn. split; [exact Hk |].
      split; [constructor | lia]. }
  destruct (Enemy.frozen e) eqn:Hf.
  { rewrite magmaStep_skips by (right; exact Hf). cbn. split; [exact Hk |].
    split; [constructor | lia]. }
  pose proof (magmaStep_cases S dt p a done rest trails e o k Ha Hf) as H. cbv zeta in H.
  destruct (chasePlayer_fields e p dt) as (_ & _ & _ & _ & _ & Cx).
  assert (Hext : Magma.sizeMult (Enemy.ext
                   (fst (fst (fst (magmaStep S dt p a done rest trails e o k))))) =
                 Magma.sizeMult (Enemy.ext e)).
  { unfold magmaStep. rewrite Ha, Hf. cbn [negb orb].
    destruct (_ >=? 0.3); destruct (a && splits _ _);
      try destruct (_ <=? MAX_PER_ZONE)%nat; unfold bind;
      repeat match goal with |- context [spawnChild ?S ?e ?o ?k] =>
               destruct (spawnChild S e o k) end;
      cbn; rewrite Cx; reflexivity. }
  split; [unfold knownSize in *; rewrite Hext; exact Hk |].
  destruct H as [Hyes Hno].
  set (d := hypot (Player.x p - Enemy.x (_chasePlayer e p dt))
                  (Player.y p - Enemy.y (_chasePlayer e p dt))) in *.
  assert (Hdec : (a = true /\ d <= 200 /\ 0.4 < Magma.sizeMult (Enemy.ext e)) \/
                 ~ (a = true /\ d <= 200 /\ 0.4 < Magma.sizeMult (Enemy.ext e))).
  { destruct a; [| right; intros (X & _); discriminate].
    destruct (Rle_dec d 200); [| right; tauto].
    destruct (Rlt_dec 0.4 (Magma.sizeMult (Enemy.ext e))); [left; auto | right; tauto]. }
  destruct (sizeCost_values) as (V1 & V2 & V3).
  destruct Hdec as [Hc | Hc].
  - destruct (Hyes Hc) as (Hd & _ & Hk2 & Hk0). clear Hyes Hno.
    destruct Hc as (_ & _ & Hs).
    unfold aliveCost at 1. rewrite Hd.
    destruct (le_dec (_aliveCount done + _aliveCount rest + 2) MAX_PER_ZONE) as [L | L].
    + destruct (Hk2 L) as (c1 & c2 & -> & K1 & K2).
      destruct K1 as (S1 & _ & _ & _ & _ & _ & A1).
      destruct K2 as (S2 & _ & _ & _ & _ & _ & A2).
      cbn [budget]. unfold aliveCost, knownSize in *. rewrite Ha, A1, A2, S1, S2.
      destruct Hk as [Hk | [Hk | Hk]]; rewrite Hk in *.
      * split; [constructor; [auto | constructor; [auto | constructor]] |].
        rewrite V1, V2. lia.
      * split; [constructor; [auto | constructor; [auto | constructor]] |].
        rewrite V2, V3. lia.
      * lra.
    + rewrite (Hk0 L). split; [constructor | simpl; lia].
  - destruct (Hno Hc) as (Hl & ->). split; [constructor |].
    unfold aliveCost. rewrite Hl, Ha, Hext. simpl. lia.
Qed.

Lemma magmaLoop_budget S dt p a todo : forall done trails newSplits o k,
  Forall knownSize done -> Forall knownSize todo -> Forall knownSize newSplits ->
  let r := fst (magmaLoop S dt p a done todo trails newSplits o k) in
  Forall knownSize (fst (fst r)) /\ Forall knownSize (snd r) /\
  (budget (fst (fst r)) + budget (snd r) <= budget done + budget todo + budget newSplits)%nat.
Proof.
  induction todo as [| e rest IH]; intros done trails newSplits o k Hd Ht Hn; cbn zeta.
  - simpl. split; [exact Hd |]. split; [exact Hn | lia].
  - simpl. unfold bind.
    inversion Ht as [| ? ? He Hr]; subst.
    pose proof (magmaStep_budget S dt p a done rest trails e o k He) as Hs. cbv zeta in Hs.
    destruct (magmaStep S dt p a done rest trails e o k) as [[[e' tr'] kids] k'].
    cbn [fst snd] in Hs. destruct Hs as (He' & Hk & Hb).
    specialize (IH (done ++ [e']) tr' (newSplits ++ kids) o k').
    cbv zeta in IH.
    destruct IH as (I1 & I2 & I3).
    + apply Forall_app. split; [exact Hd | constructor; [exact He' | constructor]].
    + exact Hr.
    + apply Forall_app. split; assumption.
    + split; [exact I1 |]. split; [exact I2 |].
      rewrite !budget_app in I3. simpl in I3 |- *. lia.
Qed.

Lemma Forall_filter {A : Type} (P : A -> Prop) (f : A -> bool) l :
  Forall P l -> Forall P (filter f l).
Proof.
  intros H. apply Forall_forall. intros x Hx. apply filter_In in Hx.
  rewrite Forall_forall in H. apply H, Hx.
Qed.

(** The Volcanic budget never grows. *)
Lemma updateVolcanic_budget dt p a S o k :
  Forall knownSize (Volcanic.enemies (State.volcanic S)) ->
  let en := Volcanic.enemies (State.volcanic (fst (fst (_updateVolcanic dt p a S o k)))) in
  Forall knownSize en /\
  (budget en <= budget (Volcanic.enemies (State.volcanic S)))%nat.
Proof.
  intros Hk en. subst en. unfold _updateVolcanic.
  set (v := State.volcanic S) in *.
  assert (H0 : exists st en0,
            (let '(speedTimer, enemies) :=
               if Volcanic.speedTimer v + dt >=? 5
               then (Volcanic.speedTimer v + dt - 5, map boostSpeed (Volcanic.enemies v))
               else (Volcanic.speedTimer v + dt, Volcanic.enemies v) in
             (speedTimer, enemies)) = (st, en0) /\
            Forall knownSize en0 /\ budget en0 = budget (Volcanic.enemies v)).
  { destruct (_ >=? 5).
    - destruct (budget_map boostSpeed (Volcanic.enemies v) boostSpeed_fields) as [B1 B2].
      eexists; eexists; split; [reflexivity | split; [apply B2; exact Hk | exact B1]].
    - eexists; eexists; split; [reflexivity | split; [exact Hk | reflexivity]]. }
  destruct H0 as (st & en0 & E0 & K0 & B0).
  destruct (if Volcanic.speedTimer v + dt >=? 5
            then (Volcanic.speedTimer v + dt - 5, map boostSpeed (Volcanic.enemies v))
            else (Volcanic.speedTimer v + dt, Volcanic.enemies v)) as [st' en0'].
  injection E0 as -> ->.
  destruct (fold_left (geyserStep dt) _ _) as [geysers p'].
  unfold bind.
  assert (Ht : forall e : Magmawyrm,
            Enemy.alive (Enemy.setEffects e (tickEffectList dt (Enemy.activeEffects e))) =
              Enemy.alive e /\
            Magma.sizeMult (Enemy.ext
              (Enemy.setEffects e (tickEffectList dt (Enemy.activeEffects e)))) =
              Magma.sizeMult (Enemy.ext e)) by (intros; split; reflexivity).
  destruct (budget_map _ en0 Ht) as [T1 T2].
  change (map _ en0) with (_tickEffects en0 dt) in T1, T2.
  match goal with |- context [magmaLoop ?S ?dt ?p ?a [] ?todo ?tr [] o k] =>
    pose proof (magmaLoop_budget S dt p a todo [] tr [] o k
                  (Forall_nil _) (T2 K0) (Forall_nil _)) as L;
    destruct (magmaLoop S dt p a [] todo tr [] o k) as [[[en1 tr1] kids] k1]
  end.
  cbv zeta in L. cbn [fst snd budget] in L. destruct L as (L1 & L2 & L3).
  unfold ret. cbn [fst State.volcanic State.setVolcanic Volcanic.enemies].
  assert (Hb : forall e : Magmawyrm,
            Enemy.alive (blockOne (State.safeZone S) e) = Enemy.alive e /\
            Magma.sizeMult (Enemy.ext (blockOne (State.safeZone S) e)) =
              Magma.sizeMult (Enemy.ext e)).
  { intros e. destruct (blockOne_fields (State.safeZone S) e) as (A & X & _).
    rewrite A, X. auto. }
  assert (Hfin : Forall knownSize (filter Enemy.alive en1 ++ kids) /\
                 (budget (filter Enemy.alive en1 ++ kids) <= budget (Volcanic.enemies v))%nat).
  { split.
    - apply Forall_app. split; [apply Forall_filter; exact L1 | exact L2].
    - rewrite budget_app, budget_filter_alive. lia. }
  unfold _blockFromSafeZone. cbv zeta. destruct (negb _); [exact Hfin |].
  match goal with |- context [map ?f ?l] =>
    destruct (budget_map f l Hb) as [B1 B2]; rewrite B1; split; [apply B2 |]; apply Hfin
  end.
Qed.

(** *** Glacial *)

Lemma expandStep_alive dt acc e o k :
  Enemy.alive (snd (fst (expandStep dt acc e o k))) = Enemy.alive e.
Proof.
  unfold expandStep. destruct (_ >=? 1.5); reflexivity.
Qed.

Lemma frostStep_aliveCount dt p acc done e o k :
  _aliveCount (snd (fst (frostStep dt p (acc, done) e o k))) =
  _aliveCount (done ++ [e]).
Proof.
  unfold frostStep. destruct (negb (Enemy.alive e) || Enemy.frozen e); [reflexivity |].
  unfold bind. pose proof (expandStep_alive dt acc e o k) as H.
  destruct (expandStep dt acc e o k) as [[a' e'] k']. cbn [fst snd] in H.
  unfold ret. cbn [fst snd]. rewrite !aliveCount_app, !aliveCount_cons, H. reflexivity.
Qed.

Lemma frostLoop_aliveCount dt p l : forall acc done o k,
  _aliveCount (snd (fst (foldR (frostStep dt p) l (acc, done) o k))) =
  (_aliveCount done + _aliveCount l)%nat.
Proof.
  induction l as [| e l IH]; intros acc done o k; cbn [foldR].
  - unfold _aliveCount. simpl. lia.
  - unfold bind. pose proof (frostStep_aliveCount dt p acc done e o k) as H.
    destruct (frostStep dt p (acc, done) e o k) as [[a' d'] k']. cbn [fst snd] in H.
    rewrite IH, H, aliveCount_app, !aliveCount_cons.
    unfold _aliveCount at 2. simpl. lia.
Qed.

Lemma updateGlacial_aliveCount dt p S o k :
  _aliveCount (Glacial.enemies (State.glacial (fst (fst (_updateGlacial dt p S o k))))) =
  _aliveCount (Glacial.enemies (State.glacial S)).
Proof.
  unfold _updateGlacial, bind.
  match goal with |- context [foldR ?f ?l (?a, []) o k] =>
    pose proof (frostLoop_aliveCount dt p l a [] o k) as H;
    destruct (foldR f l (a, []) o k) as [[acc en] k1]
  end.
  cbn [fst snd] in H.
  destruct (fold_left (bulletStep dt) _ _) as [bs p'].
  unfold ret. cbn [fst State.glacial State.setGlacial Glacial.enemies].
  rewrite aliveCount_block, H, aliveCount_tick. unfold _aliveCount at 1. simpl. reflexivity.
Qed.

(** *** Canopy *)

Lemma spawnThornwyrm_cap S o k :
  (_aliveCount (Canopy.enemies (State.canopy S)) <= MAX_PER_ZONE)%nat ->
  (_aliveCount (Canopy.enemies (State.canopy (fst (_spawnThornwyrm S o k)))) <=
   MAX_PER_ZONE)%nat.
Proof.
  intros H. unfold _spawnThornwyrm.
  destruct (MAX_PER_ZONE <=? _)%nat eqn:E; [exact H |].
  apply Nat.leb_gt in E. unfold bind, random, ret.
  cbn [fst State.canopy State.setCanopy setCanopyEnemies Canopy.enemies].
  rewrite aliveCount_app, aliveCount_cons. unfold _aliveCount at 2. simpl. lia.
Qed.

Lemma addCanopyObstacles_enemies n S o k :
  Canopy.enemies (State.canopy (fst (_addCanopyObstacles n S o k))) =
  Canopy.enemies (State.canopy S).
Proof.
  unfold _addCanopyObstacles.
  apply (repeatR_inv
           (fun T => Canopy.enemies (State.canopy T) = Canopy.enemies (State.canopy S)));
    [| reflexivity].
  intros a o' k' Ha. cbn. exact Ha.
Qed.

Lemma assignCanopyEgg_enemies S o k :
  Canopy.enemies (State.canopy (fst (_assignCanopyEgg S o k))) =
  Canopy.enemies (State.canopy S).
Proof.
  unfold _assignCanopyEgg.
  destruct (Canopy.obstacles (State.canopy S)) as [| ob obs]; [reflexivity |].
  unfold bind, random. destruct (nth_error _ _); reflexivity.
Qed.

Lemma canopyMultiply_cap dt p S o k :
  (_aliveCount (Canopy.enemies (State.canopy S)) <= MAX_PER_ZONE)%nat ->
  (_aliveCount (Canopy.enemies (State.canopy (fst (canopyMultiply dt p S o k)))) <=
   MAX_PER_ZONE)%nat.
Proof.
  intros H. unfold canopyMultiply. destruct (negb _ && _); [| exact H].
  apply spawnThornwyrm_cap. exact H.
Qed.

Lemma canopyTeleport_aliveCount dt S :
  _aliveCount (Canopy.enemies (State.canopy (canopyTeleport dt S))) =
  _aliveCount (Canopy.enemies (State.canopy S)).
Proof.
  unfold canopyTeleport. destruct (_ >=? 5); [| reflexivity].
  cbn [State.canopy State.setCanopy setCanopyEnemies Canopy.enemies].
  apply aliveCount_map. reflexivity.
Qed.

Lemma canopyEscalate_enemies dt S o k :
  Canopy.enemies (State.canopy (fst (canopyEscalate dt S o k))) =
  Canopy.enemies (State.canopy S).
Proof.
  unfold canopyEscalate. destruct (_ >=? 5); [| reflexivity].
  unfold bind.
  match goal with |- context [_addCanopyObstacles ?n ?S0 o k] =>
    pose proof (addCanopyObstacles_enemies n S0 o k) as H;
    destruct (_addCanopyObstacles n S0 o k) as [S1 k1] end.
  cbn in H. destruct (CanopyEgg._host _); [exact H |].
  rewrite assignCanopyEgg_enemies. exact H.
Qed.

Lemma canopyJolt_enemies dt S o k :
  Canopy.enemies (State.canopy (fst (canopyJolt dt S o k))) =
  Canopy.enemies (State.canopy S).
Proof.
  unfold canopyJolt, bind, random. destruct (_ <? _); [| reflexivity].
  destruct (mapR _ _ _ _). reflexivity.
Qed.

Lemma thornStep_alive dt p e : Enemy.alive (thornStep dt p e) = Enemy.alive e.
Proof.
  unfold thornStep. destruct (negb (Enemy.alive e) || Enemy.frozen e); [reflexivity |].
  cbn [Enemy.alive Enemy.moveTo].
  repeat match goal with
  | |- context [if ?c then _ else _] => destruct c
  end; cbn; rewrite ?(proj1 (chasePlayer_fields _ _ _)); reflexivity.
Qed.

Lemma canopyEnemies_aliveCount dt p S :
  _aliveCount (Canopy.enemies (State.canopy (canopyEnemies dt p S))) =
  _aliveCount (Canopy.enemies (State.canopy S)).
Proof.
  unfold canopyEnemies.
  cbn [State.canopy State.setCanopy setCanopyEnemies setCanopyEgg Canopy.enemies].
  rewrite aliveCount_map by apply thornStep_alive. apply aliveCount_tick.
Qed.

Lemma updateCanopy_cap dt p S o k :
  (_aliveCount (Canopy.enemies (State.canopy S)) <= MAX_PER_ZONE)%nat ->
  (_aliveCount (Canopy.enemies (State.canopy (fst (fst (_updateCanopy dt p S o k))))) <=
   MAX_PER_ZONE)%nat.
Proof.
  intros H. unfold _updateCanopy, bind.
  pose proof (canopyMultiply_cap dt p S o k H) as H1.
  destruct (canopyMultiply dt p S o k) as [S1 k1]. cbn [fst] in H1.
  pose proof (canopyEscalate_enemies dt (canopyTeleport dt S1) o k1) as H2.
  destruct (canopyEscalate dt (canopyTeleport dt S1) o k1) as [S2 k2]. cbn [fst] in H2.
  pose proof (canopyJolt_enemies dt S2 o k2) as H3.
  destruct (canopyJolt dt S2 o k2) as [S3 k3]. cbn [fst] in H3.
  unfold ret. cbn [fst State.canopy State.setCanopy setCanopyEnemies Canopy.enemies].
  rewrite aliveCount_block, canopyEnemies_aliveCount, H3, H2, canopyTeleport_aliveCount.
  exact H1.
Qed.

(** *** Reef *)

Lemma reefMultiply_cap dt S o k :
  (_aliveCount (Reef.enemies (State.reef S)) <= MAX_PER_ZONE)%nat ->
  (_aliveCount (Reef.enemies (State.reef (fst (reefMultiply dt S o k)))) <=
   MAX_PER_ZONE)%nat.
Proof.
  intros H. unfold reefMultiply. destruct (_ >=? 10); [| exact H].
  destruct (_ <? MAX_PER_ZONE)%nat eqn:E; [| exact H].
  apply Nat.ltb_lt in E. unfold bind, random, ret.
  cbn [fst State.reef State.setReef setReefEnemies Reef.enemies].
  rewrite aliveCount_app. unfold _aliveCount at 2. simpl. lia.
Qed.

Lemma tideStep_alive dt r n i e : Enemy.alive (tideStep dt r n i e) = Enemy.alive e.
Proof.
  unfold tideStep.
  repeat match goal with
  | |- context [if ?c then _ else _] => destruct c
  end; reflexivity.
Qed.

Lemma schoolLoop_aliveCount dt r n l : forall i,
  _aliveCount (schoolLoop dt r n i l) = _aliveCount l.
Proof.
  induction l as [| e l IH]; intros i; [reflexivity |].
  simpl. destruct (inSchool e); rewrite !aliveCount_cons, IH, ?tideStep_alive; reflexivity.
Qed.

Lemma reefSchool_aliveCount dt S :
  _aliveCount (Reef.enemies (State.reef (reefSchool dt S))) =
  _aliveCount (Reef.enemies (State.reef S)).
Proof.
  unfold reefSchool. destruct (_ >=? 5);
    cbn [State.reef State.setReef setReefEnemies Reef.enemies];
    rewrite schoolLoop_aliveCount; apply aliveCount_tick.
Qed.

Lemma knockBackEnemy_alive {V : Type} obs (e : Enemy.t V) :
  Enemy.alive (knockBackEnemy obs e) = Enemy.alive e.
Proof.
  unfold knockBackEnemy. destruct (Enemy.alive e) eqn:E; [| exact E].
  destruct (_knockBack _ _ _ _). exact E.
Qed.

Lemma bouncerStep_aliveCount dt acc ob :
  _aliveCount (snd (bouncerStep dt acc ob)) = _aliveCount (snd acc).
Proof.
  destruct acc as [[done p] en]. unfold bouncerStep.
  repeat match goal with
  | |- context [let '(_, _) := ?c in _] => destruct c
  end.
  cbn [snd]. apply aliveCount_map. intros e. apply knockBackEnemy_alive.
Qed.

Lemma bouncerLoop_aliveCount dt obs : forall acc,
  _aliveCount (snd (fold_left (bouncerStep dt) obs acc)) = _aliveCount (snd acc).
Proof.
  induction obs as [| ob obs IH]; intros acc; [reflexivity |].
  cbn [fold_left]. rewrite IH. apply bouncerStep_aliveCount.
Qed.

Lemma updateReef_cap dt p S o k :
  (_aliveCount (Reef.enemies (State.reef S)) <= MAX_PER_ZONE)%nat ->
  (_aliveCount (Reef.enemies (State.reef (fst (fst (_updateReef dt p S o k))))) <=
   MAX_PER_ZONE)%nat.
Proof.
  intros H. unfold _updateReef, bind.
  pose proof (reefMultiply_cap dt S o k H) as H1.
  destruct (reefMultiply dt S o k) as [S1 k1]. cbn [fst] in H1.
  match goal with |- context [fold_left (bouncerStep dt) ?obs (?d, ?q, ?en)] =>
    pose proof (bouncerLoop_aliveCount dt obs (d, q, en)) as H2;
    destruct (fold_left (bouncerStep dt) obs (d, q, en)) as [[obs' p'] en']
  end.
  cbn [snd] in H2. unfold ret.
  cbn [fst State.reef State.setReef setReefEnemies setReefEgg setReefObstacles Reef.enemies].
  rewrite aliveCount_block, H2, reefSchool_aliveCount. exact H1.
Qed.

(** *** The whole frame *)

Lemma unfreezeAll_capInv S : capInv S -> capInv (_unfreezeAll S).
Proof.
  intros (K & B & G & C & R). unfold capInv, _unfreezeAll.
  cbn [State.volcanic State.glacial State.canopy State.reef Volcanic.enemies Glacial.enemies
       setCanopyEnemies setReefEnemies Canopy.enemies Reef.enemies].
  assert (Hf : forall e : Magmawyrm,
            Enemy.alive (Enemy.setFrozen e false) = Enemy.alive e /\
            Magma.sizeMult (Enemy.ext (Enemy.setFrozen e false)) =
              Magma.sizeMult (Enemy.ext e)) by (intros; split; reflexivity).
  destruct (budget_map _ (Volcanic.enemies (State.volcanic S)) Hf) as [B1 B2].
  rewrite B1, !aliveCount_map by reflexivity. auto.
Qed.

Lemma enterFrame_capInv dt p S : capInv S -> capInv (fst (enterFrame dt p S)).
Proof.
  intros H. unfold enterFrame, _updateSafeZone, detectMovement.
  cbn [fst State.playerMoved].
  destruct (negb (State.playerMoved S)); [| exact H].
  destruct (playerDisplaced _ _); [| exact H].
  apply (unfreezeAll_capInv
           (State.mk (State.level S) (State.speedMult S) (State.time S + dt) true
              (State.prevPX S) (State.prevPY S) (State.prevAbilityCooldown S)
              (State.safeZone S) (State.volcanic S) (State.glacial S) (State.canopy S)
              (State.reef S))).
  exact H.
Qed.

Lemma updateZones_capInv dt p a S o k :
  capInv S -> capInv (fst (fst (updateZones dt p a S o k))).
Proof.
  intros (K & B & G & C & R).
  destruct (updateZones_split dt p a S o k)
    as (p1 & p2 & p3 & k1 & k2 & k3 & S1 & S2 & S3 &
        E1 & V & E2 & G1 & G2 & E3 & C2 & C3 & R3 & R4 & _).
  unfold capInv. rewrite V, G2, C3, R4.
  pose proof (updateVolcanic_budget dt p a S o k K) as HV. cbv zeta in HV.
  rewrite <- E1 in HV. destruct HV as [HV1 HV2].
  split; [exact HV1 |]. split; [lia |]. split; [| split].
  - rewrite E2, updateGlacial_aliveCount, G1. exact G.
  - rewrite E3. apply updateCanopy_cap. rewrite C2. exact C.
  - apply updateReef_cap. rewrite R3. exact R.
Qed.

Lemma advanceVisualPhases_capInv dt S : capInv S -> capInv (advanceVisualPhases dt S).
Proof. intros H. exact H. Qed.

Lemma frame_capInv S f : capInv S -> capInv (frame S f).
Proof.
  intros H. rewrite frame_unfold. cbv zeta.
  apply advanceVisualPhases_capInv.
  pose proof (enterFrame_capInv (Frame.dt f) (Frame.player f) S H) as H1.
  destruct (State.playerMoved _); [| exact H1].
  apply updateZones_capInv. exact H1.
Qed.

Lemma run_capInv frames : forall S, capInv S -> capInv (run S frames).
Proof.
  induction frames as [| f frames IH]; intros S H; [exact H |].
  rewrite run_cons. apply IH, frame_capInv, H.
Qed.

(** *** [init] *)

Lemma initReef_enemies S o k :
  exists t1 t2 t3 : Tidewyrm,
    Reef.enemies (State.reef (fst (_initReef S o k))) =
    ((Reef.enemies (State.reef S) ++ [t1]) ++ [t2]) ++ [t3] /\
    Enemy.alive t1 = true /\ Enemy.alive t2 = true /\ Enemy.alive t3 = true.
Proof.
  unfold _initReef, bind, random, ret. cbn.
  do 3 eexists. split; [reflexivity |]. repeat split.
Qed.

Lemma initState_capInv level o : capInv (initState level o).
Proof.
  destruct (initState_zones level o) as (S1 & k1 & S3 & k3 & E1 & E3 & V & G & C & R).
  pose proof (initVolcanic_only (resetState level) o 0%nat) as O1. rewrite E1 in O1.
  cbn [fst] in O1.
  pose proof (initCanopy_only (_initGlacial S1) o k1) as O3. rewrite E3 in O3.
  cbn [fst] in O3.
  destruct (onlyVolcanic_others _ _ O1) as (_ & C1 & R1).
  destruct (onlyCanopy_others _ _ O3) as (_ & _ & R3).
  destruct (sizeCost_values) as (V1 & _).
  unfold capInv. split; [| split; [| split; [| split]]].
  - rewrite initState_volcanic. cbn [Volcanic.enemies].
    constructor; [left; reflexivity | constructor].
  - rewrite initState_volcanic. cbn [Volcanic.enemies budget].
    unfold aliveCost, makeMagmawyrm, defaultOne.
    cbn [Enemy.alive Enemy.ext Magma.sizeMult]. rewrite V1. lia.
  - rewrite initState_glacial_enemies. unfold _aliveCount, MAX_PER_ZONE. cbn. lia.
  - rewrite C. unfold _initCanopy, bind in E3.
    pose proof (repeatR_inv
                  (fun T => (_aliveCount (Canopy.enemies (State.canopy T)) <=
                             MAX_PER_ZONE)%nat)
                  _spawnThornwyrm spawnThornwyrm_cap 2 (_initGlacial S1) o k1) as P.
    destruct (repeatR 2 _spawnThornwyrm (_initGlacial S1) o k1) as [T1 j1].
    pose proof (addCanopyObstacles_enemies 5 T1 o j1) as A.
    destruct (_addCanopyObstacles 5 T1 o j1) as [T2 j2].
    pose proof (assignCanopyEgg_enemies T2 o j2) as A2. rewrite E3 in A2.
    cbn [fst] in *. rewrite A2, A. apply P.
    cbn [_initGlacial State.canopy State.setGlacial]. rewrite C1.
    unfold _aliveCount, MAX_PER_ZONE. cbn. lia.
  - rewrite R. destruct (initReef_enemies S3 o k3) as (t1 & t2 & t3 & E & A1 & A2 & A3).
    rewrite E, R3. cbn [_initGlacial State.reef State.setGlacial]. rewrite R1.
    unfold _aliveCount, MAX_PER_ZONE. cbn. rewrite A1, A2, A3. cbn. lia.
Qed.

(** C1.  After [init] and after every [update] that follows it, each of the
    four zones has at most 6 enemies with [alive = true].  In the Volcanic
    zone the count is in fact at most 4: the enemy of [init] can split into
    two, and each of these into two that are too small to split
    ([capInv]). *)
Theorem zone_cap (level : Z) (o : Oracle.t) (frames : list Frame.t) :
  let S := run (initState level o) frames in
  (_aliveCount (Volcanic.enemies (State.volcanic S)) <= MAX_PER_ZONE)%nat /\
  (_aliveCount (Glacial.enemies (State.glacial S)) <= MAX_PER_ZONE)%nat /\
  (_aliveCount (Canopy.enemies (State.canopy S)) <= MAX_PER_ZONE)%nat /\
  (_aliveCount (Reef.enemies (State.reef S)) <= MAX_PER_ZONE)%nat.
Proof.
  intros S.
  destruct (run_capInv frames (initState level o) (initState_capInv level o))
    as (K & B & G & C & R).
  fold S in K, B, G, C, R.
  pose proof (aliveCount_le_budget (Volcanic.enemies (State.volcanic S))) as L.
  unfold MAX_PER_ZONE in *. repeat split; try assumption. lia.
Qed.

(** ** Ice bullets *)

Lemma hypot_sqr (dx dy : R) : hypot dx dy * hypot dx dy = dx * dx + dy * dy.
Proof. unfold hypot. apply sqrt_sqrt. nra. Qed.

Lemma hypot_scaled (dx dy s : R) :
  hypot dx dy <> 0 -> 0 <= s ->
  hypot (dx / hypot dx dy * s) (dy / hypot dx dy * s) = s.
Proof.
  intros Hd Hs. pose proof (hypot_sqr dx dy) as Hq.
  set (d := hypot dx dy) in *.
  unfold hypot.
  replace (dx / d * s * (dx / d * s) + dy / d * s * (dy / d * s)) with (s * s).
  - apply sqrt_square. exact Hs.
  - replace (dx / d * s * (dx / d * s) + dy / d * s * (dy / d * s))
      with ((dx * dx + dy * dy) * ((s / d) * (s / d))) by (field; exact Hd).
    rewrite <- Hq. field. exact Hd.
Qed.

(** The shot of one enemy, by the state of the zone's cooldown. *)
Lemma shootStep_cases dt p acc e :
  let c := FrostAcc.bulletCooldown acc - dt in
  let bx := Player.x p - Enemy.x e in
  let by_ := Player.y p - Enemy.y e in
  let acc' := shootStep dt p acc e in
  FrostAcc.frozenTiles acc' = FrostAcc.frozenTiles acc /\
  (c <= 0 -> hypot bx by_ <= 300 ->
   FrostAcc.bulletCooldown acc' = 2 /\
   FrostAcc.iceBullets acc' = FrostAcc.iceBullets acc ++ [aimBullet e bx by_ (hypot bx by_)]) /\
  (c <= 0 -> 300 < hypot bx by_ ->
   FrostAcc.bulletCooldown acc' = 0.5 /\
   FrostAcc.iceBullets acc' = FrostAcc.iceBullets acc) /\
  (0 < c ->
   FrostAcc.bulletCooldown acc' = c /\
   FrostAcc.iceBullets acc' = FrostAcc.iceBullets acc).
Proof.
  intros c bx by_ acc'. subst acc'. unfold shootStep. fold c bx by_.
  destruct (c <=? 0) eqn:Ec; [destruct (hypot bx by_ <=? 300) eqn:Ed |];
    reflectR; cbn; (split; [reflexivity |]); repeat split; intros; try lra; reflexivity.
Qed.




Lemma bulletStep_dead dt done p b :
  Bullet.alive b = false -> bulletStep dt (done, p) b = (done ++ [b], p).
Proof. intros H. unfold bulletStep. rewrite H. reflexivity. Qed.



Lemma updateGlacial_bullets_alive dt p S o k :
  Forall (fun b => Bullet.alive b = true)
    (Glacial.iceBullets (State.glacial (fst (fst (_updateGlacial dt p S o k))))).
Proof.
  unfold _updateGlacial, bind.
  destruct (foldR _ _ _ _ _) as [[acc en] k1].
  destruct (fold_left (bulletStep dt) _ _) as [bs p'].
  unfold ret. cbn [fst State.glacial State.setGlacial Glacial.iceBullets].
  apply Forall_forall. intros b Hb. apply filter_In in Hb. apply Hb.
Qed.




(** ** Zero-length directions *)

(** C5, where the code breaks it.  The aim of an ice bullet divides by the
    distance as it is.  With the player exactly on the enemy and the cooldown
    run out, the enemy fires a bullet whose velocity is [NaN]; the bullet
    step then turns its position into [NaN], never sees a contact nor the
    map's edge, and leaves the bullet alive, frame after frame. *)
Theorem ice_bullet_aim_unguarded (dt : R) (p : Player.t) (acc : FrostAcc.t) (e : Frostwyrm) :
  FrostAcc.bulletCooldown acc - dt <= 0 ->
  Player.x p = Enemy.x e -> Player.y p = Enemy.y e ->
  FrostAcc.iceBullets (shootStep dt p acc e) =
    FrostAcc.iceBullets acc ++
    [Bullet.mk (Num (Enemy.x e)) (Num (Enemy.y e)) NaN NaN 8 true] /\
  (forall dt' bs q x y r,
     bulletStep dt' (bs, q) (Bullet.mk x y NaN NaN r true) =
     (bs ++ [Bullet.mk NaN NaN NaN NaN r true], q)).
Proof.
  intros Hc Hx Hy. split.
  - destruct (shootStep_cases dt p acc e) as (_ & H & _). cbv zeta in H.
    rewrite Hx, Hy in H. replace (Enemy.x e - Enemy.x e) with 0 in H by lra.
    replace (Enemy.y e - Enemy.y e) with 0 in H by lra.
    rewrite hypot_0 in H. destruct H as [_ H]; [exact Hc | lra |].
    rewrite H. unfold aimBullet, jdiv. rewrite Reqb_refl. reflexivity.
  - intros dt' bs q x y r. unfold bulletStep. cbn [Bullet.alive negb Bullet.vx Bullet.vy
      Bullet.x Bullet.y Bullet.radius].
    destruct x, y; reflexivity.
Qed.

Lemma ice_bullet_aim_unguarded_witness :
  FrostAcc.iceBullets (shootStep 0.1 (playerAt 1500 500) (FrostAcc.mk [] [] 0) frostA) =
  [Bullet.mk (Num 1500) (Num 500) NaN NaN 8 true].
Proof.
  refine (proj1 (ice_bullet_aim_unguarded 0.1 (playerAt 1500 500) (FrostAcc.mk [] [] 0)
                   frostA _ eq_refl eq_refl)).
  cbn [FrostAcc.bulletCooldown]. lra.
Defined.

(** The guarded directions: a player exactly on the enemy leaves the chaser
    where it is. *)
Lemma chasePlayer_coincident {V : Type} (e : Enemy.t V) p dt :
  Player.x p = Enemy.x e -> Player.y p = Enemy.y e ->
  Enemy.x (_chasePlayer e p dt) = Enemy.x e /\ Enemy.y (_chasePlayer e p dt) = Enemy.y e.
Proof.
  intros Hx Hy. unfold _chasePlayer. destruct (Enemy.frozen e); [auto |].
  destruct (existsb blocksMovement (Enemy.activeEffects e)); [auto |].
  cbn [Enemy.x Enemy.y Enemy.moveTo]. rewrite Hx, Hy.
  replace (Enemy.x e - Enemy.x e) with 0 by lra.
  replace (Enemy.y e - Enemy.y e) with 0 by lra.
  rewrite hypot_0, orOne_0. split; field.
Qed.

(** ** Enemies and the safe zone *)

(** C2, where the code breaks it.  An alive enemy exactly on the centre of
    the active safe zone is not moved by [_blockFromSafeZone]: the distance 0
    is replaced by 1, and the push along the zero vector leaves it on the
    centre, at distance 0 < radius + enemy radius. *)
Theorem enemy_on_centre_stays {V : Type} (S : State.t) (enemies : list (Enemy.t V))
    (e : Enemy.t V) :
  SafeZone.active (State.safeZone S) = true ->
  In e enemies -> Enemy.alive e = true ->
  Enemy.x e = SafeZone.x (State.safeZone S) ->
  Enemy.y e = SafeZone.y (State.safeZone S) ->
  0 < SafeZone.radius (State.safeZone S) + Enemy.radius e ->
  exists e',
    In e' (_blockFromSafeZone S enemies) /\ Enemy.alive e' = true /\
    Enemy.radius e' = Enemy.radius e /\
    hypot (Enemy.x e' - SafeZone.x (State.safeZone S))
          (Enemy.y e' - SafeZone.y (State.safeZone S))
    < SafeZone.radius (State.safeZone S) + Enemy.radius e'.
Proof.
  intros Hact Hin Ha Hx Hy Hr.
  exists (blockOne (State.safeZone S) e).
  destruct (blockOne_fields (State.safeZone S) e) as (A & _ & R & _).
  split; [| split; [congruence | split; [exact R |]]].
  - unfold _blockFromSafeZone. rewrite Hact. cbn [negb]. apply in_map. exact Hin.
  - rewrite R.
    assert (Hpos : Enemy.x (blockOne (State.safeZone S) e) = SafeZone.x (State.safeZone S) /\
                   Enemy.y (blockOne (State.safeZone S) e) = SafeZone.y (State.safeZone S)).
    { unfold blockOne. rewrite Ha. cbn [negb]. rewrite Hx, Hy.
      replace (SafeZone.x (State.safeZone S) - SafeZone.x (State.safeZone S)) with 0 by lra.
      replace (SafeZone.y (State.safeZone S) - SafeZone.y (State.safeZone S)) with 0 by lra.
      rewrite hypot_0, orOne_0.
      destruct (1 <? _); cbn [Enemy.x Enemy.y Enemy.moveTo]; [split; field | auto]. }
    destruct Hpos as [Px Py]. rewrite Px, Py.
    replace (SafeZone.x (State.safeZone S) - SafeZone.x (State.safeZone S)) with 0 by lra.
    replace (SafeZone.y (State.safeZone S) - SafeZone.y (State.safeZone S)) with 0 by lra.
    rewrite hypot_0. exact Hr.
Qed.

Lemma enemy_on_centre_stays_witness :
  exists e' : Magmawyrm,
    In e' (_blockFromSafeZone (resetState 1) [Enemy.moveTo sampleMagmawyrm 1000 1000]) /\
    Enemy.alive e' = true /\
    Enemy.radius e' = 20 /\
    hypot (Enemy.x e' - 1000) (Enemy.y e' - 1000) < 120 + Enemy.radius e'.
Proof.
  refine (enemy_on_centre_stays (resetState 1) [Enemy.moveTo sampleMagmawyrm 1000 1000]
            (Enemy.moveTo sampleMagmawyrm 1000 1000) eq_refl (or_introl eq_refl) eq_refl
            eq_refl eq_refl _).
  cbn [resetState State.safeZone SafeZone.radius Enemy.radius Enemy.moveTo sampleMagmawyrm].
  lra.
Defined.

(** * Further properties of the helpers *)

(** ** Moving along a direction *)

(** A point at distance [d > 0] in direction [(dx, dy)], moved by [s] along
    that direction, is at distance [|d + s|]. *)
Lemma hypot_shift (dx dy s : R) :
  hypot dx dy <> 0 ->
  hypot (dx + dx / hypot dx dy * s) (dy + dy / hypot dx dy * s) = Rabs (hypot dx dy + s).
Proof.
  intros Hd. pose proof (hypot_sqr dx dy) as Hq.
  set (d := hypot dx dy) in *.
  unfold hypot.
  replace ((dx + dx / d * s) * (dx + dx / d * s) + (dy + dy / d * s) * (dy + dy / d * s))
    with (Rsqr (d + s)).
  - apply sqrt_Rsqr_abs.
  - replace (dx + dx / d * s) with (dx * ((d + s) / d)) by (field; exact Hd).
    replace (dy + dy / d * s) with (dy * ((d + s) / d)) by (field; exact Hd).
    replace (dx * ((d + s) / d) * (dx * ((d + s) / d)) +
             dy * ((d + s) / d) * (dy * ((d + s) / d)))
      with ((dx * dx + dy * dy) * (((d + s) / d) * ((d + s) / d))) by ring.
    rewrite <- Hq. unfold Rsqr. field. exact Hd.
Qed.

Lemma hypot_pos (dx dy : R) : hypot dx dy <> 0 -> 0 < hypot dx dy.
Proof. intros H. pose proof (hypot_nonneg dx dy). lra. Qed.

Lemma orOne_id (d : R) : d <> 0 -> orOne d = d.
Proof. intros H. unfold orOne. apply Reqb_false in H. rewrite H. reflexivity. Qed.

(** X1.  [_chasePlayer]: a frozen enemy, or one under a freeze or stun
    effect, does not move.  Any other enemy moves straight towards the
    player by its speed times the product of its slow multipliers times
    [dt]; when that step does not exceed the distance, the distance to the
    player shrinks by exactly the step. *)
Theorem chase_closes_in {V : Type} (e : Enemy.t V) (p : Player.t) (dt : R) :
  let d := hypot (Player.x p - Enemy.x e) (Player.y p - Enemy.y e) in
  let step := Enemy.speed e * fold_left slowFactor (Enemy.activeEffects e) 1 * dt in
  let e' := _chasePlayer e p dt in
  (Enemy.frozen e = true \/ existsb blocksMovement (Enemy.activeEffects e) = true ->
   e' = e) /\
  (Enemy.frozen e = false -> existsb blocksMovement (Enemy.activeEffects e) = false ->
   d <> 0 -> 0 <= step <= d ->
   hypot (Player.x p - Enemy.x e') (Player.y p - Enemy.y e') = d - step).
Proof.
  intros d step e'. subst e'. split.
  - intros [H | H]; unfold _chasePlayer; rewrite H; [reflexivity |].
    destruct (Enemy.frozen e); reflexivity.
  - intros Hf Hb Hd Hs. unfold _chasePlayer. rewrite Hf, Hb.
    cbn [Enemy.x Enemy.y Enemy.moveTo]. fold d. rewrite (orOne_id d Hd). fold step.
    set (dx := Player.x p - Enemy.x e) in *. set (dy := Player.y p - Enemy.y e) in *.
    replace (Player.x p - (Enemy.x e + dx / d * Enemy.speed e *
               fold_left slowFactor (Enemy.activeEffects e) 1 * dt))
      with (dx + dx / d * (- step)) by (unfold dx, step; field; exact Hd).
    replace (Player.y p - (Enemy.y e + dy / d * Enemy.speed e *
               fold_left slowFactor (Enemy.activeEffects e) 1 * dt))
      with (dy + dy / d * (- step)) by (unfold dy, step; field; exact Hd).
    unfold d. rewrite hypot_shift by exact Hd. fold d.
    rewrite Rabs_pos_eq; lra.
Qed.

Lemma chase_closes_in_witness :
  let e := Enemy.moveTo sampleMagmawyrm 500 900 in
  hypot (Player.x (playerAt 500 1000) - Enemy.x (_chasePlayer e (playerAt 500 1000) 1))
        (Player.y (playerAt 500 1000) - Enemy.y (_chasePlayer e (playerAt 500 1000) 1))
  = 40.
Proof.
  intros e.
  assert (Hd : hypot (Player.x (playerAt 500 1000) - Enemy.x e)
                     (Player.y (playerAt 500 1000) - Enemy.y e) = 100).
  { unfold e, sampleMagmawyrm, playerAt. cbn [Player.x Player.y Enemy.x Enemy.y Enemy.moveTo].
    replace (500 - 500) with 0 by lra. replace (1000 - 900) with 100 by lra.
    unfold hypot. replace (0 * 0 + 100 * 100) with (100 * 100) by lra.
    apply sqrt_square. lra. }
  destruct (chase_closes_in e (playerAt 500 1000) 1) as [_ H].
  rewrite H; rewrite ?Hd; unfold e, sampleMagmawyrm; cbn; try reflexivity; lra.
Defined.

(** X2.  [_blockFromSafeZone]: an alive enemy that is not exactly on the
    centre ends at distance at least [radius + enemy radius] from the centre
    of the active safe zone: exactly that distance if it was closer, and
    where it was otherwise.  Dead enemies are not moved, and an inactive
    zone moves nobody. *)
Theorem block_expels {V : Type} (sz : SafeZone.t) (e : Enemy.t V) :
  let d := hypot (Enemy.x e - SafeZone.x sz) (Enemy.y e - SafeZone.y sz) in
  let minD := SafeZone.radius sz + Enemy.radius e in
  let e' := blockOne sz e in
  (Enemy.alive e = false -> e' = e) /\
  (Enemy.alive e = true -> minD <= d -> e' = e) /\
  (Enemy.alive e = true -> d <> 0 -> d < minD ->
   hypot (Enemy.x e' - SafeZone.x sz) (Enemy.y e' - SafeZone.y sz) = minD) /\
  (forall S l, SafeZone.active (State.safeZone S) = false ->
     _blockFromSafeZone S l = (l : list (Enemy.t V))).
Proof.
  intros d minD e'. subst e'. split; [| split; [| split]].
  - intros H. unfold blockOne. rewrite H. reflexivity.
  - intros Ha Hd. unfold blockOne. rewrite Ha. cbn [negb]. fold d minD.
    pose proof (hypot_nonneg (Enemy.x e - SafeZone.x sz) (Enemy.y e - SafeZone.y sz)) as Hn.
    fold d in Hn.
    replace (orOne d <? minD) with false; [reflexivity |].
    symmetry. reflectR. unfold orOne. destruct (d =? 0) eqn:E; reflectR; [| exact Hd].
    subst minD. rewrite E in Hd.
    destruct (Rle_dec 1 (SafeZone.radius sz + Enemy.radius e)); [| lra].
    exfalso. lra.
  - intros Ha Hd Hlt. unfold blockOne. rewrite Ha. cbn [negb]. fold d minD.
    rewrite (orOne_id d Hd).
    replace (d <? minD) with true by (symmetry; reflectR; exact Hlt).
    cbn [Enemy.x Enemy.y Enemy.moveTo].
    set (dx := Enemy.x e - SafeZone.x sz) in *. set (dy := Enemy.y e - SafeZone.y sz) in *.
    replace (SafeZone.x sz + dx / d * minD - SafeZone.x sz) with (dx / d * minD) by lra.
    replace (SafeZone.y sz + dy / d * minD - SafeZone.y sz) with (dy / d * minD) by lra.
    unfold d. apply hypot_scaled; [exact Hd |].
    pose proof (hypot_pos dx dy Hd). fold d in H. lra.
  - intros S l H. unfold _blockFromSafeZone. rewrite H. reflexivity.
Qed.

Lemma block_expels_witness :
  let sz := SafeZone.mk CENTER_X CENTER_Y 120 0 3 true false in
  let e := Enemy.moveTo sampleMagmawyrm 1000 950 in
  hypot (Enemy.x (blockOne sz e) - SafeZone.x sz) (Enemy.y (blockOne sz e) - SafeZone.y sz)
  = 120 + 20.
Proof.
  intros sz e.
  assert (Hd : hypot (Enemy.x e - SafeZone.x sz) (Enemy.y e - SafeZone.y sz) = 50).
  { unfold e, sz, sampleMagmawyrm, CENTER_X, CENTER_Y.
    cbn [Enemy.x Enemy.y Enemy.moveTo SafeZone.x SafeZone.y].
    replace (1000 - 1000) with 0 by lra. replace (950 - 1000) with (- (50)) by lra.
    unfold hypot. replace (0 * 0 + - (50) * - (50)) with (50 * 50) by lra.
    apply sqrt_square. lra. }
  destruct (block_expels sz e) as (_ & _ & H & _).
  apply H; rewrite ?Hd; unfold e, sz, sampleMagmawyrm; cbn; try reflexivity; lra.
Defined.

(** X3.  [_knockBack]: an entity within reach of the obstacle (and not
    exactly on it) is moved straight away from it, and ends [distance]
    further from it than it was; an entity out of reach is not moved. *)
Theorem knockBack_displaces (x y : R) (obs : Bouncer.t) (entityRadius distance : R) :
  let d := hypot (x - Bouncer.x obs) (y - Bouncer.y obs) in
  let pos' := _knockBack (x, y) obs entityRadius distance in
  (entityRadius + Bouncer.r obs <= d -> pos' = (x, y)) /\
  (d <> 0 -> d < entityRadius + Bouncer.r obs -> 0 <= distance ->
   hypot (fst pos' - Bouncer.x obs) (snd pos' - Bouncer.y obs) = d + distance).
Proof.
  intros d pos'. subst pos'. unfold _knockBack. fold d. split.
  - intros H. pose proof (hypot_nonneg (x - Bouncer.x obs) (y - Bouncer.y obs)) as Hn.
    fold d in Hn.
    replace (orOne d <? entityRadius + Bouncer.r obs) with false; [reflexivity |].
    symmetry. reflectR. unfold orOne. destruct (d =? 0) eqn:E; reflectR; [| exact H].
    rewrite E in H. lra.
  - intros Hd Hlt Hs. rewrite (orOne_id d Hd).
    replace (d <? entityRadius + Bouncer.r obs) with true by (symmetry; reflectR; exact Hlt).
    cbn [fst snd].
    set (dx := x - Bouncer.x obs) in *. set (dy := y - Bouncer.y obs) in *.
    replace (x + dx / d * distance - Bouncer.x obs) with (dx + dx / d * distance)
      by (unfold dx; lra).
    replace (y + dy / d * distance - Bouncer.y obs) with (dy + dy / d * distance)
      by (unfold dy; lra).
    unfold d. rewrite hypot_shift by exact Hd. fold d.
    pose proof (hypot_pos dx dy Hd) as Hp. fold d in Hp.
    rewrite Rabs_pos_eq; lra.
Qed.

Lemma knockBack_displaces_witness :
  let pos' := _knockBack (510, 1500) sampleBouncer 12 40 in
  hypot (fst pos' - 500) (snd pos' - 1500) = 10 + 40.
Proof.
  intros pos'.
  assert (Hd : hypot (510 - Bouncer.x sampleBouncer) (1500 - Bouncer.y sampleBouncer) = 10).
  { unfold sampleBouncer. cbn [Bouncer.x Bouncer.y].
    replace (510 - 500) with 10 by lra. replace (1500 - 1500) with 0 by lra.
    apply hypot_axis. lra. }
  destruct (knockBack_displaces 510 1500 sampleBouncer 12 40) as [_ H].
  cbv zeta in H. rewrite Hd in H.
  apply H; unfold sampleBouncer; cbn; lra.
Defined.

(** X4.  The push of a lava trail or an erupting geyser: a player whose
    circle overlaps the hazard's circle, and who is not exactly on its
    centre, ends at distance [radius + player radius + 1] from the centre,
    clear of the hazard; a player exactly on the centre, or clear of the
    circle, is not moved. *)
Theorem pushOut_clears (cx cy cr : R) (p : Player.t) :
  let d := hypot (Player.x p - cx) (Player.y p - cy) in
  let p' := pushOut cx cy cr p in
  (d = 0 \/ cr + Player.radius p <= d -> p' = p) /\
  (d <> 0 -> d < cr + Player.radius p ->
   hypot (Player.x p' - cx) (Player.y p' - cy) = cr + Player.radius p + 1 /\
   Player.radius p' = Player.radius p /\
   Player.activeEffects p' = Player.activeEffects p).
Proof.
  intros d p'. subst p'. unfold pushOut. fold d. split.
  - intros [H | H].
    + rewrite H. replace (0 >? 0) with false by (symmetry; reflectR; lra).
      rewrite andb_false_r. reflexivity.
    + replace (d <? cr + Player.radius p) with false by (symmetry; reflectR; lra).
      reflexivity.
  - intros Hd Hlt.
    pose proof (hypot_pos _ _ Hd) as Hp. fold d in Hp.
    replace (d <? cr + Player.radius p) with true by (symmetry; reflectR; lra).
    replace (d >? 0) with true by (symmetry; reflectR; lra).
    cbn [andb Player.x Player.y Player.radius Player.activeEffects Player.moveTo].
    split; [| split; reflexivity].
    set (dx := Player.x p - cx) in *. set (dy := Player.y p - cy) in *.
    replace (Player.x p + dx / d * (cr + Player.radius p - d + 1) - cx)
      with (dx + dx / d * (cr + Player.radius p - d + 1)) by (unfold dx; lra).
    replace (Player.y p + dy / d * (cr + Player.radius p - d + 1) - cy)
      with (dy + dy / d * (cr + Player.radius p - d + 1)) by (unfold dy; lra).
    unfold d. rewrite hypot_shift by exact Hd. fold d.
    rewrite Rabs_pos_eq; lra.
Qed.

Lemma pushOut_clears_witness :
  hypot (Player.x (pushOut 500 500 18 (playerAt 510 500)) - 500)
        (Player.y (pushOut 500 500 18 (playerAt 510 500)) - 500) = 18 + 12 + 1.
Proof.
  assert (Hd : hypot (Player.x (playerAt 510 500) - 500) (Player.y (playerAt 510 500) - 500)
               = 10).
  { cbn [playerAt Player.x Player.y].
    replace (510 - 500) with 10 by lra. replace (500 - 500) with 0 by lra.
    apply hypot_axis. lra. }
  destruct (pushOut_clears 500 500 18 (playerAt 510 500)) as [_ H].
  cbv zeta in H. rewrite Hd in H.
  apply H; cbn; lra.
Defined.

(** X5.  A frozen tile resolves its overlap in one push: whatever the
    player's position, after [tilePush] the player's centre is no longer
    strictly inside the tile grown by the player's radius, so a second push
    by the same tile does nothing. *)
Theorem tilePush_resolves (p : Player.t) (t : Tile.t) :
  let p' := tilePush p t in
  ~ (Tile.x t - Player.radius p' < Player.x p' < Tile.x t + Tile.w t + Player.radius p' /\
     Tile.y t - Player.radius p' < Player.y p' < Tile.y t + Tile.h t + Player.radius p') /\
  tilePush p' t = p'.
Proof.
  intros p'.
  assert (Hout : ~ (Tile.x t - Player.radius p' < Player.x p'
                      < Tile.x t + Tile.w t + Player.radius p' /\
                    Tile.y t - Player.radius p' < Player.y p'
                      < Tile.y t + Tile.h t + Player.radius p')).
  { subst p'. unfold tilePush.
    destruct ((Player.x p >? Tile.x t - Player.radius p) &&
              (Player.x p <? Tile.x t + Tile.w t + Player.radius p) &&
              (Player.y p >? Tile.y t - Player.radius p) &&
              (Player.y p <? Tile.y t + Tile.h t + Player.radius p)) eqn:E.
    - apply andb_true_iff in E. destruct E as [E E4].
      apply andb_true_iff in E. destruct E as [E E3].
      apply andb_true_iff in E. destruct E as [E1 E2]. reflectR.
      set (cx := Player.x p - (Tile.x t + Tile.w t / 2)).
      set (cy := Player.y p - (Tile.y t + Tile.h t / 2)).
      assert (Hx : Rabs cx < Tile.w t / 2 + Player.radius p).
      { unfold cx. apply Rabs_def1; lra. }
      assert (Hy : Rabs cy < Tile.h t / 2 + Player.radius p).
      { unfold cy. apply Rabs_def1; lra. }
      replace (Tile.w t / 2 + Player.radius p - Rabs cx >? 0) with true
        by (symmetry; reflectR; lra).
      replace (Tile.h t / 2 + Player.radius p - Rabs cy >? 0) with true
        by (symmetry; reflectR; lra).
      cbn [andb].
      destruct (_ <? _) eqn:Eo.
      + cbn [Player.x Player.y Player.radius Player.moveTo].
        destruct (cx <? 0) eqn:Ec; reflectR.
        * rewrite (Rabs_left cx Ec). unfold cx. lra.
        * rewrite (Rabs_right cx) by lra. unfold cx. lra.
      + cbn [Player.x Player.y Player.radius Player.moveTo].
        destruct (cy <? 0) eqn:Ec; reflectR.
        * rewrite (Rabs_left cy Ec). unfold cy. lra.
        * rewrite (Rabs_right cy) by lra. unfold cy. lra.
    - intros [[A1 A2] [A3 A4]].
      apply andb_false_iff in E. destruct E as [E | E]; [| reflectR; lra].
      apply andb_false_iff in E. destruct E as [E | E]; [| reflectR; lra].
      apply andb_false_iff in E. destruct E as [E | E]; reflectR; lra. }
  split; [exact Hout |].
  unfold tilePush at 1.
  destruct ((Player.x p' >? Tile.x t - Player.radius p') &&
            (Player.x p' <? Tile.x t + Tile.w t + Player.radius p') &&
            (Player.y p' >? Tile.y t - Player.radius p') &&
            (Player.y p' <? Tile.y t + Tile.h t + Player.radius p')) eqn:E; [| reflexivity].
  exfalso. apply Hout.
  apply andb_true_iff in E. destruct E as [E E4].
  apply andb_true_iff in E. destruct E as [E E3].
  apply andb_true_iff in E. destruct E as [E1 E2]. reflectR. lra.
Qed.

(** ** Status effects *)

Lemma tickEffectList_cons dt eff effs :
  tickEffectList dt (eff :: effs) =
  match tickEffect dt eff with
  | Some eff' => eff' :: tickEffectList dt effs
  | None => tickEffectList dt effs
  end.
Proof. reflexivity. Qed.



(** ** The safe zone in closed form *)



(** ** Predicates the zone simulators preserve

    Each simulator maps a predicate on its enemies to itself as soon as the
    steps it is made of do. *)

Lemma Forall_map_same {A : Type} (P : A -> Prop) (f : A -> A) (l : list A) :
  (forall a, P a -> P (f a)) -> Forall P l -> Forall P (map f l).
Proof.
  intros Hf H. induction H as [| a l Ha Hl IH]; [constructor |].
  simpl. constructor; [apply Hf, Ha | exact IH].
Qed.

Section Preserved.
Context {V : Type} (P : Enemy.t V -> Prop).

Lemma tickEffects_Forall (l : list (Enemy.t V)) dt :
  (forall e effs, P e -> P (Enemy.setEffects e effs)) ->
  Forall P l -> Forall P (_tickEffects l dt).
Proof. intros H. apply Forall_map_same. intros e He. apply H, He. Qed.

Lemma blockFromSafeZone_Forall S (l : list (Enemy.t V)) :
  (forall e, P e -> P (blockOne (State.safeZone S) e)) ->
  Forall P l -> Forall P (_blockFromSafeZone S l).
Proof.
  intros H Hl. unfold _blockFromSafeZone. cbv zeta.
  destruct (negb _); [exact Hl |]. apply Forall_map_same; assumption.
Qed.

End Preserved.

(** *** Volcanic *)

Lemma magmaLoop_Forall (P Q : Magmawyrm -> Prop) S dt p a :
  (forall done rest trails e o k, P e ->
     let r := fst (magmaStep S dt p a done rest trails e o k) in
     P (fst (fst r)) /\ Forall Q (snd r)) ->
  forall todo done trails newSplits o k,
  Forall P done -> Forall P todo -> Forall Q newSplits ->
  let r := fst (magmaLoop S dt p a done todo trails newSplits o k) in
  Forall P (fst (fst r)) /\ Forall Q (snd r).
Proof.
  intros Hstep.
  induction todo as [| e rest IH]; intros done trails newSplits o k Hd Ht Hn; cbn zeta.
  - cbn. split; assumption.
  - cbn [magmaLoop]. unfold bind.
    inversion Ht as [| ? ? He Hr]; subst.
    pose proof (Hstep done rest trails e o k He) as Hs. cbv zeta in Hs.
    destruct (magmaStep S dt p a done rest trails e o k) as [[[e' tr'] kids] k'].
    cbn [fst snd] in Hs. destruct Hs as (He' & Hk).
    apply IH.
    + apply Forall_app. split; [exact Hd | constructor; [exact He' | constructor]].
    + exact Hr.
    + apply Forall_app. split; assumption.
Qed.

(** [P] holds of the enemies the loop runs over, [Q] of the children it
    queues and [R] of the list the simulator leaves. *)
Lemma updateVolcanic_Forall (P Q R : Magmawyrm -> Prop) dt p a S o k :
  (forall e, P e -> P (boostSpeed e)) ->
  (forall e effs, P e -> P (Enemy.setEffects e effs)) ->
  (forall done rest trails p' e o k, P e ->
     let r := fst (magmaStep S dt p' a done rest trails e o k) in
     P (fst (fst r)) /\ Forall Q (snd r)) ->
  (forall e, P e -> Enemy.alive e = true -> R e) ->
  (forall e, Q e -> R e) ->
  (forall e, R e -> R (blockOne (State.safeZone S) e)) ->
  Forall P (Volcanic.enemies (State.volcanic S)) ->
  Forall R (Volcanic.enemies (State.volcanic (fst (fst (_updateVolcanic dt p a S o k))))).
Proof.
  intros Hboost Heff Hstep HPR HQR Hblock H0. unfold _updateVolcanic.
  set (v := State.volcanic S) in *.
  assert (H1 : exists st en0,
            (let '(speedTimer, enemies) :=
               if Volcanic.speedTimer v + dt >=? 5
               then (Volcanic.speedTimer v + dt - 5, map boostSpeed (Volcanic.enemies v))
               else (Volcanic.speedTimer v + dt, Volcanic.enemies v) in
             (speedTimer, enemies)) = (st, en0) /\ Forall P en0).
  { destruct (_ >=? 5).
    - eexists; eexists; split; [reflexivity |]. apply Forall_map_same; assumption.
    - eexists; eexists; split; [reflexivity | exact H0]. }
  destruct H1 as (st & en0 & E0 & K0).
  destruct (if Volcanic.speedTimer v + dt >=? 5
            then (Volcanic.speedTimer v + dt - 5, map boostSpeed (Volcanic.enemies v))
            else (Volcanic.speedTimer v + dt, Volcanic.enemies v)) as [st' en0'].
  injection E0 as -> ->.
  destruct (fold_left (geyserStep dt) _ _) as [geysers p'].
  unfold bind.
  pose proof (tickEffects_Forall P en0 dt Heff K0) as T.
  match goal with |- context [magmaLoop ?S ?dt ?q ?a [] ?todo ?tr [] o k] =>
    pose proof (magmaLoop_Forall P Q S dt q a
                  (fun done rest trails => Hstep done rest trails q)
                  todo [] tr [] o k (Forall_nil _) T (Forall_nil _)) as L;
    destruct (magmaLoop S dt q a [] todo tr [] o k) as [[[en1 tr1] kids] k1]
  end.
  cbv zeta in L. cbn [fst snd] in L. destruct L as (L1 & L2).
  unfold ret. cbn [fst State.volcanic State.setVolcanic Volcanic.enemies].
  apply blockFromSafeZone_Forall; [exact Hblock |].
  apply Forall_app. split.
  - apply Forall_forall. intros e He. apply filter_In in He. destruct He as [He Ha].
    rewrite Forall_forall in L1. apply HPR; [apply L1, He | exact Ha].
  - apply Forall_forall. intros e He. rewrite Forall_forall in L2. apply HQR, L2, He.
Qed.

(** *** Glacial *)

Lemma frostLoop_Forall (P : Frostwyrm -> Prop) dt p :
  (forall acc e o k, P e -> P (snd (fst (expandStep dt acc e o k)))) ->
  forall l acc done o k,
  Forall P done -> Forall P l ->
  Forall P (snd (fst (foldR (frostStep dt p) l (acc, done) o k))).
Proof.
  intros Hexp. induction l as [| e l IH]; intros acc done o k Hd Hl; cbn [foldR].
  - exact Hd.
  - unfold bind. inversion Hl as [| ? ? He Hr]; subst.
    assert (Hs : exists acc' e', fst (frostStep dt p (acc, done) e o k) = (acc', done ++ [e'])
                                 /\ P e').
    { unfold frostStep. destruct (negb (Enemy.alive e) || Enemy.frozen e).
      - eexists; eexists; split; [reflexivity | exact He].
      - unfold bind. pose proof (Hexp acc e o k He) as H.
        destruct (expandStep dt acc e o k) as [[a' e'] k']. cbn [fst snd] in H.
        eexists; eexists; split; [reflexivity | exact H]. }
    destruct Hs as (acc' & e' & Es & He').
    destruct (frostStep dt p (acc, done) e o k) as [[acc1 done1] k1].
    cbn [fst] in Es. injection Es as -> ->.
    apply IH; [| exact Hr].
    apply Forall_app. split; [exact Hd | constructor; [exact He' | constructor]].
Qed.

Lemma updateGlacial_Forall (P : Frostwyrm -> Prop) dt p S o k :
  (forall e effs, P e -> P (Enemy.setEffects e effs)) ->
  (forall acc e o k, P e -> P (snd (fst (expandStep dt acc e o k)))) ->
  (forall e, P e -> P (blockOne (State.safeZone S) e)) ->
  Forall P (Glacial.enemies (State.glacial S)) ->
  Forall P (Glacial.enemies (State.glacial (fst (fst (_updateGlacial dt p S o k))))).
Proof.
  intros Heff Hexp Hblock H0. unfold _updateGlacial, bind.
  pose proof (tickEffects_Forall P _ dt Heff H0) as T.
  match goal with |- context [foldR ?f ?l (?a, []) o k] =>
    pose proof (frostLoop_Forall P dt p Hexp l a [] o k (Forall_nil _) T) as H;
    destruct (foldR f l (a, []) o k) as [[acc en] k1]
  end.
  cbn [fst snd] in H.
  destruct (fold_left (bulletStep dt) _ _) as [bs p'].
  unfold ret. cbn [fst State.glacial State.setGlacial Glacial.enemies].
  apply blockFromSafeZone_Forall; assumption.
Qed.

(** *** Canopy *)

Lemma spawnThornwyrm_Forall (P : Thornwyrm -> Prop) S o k :
  (forall rx ry, 0 <= rx < 1 -> 0 <= ry < 1 ->
     P (Enemy.setFrozen
          (makeThornwyrm S (Zone.x ZONES.canopy + 120 + rx * (Zone.w ZONES.canopy - 240))
                           (Zone.y ZONES.canopy + 120 + ry * (Zone.h ZONES.canopy - 240)))
          (negb (State.playerMoved S)))) ->
  Forall P (Canopy.enemies (State.canopy S)) ->
  Forall P (Canopy.enemies (State.canopy (fst (_spawnThornwyrm S o k)))).
Proof.
  intros Hspawn H. unfold _spawnThornwyrm.
  destruct (MAX_PER_ZONE <=? _)%nat; [exact H |].
  unfold bind, random, ret.
  cbn [fst State.canopy State.setCanopy setCanopyEnemies Canopy.enemies].
  apply Forall_app. split; [exact H |].
  constructor; [| constructor]. apply Hspawn; apply Oracle.draw_range.
Qed.

Lemma updateCanopy_Forall (P : Thornwyrm -> Prop) dt p S o k :
  (forall S0 rx ry, 0 <= rx < 1 -> 0 <= ry < 1 ->
     State.playerMoved S0 = State.playerMoved S ->
     State.speedMult S0 = State.speedMult S ->
     P (Enemy.setFrozen
          (makeThornwyrm S0 (Zone.x ZONES.canopy + 120 + rx * (Zone.w ZONES.canopy - 240))
                            (Zone.y ZONES.canopy + 120 + ry * (Zone.h ZONES.canopy - 240)))
          (negb (State.playerMoved S0)))) ->
  (forall range e, P e -> P (setTeleportRange range e)) ->
  (forall e effs, P e -> P (Enemy.setEffects e effs)) ->
  (forall e, P e -> P (thornStep dt p e)) ->
  (forall e, P e -> P (blockOne (State.safeZone S) e)) ->
  Forall P (Canopy.enemies (State.canopy S)) ->
  Forall P (Canopy.enemies (State.canopy (fst (fst (_updateCanopy dt p S o k))))).
Proof.
  intros Hspawn Hrange Heff Hstep Hblock H0. unfold _updateCanopy, bind.
  assert (H1 : Forall P (Canopy.enemies (State.canopy (fst (canopyMultiply dt p S o k))))).
  { unfold canopyMultiply. destruct (negb _ && _); [| exact H0].
    apply spawnThornwyrm_Forall; [| exact H0].
    intros rx ry Hx Hy. apply Hspawn; try assumption; reflexivity. }
  pose proof (canopyMultiply_only dt p S o k) as O1.
  destruct (canopyMultiply dt p S o k) as [S1 k1]. cbn [fst] in H1, O1.
  assert (H1' : Forall P (Canopy.enemies (State.canopy (canopyTeleport dt S1)))).
  { unfold canopyTeleport. destruct (_ >=? 5); [| exact H1].
    cbn [State.canopy State.setCanopy setCanopyEnemies Canopy.enemies].
    apply Forall_map_same; [apply Hrange | exact H1]. }
  pose proof (canopyTeleport_only dt S1) as O1'.
  pose proof (canopyEscalate_enemies dt (canopyTeleport dt S1) o k1) as H2.
  pose proof (canopyEscalate_only dt (canopyTeleport dt S1) o k1) as O2.
  destruct (canopyEscalate dt (canopyTeleport dt S1) o k1) as [S2 k2]. cbn [fst] in H2, O2.
  pose proof (canopyJolt_enemies dt S2 o k2) as H3.
  pose proof (canopyJolt_only dt S2 o k2) as O3.
  destruct (canopyJolt dt S2 o k2) as [S3 k3]. cbn [fst] in H3, O3.
  unfold ret. cbn [fst State.canopy State.setCanopy setCanopyEnemies Canopy.enemies].
  assert (Hsz : State.safeZone (canopyEnemies dt p S3) = State.safeZone S).
  { pose proof (canopyEnemies_only dt p S3) as O4.
    rewrite O4, O3, O2, O1', O1. reflexivity. }
  apply blockFromSafeZone_Forall; [rewrite Hsz; exact Hblock |].
  unfold canopyEnemies.
  cbn [State.canopy State.setCanopy setCanopyEnemies setCanopyEgg Canopy.enemies].
  apply Forall_map_same; [exact Hstep |].
  apply tickEffects_Forall; [exact Heff |].
  rewrite H3, H2. exact H1'.
Qed.

(** *** Reef *)

Lemma schoolLoop_Forall (P : Tidewyrm -> Prop) dt r n :
  (forall i e, P e -> P (tideStep dt r n i e)) ->
  forall l i, Forall P l -> Forall P (schoolLoop dt r n i l).
Proof.
  intros Hstep. induction l as [| e l IH]; intros i Hl; [constructor |].
  inversion Hl as [| ? ? He Hr]; subst. cbn [schoolLoop].
  destruct (inSchool e); constructor; auto.
Qed.

Lemma bouncerLoop_Forall (P : Tidewyrm -> Prop) dt :
  (forall obs e, P e -> P (knockBackEnemy obs e)) ->
  forall obs acc, Forall P (snd acc) ->
  Forall P (snd (fold_left (bouncerStep dt) obs acc)).
Proof.
  intros Hk. induction obs as [| ob obs IH]; intros acc Ha; [exact Ha |].
  cbn [fold_left]. apply IH.
  destruct acc as [[done q] en]. unfold bouncerStep.
  repeat match goal with
  | |- context [let '(_, _) := ?c in _] => destruct c
  end.
  cbn [snd] in *. apply Forall_map_same; [apply Hk | exact Ha].
Qed.

Lemma updateReef_Forall (P : Tidewyrm -> Prop) dt p S o k :
  (forall rx ry ro, 0 <= rx < 1 -> 0 <= ry < 1 ->
     P (Enemy.setFrozen
          (makeTidewyrm S (Zone.x ZONES.reef + 150 + rx * (Zone.w ZONES.reef - 300))
                          (Zone.y ZONES.reef + 150 + ry * (Zone.h ZONES.reef - 300))
                          (ro * PI * 2))
          false)) ->
  (forall e effs, P e -> P (Enemy.setEffects e effs)) ->
  (forall r n i e, P e -> P (tideStep dt r n i e)) ->
  (forall obs e, P e -> P (knockBackEnemy obs e)) ->
  (forall e, P e -> P (blockOne (State.safeZone S) e)) ->
  Forall P (Reef.enemies (State.reef S)) ->
  Forall P (Reef.enemies (State.reef (fst (fst (_updateReef dt p S o k))))).
Proof.
  intros Hspawn Heff Hstep Hknock Hblock H0. unfold _updateReef, bind.
  assert (H1 : Forall P (Reef.enemies (State.reef (fst (reefMultiply dt S o k))))).
  { unfold reefMultiply. destruct (_ >=? 10); [| exact H0].
    destruct (_ <? MAX_PER_ZONE)%nat; [| exact H0].
    unfold bind, random, ret.
    cbn [fst State.reef State.setReef setReefEnemies Reef.enemies].
    apply Forall_app. split; [exact H0 |]. constructor; [| constructor].
    apply Hspawn; apply Oracle.draw_range. }
  pose proof (reefMultiply_only dt S o k) as O1.
  destruct (reefMultiply dt S o k) as [S1 k1]. cbn [fst] in H1, O1.
  assert (H2 : Forall P (Reef.enemies (State.reef (reefSchool dt S1)))).
  { unfold reefSchool. destruct (_ >=? 5);
      cbn [State.reef State.setReef setReefEnemies Reef.enemies];
      (apply schoolLoop_Forall; [apply Hstep |]);
      (apply tickEffects_Forall; [exact Heff | exact H1]). }
  pose proof (reefSchool_only dt S1) as O2.
  match goal with |- context [fold_left (bouncerStep dt) ?obs (?d, ?q, ?en)] =>
    pose proof (bouncerLoop_Forall P dt Hknock obs (d, q, en) H2) as H3;
    destruct (fold_left (bouncerStep dt) obs (d, q, en)) as [[obs' p'] en']
  end.
  cbn [snd] in H3. unfold ret.
  cbn [fst State.reef State.setReef setReefEnemies setReefEgg setReefObstacles Reef.enemies].
  apply blockFromSafeZone_Forall; [| exact H3].
  rewrite O2, O1. exact Hblock.
Qed.

(** ** The enemies of [init] *)

Lemma initState_zoneEnemies (PV : Magmawyrm -> Prop) (PG : Frostwyrm -> Prop)
    (PC : Thornwyrm -> Prop) (PR : Tidewyrm -> Prop) level o :
  PV (makeMagmawyrm (resetState level) (50 + 900 / 2) (50 + 900 / 2) None None) ->
  PG (makeFrostwyrm (resetState level) (1050 + 900 / 2) (50 + 900 / 2)) ->
  (forall S0 rx ry, 0 <= rx < 1 -> 0 <= ry < 1 -> State.playerMoved S0 = false ->
     PC (Enemy.setFrozen
           (makeThornwyrm S0 (Zone.x ZONES.canopy + 120 + rx * (Zone.w ZONES.canopy - 240))
                             (Zone.y ZONES.canopy + 120 + ry * (Zone.h ZONES.canopy - 240)))
           (negb (State.playerMoved S0)))) ->
  (forall S0 rx ry wo, 0 <= rx < 1 -> 0 <= ry < 1 ->
     PR (makeTidewyrm S0 (Zone.x ZONES.reef + 200 + rx * (Zone.w ZONES.reef - 400))
                         (Zone.y ZONES.reef + 200 + ry * (Zone.h ZONES.reef - 400)) wo)) ->
  zoneEnemies PV PG PC PR (initState level o).
Proof.
  intros HV HG HC HR.
  destruct (initState_zones level o) as (S1 & k1 & S3 & k3 & E1 & E3 & V & G & C & R).
  pose proof (initVolcanic_only (resetState level) o 0%nat) as O1. rewrite E1 in O1.
  cbn [fst] in O1.
  pose proof (initCanopy_only (_initGlacial S1) o k1) as O3. rewrite E3 in O3.
  cbn [fst] in O3.
  destruct (onlyVolcanic_others _ _ O1) as (_ & C1 & R1).
  destruct (onlyVolcanic_header _ _ O1) as (_ & M1 & _).
  destruct (onlyCanopy_others _ _ O3) as (_ & _ & R3).
  unfold zoneEnemies. split; [| split; [| split]].
  - rewrite initState_volcanic. cbn [Volcanic.enemies]. constructor; [exact HV | constructor].
  - rewrite initState_glacial_enemies. constructor; [exact HG | constructor].
  - rewrite C. unfold _initCanopy, bind in E3.
    pose proof (repeatR_inv
                  (fun T => Forall PC (Canopy.enemies (State.canopy T)) /\
                            State.playerMoved T = false)
                  _spawnThornwyrm) as I.
    specialize (I (fun a o k Ha =>
                     conj (spawnThornwyrm_Forall PC a o k
                             (fun rx ry Hx Hy => HC a rx ry Hx Hy (proj2 Ha)) (proj1 Ha))
                          (eq_trans
                             (proj1 (proj2 (onlyCanopy_header _ _ (spawnThornwyrm_only a o k))))
                             (proj2 Ha)))).
    specialize (I 2%nat (_initGlacial S1) o k1).
    destruct (repeatR 2 _spawnThornwyrm (_initGlacial S1) o k1) as [T1 j1].
    pose proof (addCanopyObstacles_enemies 5 T1 o j1) as A.
    destruct (_addCanopyObstacles 5 T1 o j1) as [T2 j2].
    pose proof (assignCanopyEgg_enemies T2 o j2) as A2. rewrite E3 in A2.
    cbn [fst] in *. rewrite A2, A. apply I. split.
    + cbn [_initGlacial State.canopy State.setGlacial]. rewrite C1. constructor.
    + cbn [_initGlacial State.playerMoved State.setGlacial]. rewrite M1. reflexivity.
  - rewrite R. unfold _initReef, bind.
    match goal with |- context [foldR ?f ?l S3 o k3] =>
      pose proof (foldR_inv (fun T => Forall PR (Reef.enemies (State.reef T))) f) as I1;
      assert (I1' : Forall PR (Reef.enemies (State.reef (fst (foldR f l S3 o k3)))));
      [apply I1 | destruct (foldR f l S3 o k3) as [T1 j1]]
    end.
    + intros a b o' k' Ha. unfold bind, random, ret.
      cbn [fst State.reef State.setReef setReefEnemies Reef.enemies].
      apply Forall_app. split; [exact Ha |]. constructor; [| constructor].
      apply HR; apply Oracle.draw_range.
    + rewrite R3. cbn [_initGlacial State.reef State.setGlacial]. rewrite R1. constructor.
    + cbn [fst] in I1'.
      match goal with |- context [repeatR 4 ?f T1 o j1] =>
        pose proof (repeatR_inv (fun T => Forall PR (Reef.enemies (State.reef T))) f) as I2;
        assert (I2' : Forall PR (Reef.enemies (State.reef (fst (repeatR 4 f T1 o j1)))));
        [apply I2; [| exact I1'] | destruct (repeatR 4 f T1 o j1) as [T2 j2]]
      end.
      * intros a o' k' Ha. unfold bind, random, ret.
        cbn [fst State.reef State.setReef setReefObstacles Reef.enemies]. exact Ha.
      * cbn [fst] in I2'. unfold random, ret.
        cbn [fst State.reef State.setReef setReefEgg Reef.enemies]. exact I2'.
Qed.

(** ** The [frozen] flags follow the freeze gate *)

Lemma magmaStep_flags S dt p a done rest trails e o k :
  let r := fst (magmaStep S dt p a done rest trails e o k) in
  Enemy.frozen (fst (fst r)) = Enemy.frozen e /\
  Forall (fun c : Magmawyrm => Enemy.alive c = true /\ Enemy.frozen c = false) (snd r).
Proof.
  cbv zeta. unfold magmaStep.
  destruct (negb (Enemy.alive e) || Enemy.frozen e); [split; [reflexivity | constructor] |].
  destruct (chasePlayer_fields e p dt) as (_ & Cf & _).
  assert (K : forall m o k,
            Enemy.alive (fst (spawnChild S m o k)) = true /\
            Enemy.frozen (fst (spawnChild S m o k)) = false)
    by (intros; split; reflexivity).
  destruct (_ >=? 0.3);
    (destruct (a && splits p _);
     [ destruct (_ <=? MAX_PER_ZONE)%nat;
       [ unfold bind;
         match goal with |- context [spawnChild S ?m o k] =>
           pose proof (K m o k) as K1; destruct (spawnChild S m o k) as [c1 k1];
           pose proof (K m o k1) as K2; destruct (spawnChild S m o k1) as [c2 k2]
         end;
         cbn [fst snd ret] in *;
         split; [exact Cf | constructor; [exact K1 | constructor; [exact K2 | constructor]]]
       | cbn [fst snd ret]; split; [exact Cf | constructor] ]
     | cbn [fst snd ret]; split; [exact Cf | constructor] ]).
Qed.

Lemma expandStep_frozen dt acc e o k :
  Enemy.frozen (snd (fst (expandStep dt acc e o k))) = Enemy.frozen e.
Proof. unfold expandStep. destruct (_ >=? 1.5); reflexivity. Qed.

Lemma thornStep_frozen dt p e : Enemy.frozen (thornStep dt p e) = Enemy.frozen e.
Proof.
  unfold thornStep. destruct (negb (Enemy.alive e) || Enemy.frozen e); [reflexivity |].
  cbn [Enemy.frozen Enemy.moveTo].
  repeat match goal with
  | |- context [if ?c then _ else _] => destruct c
  end; cbn; rewrite ?(proj1 (proj2 (chasePlayer_fields _ _ _))); reflexivity.
Qed.

Lemma tideStep_frozen dt r n i e : Enemy.frozen (tideStep dt r n i e) = Enemy.frozen e.
Proof.
  unfold tideStep.
  repeat match goal with
  | |- context [if ?c then _ else _] => destruct c
  end; reflexivity.
Qed.

Lemma knockBackEnemy_frozen {V : Type} obs (e : Enemy.t V) :
  Enemy.frozen (knockBackEnemy obs e) = Enemy.frozen e.
Proof.
  unfold knockBackEnemy. destruct (Enemy.alive e); [| reflexivity].
  destruct (_knockBack _ _ _ _). reflexivity.
Qed.

Lemma blockOne_frozen {V : Type} sz (e : Enemy.t V) :
  Enemy.frozen (blockOne sz e) = Enemy.frozen e.
Proof. apply blockOne_fields. Qed.

(** Once the player has moved, the zone simulators leave every enemy
    unfrozen. *)
Lemma updateZones_thawed dt p a S o k :
  State.playerMoved S = true ->
  allEnemies (frozenAs false) S ->
  allEnemies (frozenAs false) (fst (fst (updateZones dt p a S o k))).
Proof.
  intros Hm (V & G & C & R).
  destruct (updateZones_split dt p a S o k)
    as (p1 & p2 & p3 & k1 & k2 & k3 & S1 & S2 & S3 &
        E1 & V1 & E2 & G1 & G2 & E3 & C2 & C3 & R3 & R4 & Z1 & Z2 & Z3 & M2 & M3 & _).
  unfold allEnemies, zoneEnemies, frozenAs in *. rewrite V1, G2, C3, R4.
  split; [| split; [| split]].
  - rewrite E1.
    apply (updateVolcanic_Forall (fun e => Enemy.frozen e = false)
             (fun e => Enemy.frozen e = false) (fun e => Enemy.frozen e = false)).
    + intros e He. exact He.
    + intros e effs He. exact He.
    + intros done rest trails p' e o' k' He.
      destruct (magmaStep_flags S dt p' a done rest trails e o' k') as [F K].
      cbv zeta. split; [rewrite F; exact He |].
      eapply Forall_impl; [| exact K]. intros c Hc. apply Hc.
    + intros e He _. exact He.
    + intros e He. exact He.
    + intros e He. rewrite blockOne_frozen. exact He.
    + exact V.
  - rewrite E2. apply updateGlacial_Forall.
    + intros e effs He. exact He.
    + intros acc e o' k' He. rewrite expandStep_frozen. exact He.
    + intros e He. rewrite blockOne_frozen. exact He.
    + rewrite G1. exact G.
  - rewrite E3. apply updateCanopy_Forall.
    + intros S0 rx ry _ _ Hm0 _. cbn. rewrite Hm0, M2, Hm. reflexivity.
    + intros range e He. exact He.
    + intros e effs He. exact He.
    + intros e He. rewrite thornStep_frozen. exact He.
    + intros e He. rewrite blockOne_frozen. exact He.
    + rewrite C2. exact C.
  - apply updateReef_Forall.
    + intros. reflexivity.
    + intros e effs He. exact He.
    + intros r n i e He. rewrite tideStep_frozen. exact He.
    + intros obs e He. rewrite knockBackEnemy_frozen. exact He.
    + intros e He. rewrite blockOne_frozen. exact He.
    + rewrite R3. exact R.
Qed.

Lemma unfreezeAll_thawed S : allEnemies (frozenAs false) (_unfreezeAll S).
Proof.
  unfold allEnemies, zoneEnemies, _unfreezeAll, frozenAs.
  cbn [State.volcanic State.glacial State.canopy State.reef Volcanic.enemies Glacial.enemies
       setCanopyEnemies setReefEnemies Canopy.enemies Reef.enemies].
  repeat split; apply Forall_forall; intros e He; apply in_map_iff in He;
    destruct He as (e0 & <- & _); reflexivity.
Qed.

Lemma enterFrame_gate dt p S :
  allEnemies (frozenAs (negb (State.playerMoved S))) S ->
  allEnemies (frozenAs (negb (State.playerMoved (fst (enterFrame dt p S)))))
    (fst (enterFrame dt p S)).
Proof.
  intros H. unfold enterFrame, _updateSafeZone, detectMovement.
  cbn [fst State.playerMoved].
  destruct (State.playerMoved S) eqn:Hm; cbn [negb].
  - cbn [State.playerMoved State.setSafeZone]. exact H.
  - destruct (playerDisplaced _ _).
    + cbn [State.playerMoved State.setSafeZone _unfreezeAll negb].
      apply (unfreezeAll_thawed
               (State.mk (State.level S) (State.speedMult S) (State.time S + dt) true
                  (State.prevPX S) (State.prevPY S) (State.prevAbilityCooldown S)
                  (State.safeZone S) (State.volcanic S) (State.glacial S) (State.canopy S)
                  (State.reef S))).
    + cbn [State.playerMoved State.setSafeZone]. exact H.
Qed.

Lemma frame_gate S f :
  allEnemies (frozenAs (negb (State.playerMoved S))) S ->
  allEnemies (frozenAs (negb (State.playerMoved (frame S f)))) (frame S f).
Proof.
  intros H. rewrite frame_unfold. cbv zeta.
  pose proof (enterFrame_gate (Frame.dt f) (Frame.player f) S H) as H1.
  set (S1 := fst (enterFrame (Frame.dt f) (Frame.player f) S)) in *.
  destruct (State.playerMoved S1) eqn:Hm.
  - pose proof (updateZones_thawed (Frame.dt f) (Frame.player f)
                  (snd (enterFrame (Frame.dt f) (Frame.player f) S)) S1
                  (Frame.oracle f) 0%nat Hm H1) as H2.
    destruct (updateZones_safeZone (Frame.dt f) (Frame.player f)
                (snd (enterFrame (Frame.dt f) (Frame.player f) S)) S1
                (Frame.oracle f) 0%nat) as [_ M].
    unfold advanceVisualPhases. cbn [State.playerMoved]. rewrite M, Hm. exact H2.
  - unfold advanceVisualPhases. cbn [State.playerMoved]. rewrite Hm. exact H1.
Qed.

(** X8.  In every state of a level, the [frozen] flag of every enemy of
    the four zones is the negation of [playerMoved]: all enemies are frozen
    until the first movement and none is afterwards, whatever was spawned in
    between. *)
Theorem frozen_follows_gate (level : Z) (o : Oracle.t) (frames : list Frame.t) :
  let S := run (initState level o) frames in
  allEnemies (frozenAs (negb (State.playerMoved S))) S.
Proof.
  cbv zeta.
  assert (H0 : allEnemies (frozenAs (negb (State.playerMoved (initState level o))))
                 (initState level o)).
  { destruct (initState_header level o) as (_ & M & _). rewrite M. cbn [negb].
    apply initState_zoneEnemies; try reflexivity.
    intros S0 rx ry _ _ Hm. unfold frozenAs. cbn. rewrite Hm. reflexivity. }
  revert H0. generalize (initState level o).
  induction frames as [| f frames IH]; intros S H; [exact H |].
  rewrite run_cons. apply IH, frame_gate, H.
Qed.

(** ** Invariants of a level *)

(** A predicate that the three parts of a frame preserve holds along a
    level. *)
Lemma frame_inv (I : State.t -> Prop) :
  (forall dt p S, I S -> I (fst (enterFrame dt p S))) ->
  (forall dt p a S o k, State.playerMoved S = true -> I S ->
     I (fst (fst (updateZones dt p a S o k)))) ->
  (forall dt S, I S -> I (advanceVisualPhases dt S)) ->
  forall S f, I S -> I (frame S f).
Proof.
  intros He Hz Ha S f H. rewrite frame_unfold. cbv zeta. apply Ha.
  pose proof (He (Frame.dt f) (Frame.player f) S H) as H1.
  destruct (State.playerMoved _) eqn:Hm; [| exact H1].
  apply Hz; assumption.
Qed.

Lemma run_inv (I : State.t -> Prop) :
  (forall S f, I S -> I (frame S f)) ->
  forall frames S, I S -> I (run S frames).
Proof.
  intros Hf. induction frames as [| f frames IH]; intros S H; [exact H |].
  rewrite run_cons. apply IH, Hf, H.
Qed.

(** The head of [update] leaves the enemies as they are, or thaws them. *)
Lemma enterFrame_zoneEnemies (PV : Magmawyrm -> Prop) (PG : Frostwyrm -> Prop)
    (PC : Thornwyrm -> Prop) (PR : Tidewyrm -> Prop) dt p S :
  (forall e, PV e -> PV (Enemy.setFrozen e false)) ->
  (forall e, PG e -> PG (Enemy.setFrozen e false)) ->
  (forall e, PC e -> PC (Enemy.setFrozen e false)) ->
  (forall e, PR e -> PR (Enemy.setFrozen e false)) ->
  zoneEnemies PV PG PC PR S -> zoneEnemies PV PG PC PR (fst (enterFrame dt p S)).
Proof.
  intros HV HG HC HR H. unfold enterFrame, _updateSafeZone, detectMovement.
  cbn [fst State.playerMoved].
  destruct (negb (State.playerMoved S)); [| exact H].
  destruct (playerDisplaced _ _); [| exact H].
  destruct H as (V & G & C & R).
  unfold zoneEnemies, _unfreezeAll.
  cbn [State.volcanic State.glacial State.canopy State.reef Volcanic.enemies Glacial.enemies
       setCanopyEnemies setReefEnemies Canopy.enemies Reef.enemies State.setSafeZone].
  repeat split; apply Forall_map_same; assumption.
Qed.

Lemma enterFrame_lengths dt p S :
  length (Volcanic.enemies (State.volcanic (fst (enterFrame dt p S)))) =
    length (Volcanic.enemies (State.volcanic S)).
Proof.
  unfold enterFrame, _updateSafeZone, detectMovement.
  cbn [fst State.playerMoved].
  destruct (negb (State.playerMoved S)); [| reflexivity].
  destruct (playerDisplaced _ _); [| reflexivity].
  unfold _unfreezeAll. cbn [State.volcanic Volcanic.enemies State.setSafeZone].
  apply length_map.
Qed.

(** ** The Volcanic list never shrinks *)

Lemma aliveCount_all {V : Type} (l : list (Enemy.t V)) :
  Forall (fun e => Enemy.alive e = true) l -> _aliveCount l = length l.
Proof.
  intros H. induction H as [| e l He Hl IH]; [reflexivity |].
  rewrite aliveCount_cons, He, IH. reflexivity.
Qed.

(** Under the budget of [capInv] the cap never stops a split: an enemy the
    loop passes leaves itself or two children behind. *)
Lemma magmaStep_grows S dt p a done rest trails e o k :
  (_aliveCount done + _aliveCount rest <= 4)%nat ->
  Enemy.alive e = true ->
  let r := fst (magmaStep S dt p a done rest trails e o k) in
  (1 <= (if Enemy.alive (fst (fst r)) then 1 else 0) + length (snd r))%nat.
Proof.
  intros Hb Ha. cbv zeta.
  destruct (Enemy.frozen e) eqn:Hf.
  { rewrite magmaStep_skips by (right; exact Hf). cbn. rewrite Ha. lia. }
  pose proof (magmaStep_cases S dt p a done rest trails e o k Ha Hf) as H. cbv zeta in H.
  destruct H as [Hyes Hno].
  set (d := hypot (Player.x p - Enemy.x (_chasePlayer e p dt))
                  (Player.y p - Enemy.y (_chasePlayer e p dt))) in *.
  assert (Hdec : (a = true /\ d <= 200 /\ 0.4 < Magma.sizeMult (Enemy.ext e)) \/
                 ~ (a = true /\ d <= 200 /\ 0.4 < Magma.sizeMult (Enemy.ext e))).
  { destruct a; [| right; intros (X & _); discriminate].
    destruct (Rle_dec d 200); [| right; tauto].
    destruct (Rlt_dec 0.4 (Magma.sizeMult (Enemy.ext e))); [left; auto | right; tauto]. }
  destruct Hdec as [Hc | Hc].
  - destruct (Hyes Hc) as (_ & _ & Hk2 & _).
    destruct Hk2 as (c1 & c2 & E & _); [unfold MAX_PER_ZONE; lia |].
    rewrite E. simpl. lia.
  - destruct (Hno Hc) as (Hl & _). rewrite Hl. lia.
Qed.

Lemma magmaLoop_grows S dt p a todo : forall done trails newSplits o k,
  Forall knownSize done -> Forall knownSize todo -> Forall knownSize newSplits ->
  (budget done + budget todo + budget newSplits <= 4)%nat ->
  Forall (fun e : Magmawyrm => Enemy.alive e = true) todo ->
  let r := fst (magmaLoop S dt p a done todo trails newSplits o k) in
  (_aliveCount done + length newSplits + length todo <=
   _aliveCount (fst (fst r)) + length (snd r))%nat.
Proof.
  induction todo as [| e rest IH]; intros done trails newSplits o k Hd Ht Hn Hb Hal;
    cbn zeta.
  - simpl. lia.
  - cbn [magmaLoop]. unfold bind.
    inversion Ht as [| ? ? He Hr]; subst.
    inversion Hal as [| ? ? Ha Har]; subst.
    cbn [budget] in Hb.
    pose proof (aliveCount_le_budget done) as B1.
    pose proof (aliveCount_le_budget rest) as B2.
    pose proof (magmaStep_budget S dt p a done rest trails e o k He) as Hs.
    pose proof (magmaStep_grows S dt p a done rest trails e o k ltac:(lia) Ha) as Hg.
    cbv zeta in Hs, Hg.
    destruct (magmaStep S dt p a done rest trails e o k) as [[[e' tr'] kids] k'].
    cbn [fst snd] in Hs, Hg. destruct Hs as (He' & Hk & Hc).
    specialize (IH (done ++ [e']) tr' (newSplits ++ kids) o k').
    cbv zeta in IH.
    assert (I : (_aliveCount (done ++ [e']) + length (newSplits ++ kids) + length rest <=
                 _aliveCount
                   (fst (fst (fst (magmaLoop S dt p a (done ++ [e']) rest tr'
                                      (newSplits ++ kids) o k')))) +
                 length (snd (fst (magmaLoop S dt p a (done ++ [e']) rest tr'
                                      (newSplits ++ kids) o k'))))%nat).
    { apply IH.
      - apply Forall_app. split; [exact Hd | constructor; [exact He' | constructor]].
      - exact Hr.
      - apply Forall_app. split; assumption.
      - rewrite !budget_app. cbn [budget]. lia.
      - exact Har. }
    rewrite aliveCount_app, aliveCount_cons, length_app in I.
    change (_aliveCount (@nil Magmawyrm)) with 0%nat in I.
    cbn [length]. lia.
Qed.

Lemma length_blockFromSafeZone {V : Type} S (l : list (Enemy.t V)) :
  length (_blockFromSafeZone S l) = length l.
Proof.
  unfold _blockFromSafeZone. cbv zeta. destruct (negb _); [reflexivity | apply length_map].
Qed.

Lemma updateVolcanic_grows dt p a S o k :
  Forall knownSize (Volcanic.enemies (State.volcanic S)) ->
  (budget (Volcanic.enemies (State.volcanic S)) <= 4)%nat ->
  Forall (fun e : Magmawyrm => Enemy.alive e = true) (Volcanic.enemies (State.volcanic S)) ->
  (length (Volcanic.enemies (State.volcanic S)) <=
   length (Volcanic.enemies (State.volcanic (fst (fst (_updateVolcanic dt p a S o k))))))%nat.
Proof.
  intros Hk Hb Hal. unfold _updateVolcanic.
  set (v := State.volcanic S) in *.
  assert (H0 : exists st en0,
            (let '(speedTimer, enemies) :=
               if Volcanic.speedTimer v + dt >=? 5
               then (Volcanic.speedTimer v + dt - 5, map boostSpeed (Volcanic.enemies v))
               else (Volcanic.speedTimer v + dt, Volcanic.enemies v) in
             (speedTimer, enemies)) = (st, en0) /\
            Forall knownSize en0 /\ budget en0 = budget (Volcanic.enemies v) /\
            Forall (fun e : Magmawyrm => Enemy.alive e = true) en0 /\
            length en0 = length (Volcanic.enemies v)).
  { destruct (_ >=? 5).
    - destruct (budget_map boostSpeed (Volcanic.enemies v) boostSpeed_fields) as [B1 B2].
      eexists; eexists; split; [reflexivity |].
      split; [apply B2; exact Hk |]. split; [exact B1 |].
      split; [| apply length_map].
      apply Forall_map_same; [| exact Hal]. intros e He. exact He.
    - eexists; eexists; split; [reflexivity |]. auto. }
  destruct H0 as (st & en0 & E0 & K0 & B0 & A0 & L0).
  destruct (if Volcanic.speedTimer v + dt >=? 5
            then (Volcanic.speedTimer v + dt - 5, map boostSpeed (Volcanic.enemies v))
            else (Volcanic.speedTimer v + dt, Volcanic.enemies v)) as [st' en0'].
  injection E0 as -> ->.
  destruct (fold_left (geyserStep dt) _ _) as [geysers p'].
  unfold bind.
  assert (Ht : forall e : Magmawyrm,
            Enemy.alive (Enemy.setEffects e (tickEffectList dt (Enemy.activeEffects e))) =
              Enemy.alive e /\
            Magma.sizeMult (Enemy.ext
              (Enemy.setEffects e (tickEffectList dt (Enemy.activeEffects e)))) =
              Magma.sizeMult (Enemy.ext e)) by (intros; split; reflexivity).
  destruct (budget_map _ en0 Ht) as [T1 T2].
  change (map _ en0) with (_tickEffects en0 dt) in T1, T2.
  assert (T3 : Forall (fun e : Magmawyrm => Enemy.alive e = true) (_tickEffects en0 dt)).
  { apply tickEffects_Forall; [| exact A0]. intros e effs He. exact He. }
  assert (T4 : length (_tickEffects en0 dt) = length en0) by apply length_map.
  match goal with |- context [magmaLoop ?S ?dt ?q ?a [] ?todo ?tr [] o k] =>
    pose proof (magmaLoop_grows S dt q a todo [] tr [] o k
                  (Forall_nil _) (T2 K0) (Forall_nil _)
                  ltac:(cbn [budget]; lia) T3) as L;
    destruct (magmaLoop S dt q a [] todo tr [] o k) as [[[en1 tr1] kids] k1]
  end.
  cbv zeta in L. cbn [fst snd length] in L.
  change (_aliveCount (@nil Magmawyrm)) with 0%nat in L.
  unfold ret. cbn [fst State.volcanic State.setVolcanic Volcanic.enemies].
  rewrite length_blockFromSafeZone, length_app.
  fold (_aliveCount en1). lia.
Qed.

Lemma updateVolcanic_alive dt p a S o k :
  Forall (fun e : Magmawyrm => Enemy.alive e = true)
    (Volcanic.enemies (State.volcanic (fst (fst (_updateVolcanic dt p a S o k))))).
Proof.
  apply (updateVolcanic_Forall (fun _ => True) (fun e => Enemy.alive e = true)
           (fun e => Enemy.alive e = true)).
  - auto.
  - auto.
  - intros done rest trails p' e o' k' _.
    destruct (magmaStep_flags S dt p' a done rest trails e o' k') as [_ K].
    cbv zeta. split; [exact I |].
    eapply Forall_impl; [| exact K]. intros c Hc. apply Hc.
  - intros e _ He. exact He.
  - auto.
  - intros e He. rewrite (proj1 (blockOne_fields _ e)). exact He.
  - apply Forall_forall. auto.
Qed.

(** X9.  In every state of a level the Volcanic list holds between 1 and 4
    enemies, all of them alive (a parent that splits is removed before
    [_updateVolcanic] returns), and a frame never makes the list shorter:
    with at most 4 enemies alive the test [_aliveCount + 2 <= MAX_PER_ZONE]
    of the split never fails, so every parent that dies leaves two
    children. *)
Theorem volcanic_never_shrinks (level : Z) (o : Oracle.t) (frames : list Frame.t)
    (f : Frame.t) :
  let S := run (initState level o) frames in
  let enemies := Volcanic.enemies (State.volcanic S) in
  Forall (fun e => Enemy.alive e = true) enemies /\
  (1 <= length enemies <= 4)%nat /\
  (length enemies <= length (Volcanic.enemies (State.volcanic (frame S f))))%nat.
Proof.
  cbv zeta.
  set (I := fun S : State.t =>
              capInv S /\
              Forall (fun e : Magmawyrm => Enemy.alive e = true)
                (Volcanic.enemies (State.volcanic S)) /\
              (1 <= length (Volcanic.enemies (State.volcanic S)))%nat).
  assert (Hframe : forall S f, I S ->
            I (frame S f) /\
            (length (Volcanic.enemies (State.volcanic S)) <=
             length (Volcanic.enemies (State.volcanic (frame S f))))%nat).
  { intros S g (Hc & Ha & Hl).
    pose proof (frame_capInv S g Hc) as Hc'.
    assert (Hrest :
              Forall (fun e : Magmawyrm => Enemy.alive e = true)
                (Volcanic.enemies (State.volcanic (frame S g))) /\
              (length (Volcanic.enemies (State.volcanic S)) <=
               length (Volcanic.enemies (State.volcanic (frame S g))))%nat).
    { rewrite frame_unfold. cbv zeta.
      pose proof (enterFrame_capInv (Frame.dt g) (Frame.player g) S Hc) as Hc1.
      pose proof (enterFrame_zoneEnemies
                    (fun e => Enemy.alive e = true) (fun _ => True) (fun _ => True)
                    (fun _ => True) (Frame.dt g) (Frame.player g) S
                    ltac:(auto) ltac:(auto) ltac:(auto) ltac:(auto)) as Hz.
      destruct Hz as (Ha1 & _).
      { unfold zoneEnemies. split; [exact Ha | repeat split; apply Forall_forall; auto]. }
      pose proof (enterFrame_lengths (Frame.dt g) (Frame.player g) S) as Hl1.
      set (S1 := fst (enterFrame (Frame.dt g) (Frame.player g) S)) in *.
      set (a := snd (enterFrame (Frame.dt g) (Frame.player g) S)).
      destruct (State.playerMoved S1).
      - destruct (updateZones_split (Frame.dt g) (Frame.player g) a S1 (Frame.oracle g) 0%nat)
          as (p1 & p2 & p3 & k1 & k2 & k3 & T1 & T2 & T3 & E1 & V1 & _).
        unfold advanceVisualPhases. cbn [State.volcanic Volcanic.enemies].
        rewrite V1, E1. split; [apply updateVolcanic_alive |].
        rewrite <- Hl1. destruct Hc1 as (K & B & _).
        apply updateVolcanic_grows; assumption.
      - unfold advanceVisualPhases. cbn [State.volcanic Volcanic.enemies].
        split; [exact Ha1 | lia]. }
    destruct Hrest as [Ha' Hl']. split; [| exact Hl'].
    split; [exact Hc' |]. split; [exact Ha' | lia]. }
  assert (H0 : I (initState level o)).
  { split; [apply initState_capInv |].
    rewrite initState_volcanic. cbn [Volcanic.enemies length].
    split; [constructor; [reflexivity | constructor] | lia]. }
  assert (Hrun : I (run (initState level o) frames)).
  { apply (run_inv I); [| exact H0]. intros S g H. apply Hframe, H. }
  destruct Hrun as (Hc & Ha & Hl).
  split; [exact Ha |]. split.
  - split; [exact Hl |]. destruct Hc as (_ & B & _).
    rewrite <- (aliveCount_all _ Ha).
    pose proof (aliveCount_le_budget (Volcanic.enemies
                  (State.volcanic (run (initState level o) frames)))). lia.
  - apply Hframe. split; [exact Hc |]. split; [exact Ha | exact Hl].
Qed.

(** ** Frostwyrms and Thornwyrms stay in their zones *)

Lemma clamp_range lo hi v : lo <= hi -> lo <= clamp lo hi v <= hi.
Proof.
  intros H. unfold clamp, Rmax, Rmin.
  destruct (Rle_dec hi v); destruct (Rle_dec lo _); lra.
Qed.

Lemma hypot_ge_abs (dx dy : R) : Rabs dx <= hypot dx dy /\ Rabs dy <= hypot dx dy.
Proof.
  pose proof (hypot_sqr dx dy) as Hq. pose proof (hypot_nonneg dx dy) as Hn.
  split; unfold Rabs; destruct (Rcase_abs _); nra.
Qed.

(** [blockOne] moves an enemy away from the centre of the safe zone along
    each axis, and never beyond the ring of radius [radius + enemy.radius]. *)
Lemma blockOne_outward {V : Type} sz (e : Enemy.t V) :
  0 < SafeZone.radius sz -> 0 <= Enemy.radius e ->
  let e' := blockOne sz e in
  let m := SafeZone.radius sz + Enemy.radius e in
  (SafeZone.x sz <= Enemy.x e ->
   Enemy.x e <= Enemy.x e' <= Rmax (Enemy.x e) (SafeZone.x sz + m)) /\
  (Enemy.x e <= SafeZone.x sz ->
   Rmin (Enemy.x e) (SafeZone.x sz - m) <= Enemy.x e' <= Enemy.x e) /\
  (SafeZone.y sz <= Enemy.y e ->
   Enemy.y e <= Enemy.y e' <= Rmax (Enemy.y e) (SafeZone.y sz + m)) /\
  (Enemy.y e <= SafeZone.y sz ->
   Rmin (Enemy.y e) (SafeZone.y sz - m) <= Enemy.y e' <= Enemy.y e).
Proof.
  intros Hr He. cbv zeta.
  assert (Hsame : forall a b, a <= a <= Rmax a b /\ Rmin a b <= a <= a).
  { intros a b. pose proof (Rmax_l a b). pose proof (Rmin_l a b). lra. }
  unfold blockOne. destruct (negb (Enemy.alive e)).
  { split; [| split; [| split]]; intros; apply Hsame. }
  cbv zeta.
  set (dx := Enemy.x e - SafeZone.x sz). set (dy := Enemy.y e - SafeZone.y sz).
  set (m := SafeZone.radius sz + Enemy.radius e).
  destruct (orOne (hypot dx dy) <? m) eqn:E.
  2:{ split; [| split; [| split]]; intros; apply Hsame. }
  reflectR. cbn [Enemy.x Enemy.y Enemy.moveTo].
  pose proof (hypot_nonneg dx dy) as Hn.
  destruct (hypot_ge_abs dx dy) as [Ax Ay].
  assert (Hd : 0 < orOne (hypot dx dy) /\ Rabs dx <= orOne (hypot dx dy) /\
               Rabs dy <= orOne (hypot dx dy)).
  { unfold orOne. destruct (hypot dx dy =? 0) eqn:Z; reflectR; [| lra].
    rewrite Z in Ax, Ay. lra. }
  destruct Hd as (Hp & Bx & By).
  set (d := orOne (hypot dx dy)) in *.
  set (u := dx / d). set (v := dy / d).
  assert (Hu : u * d = dx) by (unfold u; field; lra).
  assert (Hv : v * d = dy) by (unfold v; field; lra).
  assert (Bu : Rabs u <= 1).
  { unfold Rabs in *. destruct (Rcase_abs u); destruct (Rcase_abs dx); nra. }
  assert (Bv : Rabs v <= 1).
  { unfold Rabs in *. destruct (Rcase_abs v); destruct (Rcase_abs dy); nra. }
  assert (Ex : Enemy.x e = SafeZone.x sz + dx) by (unfold dx; lra).
  assert (Ey : Enemy.y e = SafeZone.y sz + dy) by (unfold dy; lra).
  rewrite Ex, Ey.
  pose proof (Rmax_r (SafeZone.x sz + dx) (SafeZone.x sz + m)).
  pose proof (Rmin_r (SafeZone.x sz + dx) (SafeZone.x sz - m)).
  pose proof (Rmax_r (SafeZone.y sz + dy) (SafeZone.y sz + m)).
  pose proof (Rmin_r (SafeZone.y sz + dy) (SafeZone.y sz - m)).
  unfold Rabs in Bu, Bv.
  destruct (Rcase_abs u); destruct (Rcase_abs v);
    (split; [| split; [| split]]); intros; split; nra.
Qed.

Lemma ringInv_step sz p : ringInv sz -> ringInv (stepSafeZone sz p).
Proof.
  intros (Hx & Hy & Hr). unfold ringInv, stepSafeZone.
  destruct (negb (SafeZone.active sz)); [auto |]. cbv zeta.
  destruct (_ && _); cbn; [| auto].
  split; [exact Hx |]. split; [exact Hy | lra].
Qed.

Lemma blockOne_confined_glacial sz (e : Frostwyrm) :
  ringInv sz -> confined ZONES.glacial 24 e -> confined ZONES.glacial 24 (blockOne sz e).
Proof.
  intros (Hx & Hy & Hr) (Hrad & Hw).
  pose proof (blockOne_outward sz e ltac:(lra) ltac:(lra)) as H. cbv zeta in H.
  destruct (blockOne_fields sz e) as (_ & _ & R' & _).
  unfold confined, withinZone in *. rewrite R'. split; [exact Hrad |].
  rewrite Hx, Hy, Hrad in *. unfold CENTER_X, CENTER_Y in *. cbn in Hw |- *.
  destruct H as (H1 & _ & _ & H4).
  specialize (H1 ltac:(lra)). specialize (H4 ltac:(lra)).
  unfold Rmax, Rmin in *.
  destruct (Rle_dec _ _) in H1; destruct (Rle_dec _ _) in H4; lra.
Qed.

Lemma blockOne_confined_canopy sz (e : Thornwyrm) :
  ringInv sz -> confined ZONES.canopy 16 e -> confined ZONES.canopy 16 (blockOne sz e).
Proof.
  intros (Hx & Hy & Hr) (Hrad & Hw).
  pose proof (blockOne_outward sz e ltac:(lra) ltac:(lra)) as H. cbv zeta in H.
  destruct (blockOne_fields sz e) as (_ & _ & R' & _).
  unfold confined, withinZone in *. rewrite R'. split; [exact Hrad |].
  rewrite Hx, Hy, Hrad in *. unfold CENTER_X, CENTER_Y in *. cbn in Hw |- *.
  destruct H as (H1 & _ & H3 & _).
  specialize (H1 ltac:(lra)). specialize (H3 ltac:(lra)).
  unfold Rmax, Rmin in *.
  destruct (Rle_dec _ _) in H1; destruct (Rle_dec _ _) in H3; lra.
Qed.

Lemma expandStep_confined dt acc e o k :
  confined ZONES.glacial 24 e ->
  confined ZONES.glacial 24 (snd (fst (expandStep dt acc e o k))).
Proof.
  intros (Hrad & Hw). unfold expandStep. cbv zeta.
  destruct (_ >=? 1.5); [| split; [exact Hrad | exact Hw]].
  unfold bind, random, ret. cbn [fst snd].
  unfold confined, withinZone.
  cbn [Enemy.radius Enemy.x Enemy.y Enemy.moveTo Enemy.setExt]. rewrite Hrad.
  split; [reflexivity |]. split; apply clamp_range; cbn; lra.
Qed.

Lemma thornStep_radius dt p e : Enemy.radius (thornStep dt p e) = Enemy.radius e.
Proof.
  unfold thornStep. destruct (negb (Enemy.alive e) || Enemy.frozen e); [reflexivity |].
  cbn [Enemy.radius Enemy.moveTo].
  repeat match goal with
  | |- context [if ?c then _ else _] => destruct c
  end; cbn; rewrite ?(proj1 (proj2 (proj2 (chasePlayer_fields _ _ _)))); reflexivity.
Qed.

Lemma thornStep_confined dt p e :
  confined ZONES.canopy 16 e -> confined ZONES.canopy 16 (thornStep dt p e).
Proof.
  intros H. pose proof (thornStep_radius dt p e) as Hr.
  destruct H as (Hrad & Hw). split; [rewrite Hr; exact Hrad |].
  unfold withinZone. rewrite Hr, Hrad. clear Hr.
  unfold thornStep. destruct (negb (Enemy.alive e) || Enemy.frozen e).
  { unfold withinZone in Hw. rewrite Hrad in Hw. exact Hw. }
  cbv zeta.
  match goal with |- context [Enemy.moveTo ?m (clamp _ _ _) _] =>
    assert (Hm : Enemy.radius m = 16);
    [ rewrite <- Hrad;
      repeat match goal with
      | |- context [if ?c then _ else _] => destruct c
      end; cbn; rewrite ?(proj1 (proj2 (proj2 (chasePlayer_fields _ _ _)))); reflexivity
    | set (m' := m) in *; clearbody m' ]
  end.
  cbn [Enemy.x Enemy.y Enemy.moveTo]. rewrite Hm.
  split; apply clamp_range; cbn; lra.
Qed.

Lemma updateZones_confined dt p a S o k :
  ringInv (State.safeZone S) ->
  Forall (confined ZONES.glacial 24) (Glacial.enemies (State.glacial S)) ->
  Forall (confined ZONES.canopy 16) (Canopy.enemies (State.canopy S)) ->
  let S' := fst (fst (updateZones dt p a S o k)) in
  Forall (confined ZONES.glacial 24) (Glacial.enemies (State.glacial S')) /\
  Forall (confined ZONES.canopy 16) (Canopy.enemies (State.canopy S')).
Proof.
  intros Hz G C. cbv zeta.
  destruct (updateZones_split dt p a S o k)
    as (p1 & p2 & p3 & k1 & k2 & k3 & S1 & S2 & S3 &
        E1 & V1 & E2 & G1 & G2 & E3 & C2 & C3 & R3 & R4 & Z1 & Z2 & Z3 & M2 & M3 & _).
  rewrite G2, C3. split.
  - rewrite E2. apply updateGlacial_Forall.
    + intros e effs He. exact He.
    + intros acc e o' k' He. apply expandStep_confined, He.
    + intros e He. apply blockOne_confined_glacial; [rewrite Z1; exact Hz | exact He].
    + rewrite G1. exact G.
  - rewrite E3. apply updateCanopy_Forall.
    + intros S0 rx ry Hx Hy _ _. unfold confined, withinZone. cbn. split; [reflexivity |]. nra.
    + intros range e He. exact He.
    + intros e effs He. exact He.
    + intros e He. apply thornStep_confined, He.
    + intros e He. apply blockOne_confined_canopy; [rewrite Z2; exact Hz | exact He].
    + rewrite C2. exact C.
Qed.

(** X10.  In every state of a level each Frostwyrm (radius 24) lies with
    its whole circle inside the Glacial zone and each Thornwyrm (radius 16)
    inside the Canopy zone: the drift, the lunge, the teleport and the chase
    are clamped to the zone, and the push out of the safe zone, whose centre
    is outside both zones, only moves an enemy further into its zone. *)
Theorem wyrms_stay_in_zone (level : Z) (o : Oracle.t) (frames : list Frame.t) :
  let S := run (initState level o) frames in
  Forall (confined ZONES.glacial 24) (Glacial.enemies (State.glacial S)) /\
  Forall (confined ZONES.canopy 16) (Canopy.enemies (State.canopy S)).
Proof.
  cbv zeta.
  set (Inv := fun S : State.t =>
              ringInv (State.safeZone S) /\
              Forall (confined ZONES.glacial 24) (Glacial.enemies (State.glacial S)) /\
              Forall (confined ZONES.canopy 16) (Canopy.enemies (State.canopy S))).
  assert (H : Inv (run (initState level o) frames)); [| apply H].
  apply (run_inv Inv).
  - apply frame_inv.
    + intros dt p S (Hz & G & C). split.
      * rewrite enterFrame_safeZone. apply ringInv_step, Hz.
      * pose proof (enterFrame_zoneEnemies
                      (fun _ => True) (confined ZONES.glacial 24) (confined ZONES.canopy 16)
                      (fun _ => True) dt p S
                      ltac:(auto) ltac:(auto) ltac:(auto) ltac:(auto)) as Hen.
        destruct Hen as (_ & G' & C' & _); [| split; assumption].
        unfold zoneEnemies. split; [apply Forall_forall; auto |].
        split; [exact G |]. split; [exact C | apply Forall_forall; auto].
    + intros dt p a S o' k _ (Hz & G & C). split.
      * rewrite (proj1 (updateZones_safeZone dt p a S o' k)). exact Hz.
      * apply updateZones_confined; assumption.
    + intros dt S HI. exact HI.
  - destruct (initState_header level o) as (Hs & _).
    pose proof (initState_zoneEnemies
                  (fun _ => True) (confined ZONES.glacial 24) (confined ZONES.canopy 16)
                  (fun _ => True) level o) as H0.
    destruct H0 as (_ & G & C & _).
    + exact I.
    + unfold confined, withinZone. cbn. split; [reflexivity |]. lra.
    + intros S0 rx ry Hx Hy _. unfold confined, withinZone. cbn. split; [reflexivity |]. nra.
    + intros. exact I.
    + split; [| split; assumption].
      rewrite Hs. unfold ringInv. cbn. repeat split; lra.
Qed.

(** ** The hazards of the reef *)











(** ** The canopy: obstacles, teleport range and egg *)

Lemma spawnThornwyrm_core S o k :
  canopyCore (State.canopy S) -> canopyCore (State.canopy (fst (_spawnThornwyrm S o k))).
Proof.
  intros H. unfold _spawnThornwyrm. destruct (MAX_PER_ZONE <=? _)%nat; [exact H |].
  destruct H as (W & T & E & L & F & X).
  unfold bind, random, ret, canopyCore.
  cbn [fst State.canopy State.setCanopy setCanopyEnemies Canopy.enemies Canopy.obstacles
       Canopy.escalateWave Canopy.teleportRange Canopy.egg].
  split; [exact W |]. split; [exact T |]. split; [| auto].
  apply Forall_app. split; [exact E |]. constructor; [reflexivity | constructor].
Qed.

Lemma canopyMultiply_core dt p S o k :
  canopyCore (State.canopy S) -> canopyCore (State.canopy (fst (canopyMultiply dt p S o k))).
Proof.
  intros H. unfold canopyMultiply. destruct (negb _ && _); [| exact H].
  apply spawnThornwyrm_core. exact H.
Qed.

Lemma canopyTeleport_core dt S :
  canopyCore (State.canopy S) -> canopyCore (State.canopy (canopyTeleport dt S)).
Proof.
  intros H. unfold canopyTeleport. destruct (_ >=? 5); [| exact H].
  destruct H as (W & T & E & L & F & X). unfold canopyCore.
  cbn [fst State.canopy State.setCanopy setCanopyEnemies setCanopyTimers Canopy.enemies
       Canopy.obstacles Canopy.escalateWave Canopy.teleportRange Canopy.egg].
  split; [exact W |]. split; [lra |]. split; [| auto].
  apply Forall_forall. intros e He. apply in_map_iff in He.
  destruct He as (e0 & <- & _). reflexivity.
Qed.

Lemma addCanopyObstacles_core n : forall S o k,
  canopyCore (State.canopy S) ->
  canopyCore (State.canopy (fst (_addCanopyObstacles n S o k))).
Proof.
  unfold _addCanopyObstacles.
  intros S o k H. apply (repeatR_inv (fun T => canopyCore (State.canopy T))); [| exact H].
  clear. intros S o k (W & T & E & L & F & (i & Hi & Li)).
  unfold bind, random, ret, canopyCore.
  cbn [fst State.canopy State.setCanopy setCanopyObstacles Canopy.enemies
       Canopy.obstacles Canopy.escalateWave Canopy.teleportRange Canopy.egg].
  split; [exact W |]. split; [exact T |]. split; [exact E |].
  rewrite length_app. cbn [length]. split; [lia |]. split.
  - apply Forall_app. split; [exact F |]. constructor; [| constructor].
    pose proof (Oracle.draw_range o k). pose proof (Oracle.draw_range o (Datatypes.S k)).
    pose proof (Oracle.draw_range o (Datatypes.S (Datatypes.S k))).
    unfold foliageInv. cbn. split; [lra |]. split; nra.
  - exists i. split; [exact Hi | lia].
Qed.

Lemma canopyEscalate_core dt S o k :
  canopyCore (State.canopy S) -> canopyCore (State.canopy (fst (canopyEscalate dt S o k))).
Proof.
  intros H. unfold canopyEscalate. destruct (_ >=? 5); [| exact H].
  unfold bind.
  match goal with |- context [_addCanopyObstacles ?n ?S0 o k] =>
    pose proof (addCanopyObstacles_core n S0 o k) as A;
    destruct (_addCanopyObstacles n S0 o k) as [S1 k1]
  end.
  cbn [fst] in A.
  assert (A' : canopyCore (State.canopy S1)).
  { apply A. destruct H as (W & T & E & L & F & X). unfold canopyCore.
    cbn [State.canopy State.setCanopy setCanopyTimers Canopy.enemies
         Canopy.obstacles Canopy.escalateWave Canopy.teleportRange Canopy.egg].
    split; [lia | auto]. }
  destruct A' as (W & T & E & L & F & (i & Hi & Li)).
  rewrite Hi. unfold ret. cbn [fst]. unfold canopyCore. eauto 10.
Qed.

Lemma joltObstacle_inv obs o k : foliageInv obs -> foliageInv (fst (joltObstacle obs o k)).
Proof.
  intros (Hr & Hx & Hy). unfold joltObstacle, bind, random, ret, foliageInv.
  cbn [fst Foliage.r Foliage.x Foliage.y]. split; [exact Hr |].
  split; apply clamp_range; cbn; lra.
Qed.

Lemma mapR_Forall_in {A : Type} (P : A -> Prop) (f : A -> Rand A) :
  (forall a o k, P a -> P (fst (f a o k))) ->
  forall l o k, Forall P l -> Forall P (fst (mapR f l o k)).
Proof.
  intros Hf. induction l as [| a l IH]; intros o k Hl; cbn [mapR].
  - constructor.
  - inversion Hl as [| ? ? Ha Hr]; subst.
    unfold bind. pose proof (Hf a o k Ha) as Ha'. destruct (f a o k) as [b k1].
    pose proof (IH o k1 Hr) as Hl'. destruct (mapR f l o k1) as [bs k2].
    constructor; assumption.
Qed.

Lemma canopyJolt_core dt S o k :
  canopyCore (State.canopy S) -> canopyCore (State.canopy (fst (canopyJolt dt S o k))).
Proof.
  intros H. unfold canopyJolt, bind, random. destruct (_ <? _); [| exact H].
  destruct H as (W & T & E & L & F & (i & Hi & Li)).
  pose proof (mapR_length joltObstacle (Canopy.obstacles (State.canopy S)) o
                (Datatypes.S k)) as ML.
  pose proof (mapR_Forall_in foliageInv joltObstacle joltObstacle_inv
                (Canopy.obstacles (State.canopy S)) o (Datatypes.S k) F) as MF.
  destruct (mapR joltObstacle _ o (Datatypes.S k)) as [obs' k'].
  cbn [fst] in ML, MF. unfold ret, canopyCore.
  cbn [fst State.canopy State.setCanopy setCanopyObstacles Canopy.enemies
       Canopy.obstacles Canopy.escalateWave Canopy.teleportRange Canopy.egg].
  rewrite ML. eauto 10.
Qed.

Lemma thornStep_ext_range dt p e :
  Thorn.teleportRange (Enemy.ext (thornStep dt p e)) = Thorn.teleportRange (Enemy.ext e).
Proof.
  unfold thornStep. destruct (negb (Enemy.alive e) || Enemy.frozen e); [reflexivity |].
  cbn [Enemy.ext Enemy.moveTo].
  repeat match goal with
  | |- context [if ?c then _ else _] => destruct c
  end; cbn;
    rewrite ?(proj2 (proj2 (proj2 (proj2 (proj2 (chasePlayer_fields _ _ _)))))); reflexivity.
Qed.

Lemma nth_error_lt_some {A : Type} (l : list A) i :
  (i < length l)%nat -> exists a, nth_error l i = Some a.
Proof.
  intros H. destruct (nth_error l i) as [a |] eqn:E; [eauto |].
  apply nth_error_None in E. lia.
Qed.

Lemma canopyEnemies_inv dt p S :
  canopyCore (State.canopy S) ->
  canopyCore (State.canopy (canopyEnemies dt p S)) /\
  eggRidesHost (State.canopy (canopyEnemies dt p S)).
Proof.
  intros (W & T & E & L & F & (i & Hi & Li)).
  destruct (nth_error_lt_some _ i Li) as (host & Hh).
  unfold canopyEnemies, canopyCore, eggRidesHost.
  cbn [State.canopy State.setCanopy setCanopyEnemies setCanopyEgg Canopy.enemies
       Canopy.obstacles Canopy.escalateWave Canopy.teleportRange Canopy.egg].
  rewrite canopyEggStep_host.
  split.
  - split; [exact W |]. split; [exact T |]. split; [| eauto 10].
    apply Forall_map_same; [intros e He; rewrite thornStep_ext_range; exact He |].
    apply Forall_map_same; [intros e He; exact He | exact E].
  - unfold canopyEggStep. rewrite Hi, Hh.
    destruct (negb (CanopyEgg.collected (Canopy.egg (State.canopy S)))) eqn:C.
    + intros _. exists i, host. cbn. auto.
    + intros C'. apply negb_false_iff in C. congruence.
Qed.

Lemma updateCanopy_inv dt p S o k :
  canopyCore (State.canopy S) ->
  let c := State.canopy (fst (fst (_updateCanopy dt p S o k))) in
  canopyCore c /\ eggRidesHost c.
Proof.
  intros H. cbv zeta. unfold _updateCanopy, bind.
  pose proof (canopyMultiply_core dt p S o k H) as H1.
  destruct (canopyMultiply dt p S o k) as [S1 k1]. cbn [fst] in H1.
  pose proof (canopyEscalate_core dt (canopyTeleport dt S1) o k1
                (canopyTeleport_core dt S1 H1)) as H2.
  destruct (canopyEscalate dt (canopyTeleport dt S1) o k1) as [S2 k2]. cbn [fst] in H2.
  pose proof (canopyJolt_core dt S2 o k2 H2) as H3.
  destruct (canopyJolt dt S2 o k2) as [S3 k3]. cbn [fst] in H3.
  destruct (canopyEnemies_inv dt p S3 H3) as [H4 H5].
  unfold ret. cbn [fst].
  set (S4 := canopyEnemies dt p S3) in *.
  destruct H4 as (W & T & E & L & F & X).
  unfold canopyCore, eggRidesHost in *.
  cbn [State.canopy State.setCanopy setCanopyEnemies Canopy.enemies
       Canopy.obstacles Canopy.escalateWave Canopy.teleportRange Canopy.egg].
  split; [| exact H5].
  split; [exact W |]. split; [exact T |]. split; [| auto].
  apply blockFromSafeZone_Forall; [| exact E].
  intros e He. rewrite (proj1 (proj2 (blockOne_fields _ e))). exact He.
Qed.

Lemma initCanopy_inv S o k :
  Canopy.escalateWave (State.canopy S) = 0%nat ->
  Canopy.teleportRange (State.canopy S) = 150 ->
  Canopy.enemies (State.canopy S) = [] ->
  Canopy.obstacles (State.canopy S) = [] ->
  let c := State.canopy (fst (_initCanopy S o k)) in
  canopyCore c /\ eggRidesHost c.
Proof.
  intros W T E O. cbv zeta. unfold _initCanopy, bind.
  set (Pre := fun T : State.t =>
                Canopy.escalateWave (State.canopy T) = 0%nat /\
                Canopy.teleportRange (State.canopy T) = 150 /\
                Forall (fun e : Thornwyrm =>
                          Thorn.teleportRange (Enemy.ext e) =
                          Canopy.teleportRange (State.canopy T))
                  (Canopy.enemies (State.canopy T))).
  assert (P1 : Pre (fst (repeatR 2 _spawnThornwyrm S o k)) /\
               Canopy.obstacles (State.canopy (fst (repeatR 2 _spawnThornwyrm S o k))) = []).
  { apply (repeatR_inv (fun T => Pre T /\ Canopy.obstacles (State.canopy T) = [])).
    - intros a o' k' ((A1 & A2 & A3) & A4). unfold _spawnThornwyrm.
      destruct (MAX_PER_ZONE <=? _)%nat; [unfold Pre; auto |].
      unfold bind, random, ret, Pre.
      cbn [fst State.canopy State.setCanopy setCanopyEnemies Canopy.enemies Canopy.obstacles
           Canopy.escalateWave Canopy.teleportRange Canopy.egg].
      split; [| exact A4]. split; [exact A1 |]. split; [exact A2 |].
      apply Forall_app. split; [exact A3 |]. constructor; [reflexivity | constructor].
    - unfold Pre. rewrite E, O. auto. }
  destruct (repeatR 2 _spawnThornwyrm S o k) as [S1 k1]. cbn [fst] in P1.
  destruct P1 as ((A1 & A2 & A3) & A4).
  set (Mid := fun T : State.t =>
                Pre T /\ Forall foliageInv (Canopy.obstacles (State.canopy T))).
  assert (P2 : Mid (fst (_addCanopyObstacles 5 S1 o k1))).
  { unfold _addCanopyObstacles. apply (repeatR_inv Mid).
    - intros a o' k' ((B1 & B2 & B3) & B4). unfold bind, random, ret, Mid, Pre.
      cbn [fst State.canopy State.setCanopy setCanopyObstacles Canopy.enemies
           Canopy.obstacles Canopy.escalateWave Canopy.teleportRange Canopy.egg].
      split; [auto |].
      apply Forall_app. split; [exact B4 |]. constructor; [| constructor].
      pose proof (Oracle.draw_range o' k'). pose proof (Oracle.draw_range o' (Datatypes.S k')).
      pose proof (Oracle.draw_range o' (Datatypes.S (Datatypes.S k'))).
      unfold foliageInv. cbn. split; [lra |]. split; nra.
    - unfold Mid, Pre. rewrite A4. auto. }
  pose proof (addCanopyObstacles_length 5 S1 o k1) as L. rewrite A4 in L. cbn [length] in L.
  destruct (_addCanopyObstacles 5 S1 o k1) as [S2 k2]. cbn [fst] in P2, L.
  destruct P2 as ((B1 & B2 & B3) & B4).
  unfold _assignCanopyEgg.
  destruct (Canopy.obstacles (State.canopy S2)) as [| ob obs] eqn:Eo; [cbn in L; lia |].
  unfold bind, random.
  pose proof (floorIdx_lt (Oracle.draw o k2) (length (ob :: obs))
                (Oracle.draw_range o k2) ltac:(cbn; lia)) as Hlt.
  destruct (nth_error_lt_some _ _ Hlt) as (host & Hh). rewrite Hh.
  unfold ret, canopyCore, eggRidesHost.
  cbn [fst State.canopy State.setCanopy setCanopyEgg Canopy.enemies Canopy.obstacles
       Canopy.escalateWave Canopy.teleportRange Canopy.egg CanopyEgg._host CanopyEgg.x
       CanopyEgg.y].
  rewrite Eo, B1, B2. split.
  - split; [lia |]. split; [lra |]. split; [rewrite B2 in B3; exact B3 |].
    split; [cbn [length] in L |- *; lia |]. split; [exact B4 |]. eauto.
  - intros _. eauto 10.
Qed.

(** X12.  In every state of a level the canopy is consistent: the
    escalation wave is at most 3; the teleport range is at least the 150 px
    of [resetState] and every Thornwyrm, whenever it was spawned, carries
    exactly the zone's current range; there are at least five obstacles,
    each of radius in [[35, 60]] and inside the zone; the egg's host index
    points into the obstacle list, and until the egg is collected its
    position is that of its host, jolts included. *)
Theorem canopy_consistent (level : Z) (o : Oracle.t) (frames : list Frame.t) :
  let c := State.canopy (run (initState level o) frames) in
  canopyCore c /\ eggRidesHost c.
Proof.
  cbv zeta.
  set (Inv := fun S : State.t =>
                canopyCore (State.canopy S) /\ eggRidesHost (State.canopy S)).
  assert (H : Inv (run (initState level o) frames)); [| apply H].
  apply (run_inv Inv).
  - apply frame_inv.
    + intros dt p S HI. unfold enterFrame, _updateSafeZone, detectMovement.
      cbn [fst State.playerMoved].
      destruct (negb (State.playerMoved S)); [| exact HI].
      destruct (playerDisplaced _ _); [| exact HI].
      destruct HI as ((W & T & E & L & F & X) & R).
      unfold Inv, canopyCore, eggRidesHost, _unfreezeAll in *.
      cbn [State.canopy State.setSafeZone setCanopyEnemies Canopy.enemies
           Canopy.obstacles Canopy.escalateWave Canopy.teleportRange Canopy.egg] in *.
      split; [| exact R].
      split; [exact W |]. split; [exact T |]. split; [| auto].
      apply Forall_map_same; [intros e He; exact He | exact E].
    + intros dt p a S o' k _ (HC & _).
      destruct (updateZones_split dt p a S o' k)
        as (p1 & p2 & p3 & k1 & k2 & k3 & S1 & S2 & S3 &
            _ & _ & _ & _ & _ & E3 & C2 & C3 & _).
      unfold Inv. rewrite C3, E3.
      apply updateCanopy_inv. rewrite C2. exact HC.
    + intros dt S ((W & T & E & L & F & X) & R). unfold Inv, advanceVisualPhases.
      split; [unfold canopyCore; cbn; auto 10 | exact R].
  - destruct (initState_zones level o) as (S1 & k1 & S3 & k3 & E1 & E3 & _ & _ & C & _).
    pose proof (initVolcanic_only (resetState level) o 0%nat) as O1. rewrite E1 in O1.
    cbn [fst] in O1.
    destruct (onlyVolcanic_others _ _ O1) as (_ & C1 & _).
    unfold Inv. rewrite C.
    pose proof (initCanopy_inv (_initGlacial S1) o k1) as HI. rewrite E3 in HI.
    cbn [fst] in HI. apply HI;
      cbn [_initGlacial State.canopy State.setGlacial]; rewrite C1; reflexivity.
Qed.

(** ** The hazards of the Volcanic zone *)

Lemma geyserStep_geyser dt done p g :
  geyserInv g ->
  exists g',
    fst (geyserStep dt (done, p) g) = done ++ [g'] /\ geyserInv g' /\
    geyserPos g' = geyserPos g.
Proof.
  intros (Hr & Hd & Ht). unfold geyserStep. cbv zeta. rewrite Hd.
  unfold geyserInv, geyserPos.
  destruct (Geyser.erupting g) eqn:E; cbn [negb andb].
  - destruct (Geyser.timer g + dt >=? 1.5) eqn:E1; cbn [andb fst];
      eexists; (split; [reflexivity |]);
      cbn [Geyser.radius Geyser.eruptDur Geyser.timer Geyser.erupting Geyser.x Geyser.y];
      reflectR; (split; [| reflexivity]); (split; [exact Hr |]); (split; [first [exact Hd | reflexivity] | lra]).
  - destruct (Geyser.timer g + dt >=? 5) eqn:E1; cbn [andb fst].
    + replace (0 >=? 1.5) with false by (symmetry; reflectR; lra).
      eexists; (split; [reflexivity |]).
      cbn [Geyser.radius Geyser.eruptDur Geyser.timer Geyser.erupting Geyser.x Geyser.y].
      split; [| reflexivity]. split; [exact Hr |]. split; [first [exact Hd | reflexivity] | lra].
    + eexists; (split; [reflexivity |]).
      cbn [Geyser.radius Geyser.eruptDur Geyser.timer Geyser.erupting Geyser.x Geyser.y].
      reflectR. split; [| reflexivity]. split; [exact Hr |]. split; [first [exact Hd | reflexivity] | lra].
Qed.

Lemma geyserLoop_geysers dt gs : forall done p,
  Forall geyserInv done -> Forall geyserInv gs ->
  let r := fst (fold_left (geyserStep dt) gs (done, p)) in
  Forall geyserInv r /\ map geyserPos r = map geyserPos done ++ map geyserPos gs.
Proof.
  induction gs as [| g gs IH]; intros done p Hd Hg; cbv zeta.
  - cbn. rewrite app_nil_r. auto.
  - inversion Hg as [| ? ? Hg1 Hrest]; subst. cbn [fold_left].
    destruct (geyserStep_geyser dt done p g Hg1) as (g' & E & Hg' & Hp).
    destruct (geyserStep dt (done, p) g) as [done' p'].
    cbn [fst] in E. subst done'.
    destruct (IH (done ++ [g']) p') as [I1 I2].
    + apply Forall_app. split; [exact Hd | constructor; [exact Hg' | constructor]].
    + exact Hrest.
    + split; [exact I1 |]. rewrite I2, map_app, <- app_assoc. cbn [map app].
      rewrite Hp. reflexivity.
Qed.

Lemma magmaStep_trails S dt p a done rest trails e o k :
  Forall trailInv trails ->
  Forall trailInv (snd (fst (fst (magmaStep S dt p a done rest trails e o k)))).
Proof.
  intros H. unfold magmaStep.
  destruct (negb (Enemy.alive e) || Enemy.frozen e); [exact H |].
  assert (H' : Forall trailInv
                 (trails ++ [LavaTrail.mk (Enemy.x (_chasePlayer e p dt))
                               (Enemy.y (_chasePlayer e p dt))
                               (Enemy.radius (_chasePlayer e p dt) * 0.9) 5 5])).
  { apply Forall_app. split; [exact H |]. constructor; [| constructor].
    unfold trailInv. cbn. split; [lra | reflexivity]. }
  destruct (_ >=? 0.3);
    (destruct (a && splits p _);
     [ destruct (_ <=? MAX_PER_ZONE)%nat;
       [ unfold bind;
         repeat match goal with |- context [spawnChild ?S ?m ?o ?k] =>
                  destruct (spawnChild S m o k) end
       | ]
     | ]); cbn [fst snd ret]; assumption.
Qed.

Lemma magmaLoop_trails S dt p a todo : forall done trails newSplits o k,
  Forall trailInv trails ->
  Forall trailInv (snd (fst (fst (magmaLoop S dt p a done todo trails newSplits o k)))).
Proof.
  induction todo as [| e rest IH]; intros done trails newSplits o k H; [exact H |].
  cbn [magmaLoop]. unfold bind.
  pose proof (magmaStep_trails S dt p a done rest trails e o k H) as Hs.
  destruct (magmaStep S dt p a done rest trails e o k) as [[[e' tr'] kids] k'].
  cbn [fst snd] in Hs. apply IH. exact Hs.
Qed.

Lemma updateVolcanic_hazards dt p a S o k :
  Forall geyserInv (Volcanic.geysers (State.volcanic S)) ->
  Forall trailInv (Volcanic.lavaTrails (State.volcanic S)) ->
  let v := State.volcanic (fst (fst (_updateVolcanic dt p a S o k))) in
  Forall geyserInv (Volcanic.geysers v) /\
  map geyserPos (Volcanic.geysers v) = map geyserPos (Volcanic.geysers (State.volcanic S)) /\
  Forall trailInv (Volcanic.lavaTrails v).
Proof.
  intros Hg Ht0. cbv zeta. unfold _updateVolcanic.
  set (v := State.volcanic S) in *.
  destruct (if Volcanic.speedTimer v + dt >=? 5
            then (Volcanic.speedTimer v + dt - 5, map boostSpeed (Volcanic.enemies v))
            else (Volcanic.speedTimer v + dt, Volcanic.enemies v)) as [st en0].
  match goal with |- context [fold_left (geyserStep dt) ?gs (?d, ?q)] =>
    pose proof (geyserLoop_geysers dt gs d q (Forall_nil _) Hg) as G;
    destruct (fold_left (geyserStep dt) gs (d, q)) as [geysers p']
  end.
  cbv zeta in G. cbn [fst map app] in G. destruct G as [G1 G2].
  unfold bind.
  match goal with |- context [magmaLoop ?S ?dt ?q ?a [] ?todo ?tr [] o k] =>
    assert (T : Forall trailInv tr);
    [| pose proof (magmaLoop_trails S dt q a todo [] tr [] o k T) as L;
       destruct (magmaLoop S dt q a [] todo tr [] o k) as [[[en1 tr1] kids] k1] ]
  end.
  { apply Forall_forall. intros t Ht. apply filter_In in Ht. destruct Ht as [Ht Hl].
    apply in_map_iff in Ht. destruct Ht as (t0 & <- & Hin).
    rewrite Forall_forall in Ht0. destruct (Ht0 t0 Hin) as [_ Hm].
    unfold trailInv, tickTrail in *. cbn in Hl |- *. reflectR.
    split; [exact Hl | exact Hm]. }
  cbn [fst snd] in L.
  unfold ret. cbn [fst State.volcanic State.setVolcanic Volcanic.geysers Volcanic.lavaTrails].
  auto.
Qed.

(** X13.  In every state of a level the Volcanic zone has its five geysers
    at the places [init] gave them, each of radius 28 with eruptions of
    1.5 s; the timer of an idle geyser is below 5 and that of an erupting one
    below 1.5, so that the phases alternate; and every lava trail in the list
    is still burning ([life > 0]) with [maxLife = 5]. *)
Theorem volcanic_hazards (level : Z) (o : Oracle.t) (frames : list Frame.t) :
  let v := State.volcanic (run (initState level o) frames) in
  map geyserPos (Volcanic.geysers v) =
    map (fun pos : R * R => (Zone.x ZONES.volcanic + fst pos, Zone.y ZONES.volcanic + snd pos))
        geyserGrid /\
  Forall geyserInv (Volcanic.geysers v) /\
  Forall trailInv (Volcanic.lavaTrails v).
Proof.
  cbv zeta.
  set (Inv := fun S : State.t =>
                map geyserPos (Volcanic.geysers (State.volcanic S)) =
                  map (fun pos : R * R =>
                         (Zone.x ZONES.volcanic + fst pos, Zone.y ZONES.volcanic + snd pos))
                      geyserGrid /\
                Forall geyserInv (Volcanic.geysers (State.volcanic S)) /\
                Forall trailInv (Volcanic.lavaTrails (State.volcanic S))).
  assert (H : Inv (run (initState level o) frames)); [| apply H].
  apply (run_inv Inv).
  - apply frame_inv.
    + intros dt p S HI. unfold enterFrame, _updateSafeZone, detectMovement.
      cbn [fst State.playerMoved].
      destruct (negb (State.playerMoved S)); [| exact HI].
      destruct (playerDisplaced _ _); exact HI.
    + intros dt p a S o' k _ (HP & HG & HT).
      destruct (updateZones_split dt p a S o' k)
        as (p1 & p2 & p3 & k1 & k2 & k3 & S1 & S2 & S3 & E1 & V1 & _).
      unfold Inv. rewrite V1, E1.
      destruct (updateVolcanic_hazards dt p a S o' k HG HT) as (U1 & U2 & U3).
      split; [rewrite U2; exact HP | split; assumption].
    + intros dt S HI. exact HI.
  - unfold Inv. rewrite initState_volcanic.
    cbn [Volcanic.geysers Volcanic.lavaTrails]. split; [reflexivity |].
    split; [| constructor].
    unfold geyserGrid. cbn [seq combine map fst snd].
    repeat (constructor;
            [unfold geyserInv; cbn;
             split; [reflexivity |]; split; [reflexivity |];
             match goal with |- Oracle.draw o ?k * 5 < 5 =>
               pose proof (Oracle.draw_range o k); lra end |]).
    constructor.
Qed.

(** ** The frozen territory of the Glacial zone *)

Lemma expandStep_tiles dt acc e o k :
  exists more,
    FrostAcc.frozenTiles (fst (fst (expandStep dt acc e o k))) =
      FrostAcc.frozenTiles acc ++ more /\
    Forall tileInv more.
Proof.
  unfold expandStep. cbv zeta. destruct (_ >=? 1.5).
  - unfold bind, random, ret. cbn [fst FrostAcc.frozenTiles].
    eexists. split; [reflexivity |]. constructor; [| constructor].
    unfold tileInv. cbn. auto.
  - exists []. cbn. rewrite app_nil_r. auto.
Qed.

Lemma expandStep_frostInv dt acc e o k :
  frostInv e -> frostInv (snd (fst (expandStep dt acc e o k))).
Proof.
  intros (Ha & Hr). unfold expandStep. cbv zeta. destruct (_ >=? 1.5).
  - unfold bind, random, ret, frostInv.
    cbn [fst snd Enemy.alive Enemy.ext Enemy.moveTo Enemy.setExt Frost.expandRadius].
    split; [exact Ha |]. unfold Rmin. destruct (Rle_dec _ _); lra.
  - unfold ret, frostInv. cbn. auto.
Qed.

Lemma frostLoop_tiles dt p l : forall acc done o k,
  let r := fst (foldR (frostStep dt p) l (acc, done) o k) in
  (exists more,
     FrostAcc.frozenTiles (fst r) = FrostAcc.frozenTiles acc ++ more /\
     Forall tileInv more) /\
  length (snd r) = (length done + length l)%nat.
Proof.
  induction l as [| e l IH]; intros acc done o k; cbv zeta; cbn [foldR].
  - cbn. split; [exists []; rewrite app_nil_r; auto | lia].
  - unfold bind.
    assert (Hs : exists acc' e' more,
              fst (frostStep dt p (acc, done) e o k) = (acc', done ++ [e']) /\
              FrostAcc.frozenTiles acc' = FrostAcc.frozenTiles acc ++ more /\
              Forall tileInv more).
    { unfold frostStep. destruct (negb (Enemy.alive e) || Enemy.frozen e).
      - exists acc, e, []. rewrite app_nil_r. auto.
      - unfold bind. destruct (expandStep_tiles dt acc e o k) as (more & Et & Ft).
        destruct (expandStep dt acc e o k) as [[a' e'] k']. cbn [fst snd] in Et.
        exists (shootStep dt p a' e'), e', more. split; [reflexivity |].
        rewrite (proj1 (shootStep_cases dt p a' e')). auto. }
    destruct Hs as (acc' & e' & more & Es & Et & Ft).
    destruct (frostStep dt p (acc, done) e o k) as [[acc1 done1] k1].
    cbn [fst] in Es. injection Es as -> ->.
    destruct (IH acc' (done ++ [e']) o k1) as [(more' & Et' & Ft') L]. cbv zeta in *.
    split.
    + exists (more ++ more'). rewrite Et', Et, app_assoc. split; [reflexivity |].
      apply Forall_app. auto.
    + rewrite L, length_app. cbn [length]. lia.
Qed.

Lemma updateGlacial_territory dt p S o k :
  let g := State.glacial (fst (fst (_updateGlacial dt p S o k))) in
  (exists more,
     Glacial.frozenTiles g = Glacial.frozenTiles (State.glacial S) ++ more /\
     Forall tileInv more) /\
  length (Glacial.enemies g) = length (Glacial.enemies (State.glacial S)).
Proof.
  cbv zeta. unfold _updateGlacial, bind.
  match goal with |- context [foldR ?f ?l (?a, []) o k] =>
    pose proof (frostLoop_tiles dt p l a [] o k) as H;
    destruct (foldR f l (a, []) o k) as [[acc en] k1]
  end.
  cbv zeta in H. cbn [fst snd FrostAcc.frozenTiles length] in H.
  destruct (fold_left (bulletStep dt) _ _) as [bs p'].
  unfold ret. cbn [fst State.glacial State.setGlacial Glacial.enemies Glacial.frozenTiles].
  destruct H as [H1 H2]. split; [exact H1 |].
  rewrite length_blockFromSafeZone, H2. unfold _tickEffects. rewrite length_map. lia.
Qed.

Lemma enterFrame_tiles dt p S :
  Glacial.frozenTiles (State.glacial (fst (enterFrame dt p S))) =
    Glacial.frozenTiles (State.glacial S) /\
  Glacial.iceBullets (State.glacial (fst (enterFrame dt p S))) =
    Glacial.iceBullets (State.glacial S) /\
  length (Glacial.enemies (State.glacial (fst (enterFrame dt p S)))) =
    length (Glacial.enemies (State.glacial S)).
Proof.
  unfold enterFrame, _updateSafeZone, detectMovement.
  cbn [fst State.playerMoved].
  destruct (negb (State.playerMoved S)); [| auto].
  destruct (playerDisplaced _ _); [| auto].
  unfold _unfreezeAll.
  cbn [State.glacial State.setSafeZone Glacial.frozenTiles Glacial.iceBullets
       Glacial.enemies].
  rewrite length_map. auto.
Qed.

Lemma frame_tiles S f :
  exists more,
    Glacial.frozenTiles (State.glacial (frame S f)) =
      Glacial.frozenTiles (State.glacial S) ++ more /\
    Forall tileInv more.
Proof.
  rewrite frame_unfold. cbv zeta.
  destruct (enterFrame_tiles (Frame.dt f) (Frame.player f) S) as (T & _).
  set (S1 := fst (enterFrame (Frame.dt f) (Frame.player f) S)) in *.
  set (a := snd (enterFrame (Frame.dt f) (Frame.player f) S)).
  destruct (State.playerMoved S1).
  - destruct (updateZones_split (Frame.dt f) (Frame.player f) a S1 (Frame.oracle f) 0%nat)
      as (p1 & p2 & p3 & k1 & k2 & k3 & T1 & T2 & T3 & _ & _ & E2 & G1 & G2 & _).
    unfold advanceVisualPhases. cbn [State.glacial]. rewrite G2, E2.
    destruct (updateGlacial_territory (Frame.dt f) p1 T1 (Frame.oracle f) k1)
      as [(more & Em & Fm) _].
    exists more. rewrite Em, G1, T. auto.
  - exists []. unfold advanceVisualPhases. cbn [State.glacial].
    rewrite T, app_nil_r. auto.
Qed.

(** X14.  The frozen territory of the Glacial zone only grows: a frame
    appends tiles to [frozenTiles] and never removes or moves one, and every
    tile is 40 px square; in every state of a level there are at least the
    six tiles of [init], the zone has exactly one Frostwyrm, which is alive
    and whose expansion radius is between 50 and the cap of 220, and every
    ice bullet kept in the list is alive. *)
Theorem glacial_territory (level : Z) (o : Oracle.t) (frames : list Frame.t)
    (f : Frame.t) :
  let S := run (initState level o) frames in
  let g := State.glacial S in
  (exists more,
     Glacial.frozenTiles (State.glacial (frame S f)) = Glacial.frozenTiles g ++ more) /\
  (6 <= length (Glacial.frozenTiles g))%nat /\
  Forall tileInv (Glacial.frozenTiles g) /\
  (exists fw, Glacial.enemies g = [fw] /\ frostInv fw) /\
  Forall (fun b => Bullet.alive b = true) (Glacial.iceBullets g).
Proof.
  cbv zeta. split.
  { destruct (frame_tiles (run (initState level o) frames) f) as (more & E & _).
    exists more. exact E. }
  set (Inv := fun S : State.t =>
                (6 <= length (Glacial.frozenTiles (State.glacial S)))%nat /\
                Forall tileInv (Glacial.frozenTiles (State.glacial S)) /\
                (length (Glacial.enemies (State.glacial S)) = 1%nat /\
                 Forall frostInv (Glacial.enemies (State.glacial S))) /\
                Forall (fun b => Bullet.alive b = true)
                  (Glacial.iceBullets (State.glacial S))).
  assert (H : Inv (run (initState level o) frames)).
  { apply (run_inv Inv).
    - intros S g (L & T & (N & F) & B).
      destruct (frame_tiles S g) as (more & Em & Fm).
      unfold Inv. rewrite Em, length_app.
      split; [lia |]. split; [apply Forall_app; auto |].
      rewrite frame_unfold. cbv zeta.
      destruct (enterFrame_tiles (Frame.dt g) (Frame.player g) S) as (_ & B1 & N1).
      pose proof (enterFrame_zoneEnemies
                    (fun _ => True) frostInv (fun _ => True) (fun _ => True)
                    (Frame.dt g) (Frame.player g) S
                    ltac:(auto) ltac:(auto) ltac:(auto) ltac:(auto)) as Hen.
      destruct Hen as (_ & F1 & _).
      { unfold zoneEnemies. split; [apply Forall_forall; auto |].
        split; [exact F |]. split; apply Forall_forall; auto. }
      set (S1 := fst (enterFrame (Frame.dt g) (Frame.player g) S)) in *.
      set (a := snd (enterFrame (Frame.dt g) (Frame.player g) S)).
      destruct (State.playerMoved S1).
      + destruct (updateZones_split (Frame.dt g) (Frame.player g) a S1 (Frame.oracle g) 0%nat)
          as (p1 & p2 & p3 & k1 & k2 & k3 & T1 & T2 & T3 & _ & _ & E2 & G1 & G2 & _).
        unfold advanceVisualPhases. cbn [State.glacial]. rewrite G2, E2.
        destruct (updateGlacial_territory (Frame.dt g) p1 T1 (Frame.oracle g) k1)
          as [_ Len].
        split; [split |].
        * rewrite Len, G1, N1. exact N.
        * apply updateGlacial_Forall.
          -- intros e effs He. exact He.
          -- intros acc e o' k' He. apply expandStep_frostInv, He.
          -- intros e (Ha & Hr). unfold frostInv.
             destruct (blockOne_fields (State.safeZone T1) e) as (A & X & _).
             rewrite A, X. auto.
          -- rewrite G1. exact F1.
        * apply updateGlacial_bullets_alive.
      + unfold advanceVisualPhases. cbn [State.glacial].
        rewrite B1, N1. auto.
    - unfold Inv. rewrite initState_glacial_enemies.
      destruct (initState_zones level o) as (S1 & k1 & S3 & k3 & E1 & _ & _ & G & _).
      rewrite G.
      pose proof (initVolcanic_only (resetState level) o 0%nat) as O1. rewrite E1 in O1.
      cbn [fst] in O1. destruct (onlyVolcanic_others _ _ O1) as (G1 & _).
      unfold _initGlacial.
      cbn [State.glacial State.setGlacial Glacial.frozenTiles Glacial.iceBullets].
      rewrite G1.
      cbn [resetState State.glacial Glacial.frozenTiles Glacial.iceBullets seq fold_left app
           length].
      split; [lia |]. split.
      + repeat (constructor; [unfold tileInv; cbn; auto |]). constructor.
      + split; [| constructor]. split; [reflexivity |].
        constructor; [| constructor]. unfold frostInv, makeFrostwyrm. cbn. split; [reflexivity | lra]. }
  destruct H as (L & T & (N & F) & B).
  split; [exact L |]. split; [exact T |]. split; [| exact B].
  destruct (Glacial.enemies (State.glacial (run (initState level o) frames)))
    as [| fw [| fw2 rest]]; cbn [length] in N; try lia.
  exists fw. split; [reflexivity |]. inversion F; assumption.
Qed.

(** ** Game time and the thaw of the glacial egg *)

Lemma updateZones_time dt p a S o k :
  State.time (fst (fst (updateZones dt p a S o k))) = State.time S.
Proof.
  unfold updateZones, bind.
  pose proof (updateVolcanic_only dt p a S o k) as H1.
  destruct (_updateVolcanic dt p a S o k) as [[S1 p1] k1]. cbn [fst] in H1.
  pose proof (updateGlacial_only dt p1 S1 o k1) as H2.
  destruct (_updateGlacial dt p1 S1 o k1) as [[S2 p2] k2]. cbn [fst] in H2.
  pose proof (updateCanopy_only dt p2 S2 o k2) as H3.
  destruct (_updateCanopy dt p2 S2 o k2) as [[S3 p3] k3]. cbn [fst] in H3.
  pose proof (updateReef_only dt p3 S3 o k3) as H4.
  destruct (_updateReef dt p3 S3 o k3) as [[S4 p4] k4]. cbn [fst] in H4 |- *.
  rewrite H4. cbn [State.time State.setReef]. rewrite H3. cbn [State.time State.setCanopy].
  rewrite H2. cbn [State.time State.setGlacial]. rewrite H1. reflexivity.
Qed.

Lemma enterFrame_time dt p S : State.time (fst (enterFrame dt p S)) = State.time S + dt.
Proof.
  unfold enterFrame, _updateSafeZone, detectMovement.
  cbn [fst State.playerMoved].
  destruct (negb (State.playerMoved S)); [| reflexivity].
  destruct (playerDisplaced _ _); reflexivity.
Qed.

Lemma frame_time S f : State.time (frame S f) = State.time S + Frame.dt f.
Proof.
  rewrite frame_unfold. cbv zeta.
  pose proof (enterFrame_time (Frame.dt f) (Frame.player f) S) as H.
  destruct (State.playerMoved _).
  - unfold advanceVisualPhases. cbn [State.time]. rewrite updateZones_time. exact H.
  - unfold advanceVisualPhases. cbn [State.time]. exact H.
Qed.

Lemma elapsed_from frames : forall t,
  fold_left (fun t f => t + Frame.dt f) frames t = t + elapsed frames.
Proof.
  unfold elapsed. induction frames as [| f frames IH]; intros t; cbn [fold_left].
  - lra.
  - rewrite IH, (IH (0 + Frame.dt f)). lra.
Qed.

Lemma run_time frames : forall S, State.time (run S frames) = State.time S + elapsed frames.
Proof.
  induction frames as [| f frames IH]; intros S.
  - unfold elapsed. cbn. lra.
  - rewrite run_cons, IH, frame_time. unfold elapsed at 2. cbn [fold_left].
    rewrite elapsed_from. lra.
Qed.

Lemma initState_time level o : State.time (initState level o) = 0.
Proof.
  unfold initState, init, bind.
  pose proof (initVolcanic_only (resetState level) o 0%nat) as A1.
  destruct (_initVolcanic (resetState level) o 0%nat) as [U1 j1]. cbn [fst] in A1.
  pose proof (initCanopy_only (_initGlacial U1) o j1) as A3.
  destruct (_initCanopy (_initGlacial U1) o j1) as [U3 j3]. cbn [fst] in A3.
  pose proof (initReef_only U3 o j3) as A4.
  rewrite A4. cbn [State.time State.setReef]. rewrite A3.
  cbn [State.time State.setCanopy _initGlacial State.setGlacial]. rewrite A1.
  reflexivity.
Qed.

Lemma updateGlacial_egg_step dt p S o k :
  exists p',
    Glacial.egg (State.glacial (fst (fst (_updateGlacial dt p S o k)))) =
    glacialEggStep dt p' (Glacial.egg (State.glacial S)).
Proof.
  unfold _updateGlacial, bind.
  destruct (foldR _ _ _ _ _) as [[acc en] k1].
  destruct (fold_left (bulletStep dt) _ _) as [bs p'].
  unfold ret. cbn [fst State.glacial State.setGlacial Glacial.egg].
  eexists. reflexivity.
Qed.

(** The thaw timer never runs ahead of the clock, and the egg is collected
    only with the timer at [thawRequired]. *)
Lemma glacialEggStep_clock dt p egg t :
  0 <= dt ->
  GlacialEgg.thawRequired egg = 2 ->
  0 <= GlacialEgg.thawTimer egg <= t ->
  (GlacialEgg.collected egg = true -> 2 <= GlacialEgg.thawTimer egg) ->
  let egg' := glacialEggStep dt p egg in
  GlacialEgg.thawRequired egg' = 2 /\
  0 <= GlacialEgg.thawTimer egg' <= t + dt /\
  (GlacialEgg.collected egg' = true -> 2 <= GlacialEgg.thawTimer egg') /\
  GlacialEgg.x egg' = GlacialEgg.x egg /\ GlacialEgg.y egg' = GlacialEgg.y egg.
Proof.
  intros Hdt Hq Ht Hc. cbv zeta. unfold glacialEggStep.
  destruct (GlacialEgg.collected egg) eqn:C; cbn [negb].
  - specialize (Hc eq_refl). split; [exact Hq |]. split; [lra |].
    split; [intros _; exact Hc | auto].
  - destruct (_ <=? Player.radius p + 30).
    + cbn [GlacialEgg.thawRequired GlacialEgg.thawTimer GlacialEgg.collected GlacialEgg.x
           GlacialEgg.y].
      rewrite Hq. split; [reflexivity |]. split; [lra |]. split; [| auto].
      destruct (_ >=? 2) eqn:E; [intros _; reflectR; lra | discriminate].
    + cbn [GlacialEgg.thawRequired GlacialEgg.thawTimer GlacialEgg.collected GlacialEgg.x
           GlacialEgg.y].
      split; [exact Hq |]. split; [| split; [discriminate | auto]].
      unfold Rmax. destruct (Rle_dec _ _); lra.
Qed.

(** X15.  With frames of non-negative [dt], [S.time] is the sum of the
    [dt]s of the frames so far, paused frames included, and the thaw timer
    of the glacial egg, which stays at (1800, 250) with [thawRequired = 2],
    is between 0 and [S.time]; the egg is collected only with the timer at 2
    or more, hence never in the first 2 seconds of a level. *)
Theorem glacial_egg_needs_two_seconds (level : Z) (o : Oracle.t) (frames : list Frame.t) :
  Forall (fun f => 0 <= Frame.dt f) frames ->
  let S := run (initState level o) frames in
  let egg := Glacial.egg (State.glacial S) in
  State.time S = elapsed frames /\
  GlacialEgg.x egg = 1800 /\ GlacialEgg.y egg = 250 /\ GlacialEgg.thawRequired egg = 2 /\
  0 <= GlacialEgg.thawTimer egg <= State.time S /\
  (GlacialEgg.collected egg = true -> 2 <= GlacialEgg.thawTimer egg /\ 2 <= elapsed frames).
Proof.
  intros Hdt. cbv zeta.
  set (Inv := fun S : State.t =>
                let egg := Glacial.egg (State.glacial S) in
                GlacialEgg.x egg = 1800 /\ GlacialEgg.y egg = 250 /\
                GlacialEgg.thawRequired egg = 2 /\
                0 <= GlacialEgg.thawTimer egg <= State.time S /\
                (GlacialEgg.collected egg = true -> 2 <= GlacialEgg.thawTimer egg)).
  assert (Hframe : forall S f, 0 <= Frame.dt f -> Inv S -> Inv (frame S f)).
  { intros S f Hf (X & Y & Q & T & C). unfold Inv. cbv zeta.
    rewrite frame_time. rewrite frame_unfold. cbv zeta.
    destruct (enterFrame_eggs (Frame.dt f) (Frame.player f) S) as (_ & EG & _).
    set (S1 := fst (enterFrame (Frame.dt f) (Frame.player f) S)) in *.
    set (a := snd (enterFrame (Frame.dt f) (Frame.player f) S)).
    destruct (State.playerMoved S1).
    - destruct (updateZones_split (Frame.dt f) (Frame.player f) a S1 (Frame.oracle f) 0%nat)
        as (p1 & p2 & p3 & k1 & k2 & k3 & T1 & T2 & T3 & _ & _ & E2 & G1 & G2 & _).
      unfold advanceVisualPhases. cbn [State.glacial]. rewrite G2, E2.
      destruct (updateGlacial_egg_step (Frame.dt f) p1 T1 (Frame.oracle f) k1) as (p' & Ep).
      rewrite Ep, G1, EG.
      destruct (glacialEggStep_clock (Frame.dt f) p' (Glacial.egg (State.glacial S))
                  (State.time S) Hf Q T C) as (Q' & T' & C' & X' & Y').
      rewrite X', Y'. auto.
    - unfold advanceVisualPhases. cbn [State.glacial]. rewrite EG.
      split; [exact X |]. split; [exact Y |]. split; [exact Q |]. split; [lra | exact C]. }
  assert (H0 : Inv (initState level o)).
  { unfold Inv. cbv zeta.
    destruct (initState_zones level o) as (S1 & k1 & S3 & k3 & E1 & _ & _ & G & _).
    rewrite G.
    pose proof (initVolcanic_only (resetState level) o 0%nat) as O1. rewrite E1 in O1.
    cbn [fst] in O1. destruct (onlyVolcanic_others _ _ O1) as (G1 & _).
    unfold _initGlacial. cbn [State.glacial State.setGlacial Glacial.egg]. rewrite G1.
    cbn [resetState State.glacial Glacial.egg GlacialEgg.x GlacialEgg.y
         GlacialEgg.thawRequired GlacialEgg.thawTimer GlacialEgg.collected].
    split; [reflexivity |]. split; [reflexivity |]. split; [reflexivity |].
    split; [| discriminate].
    rewrite initState_time. lra. }
  pose proof (initState_time level o) as Z.
  assert (Hrun : forall fs S, Forall (fun f => 0 <= Frame.dt f) fs -> Inv S ->
                              Inv (run S fs)).
  { induction fs as [| f fs IH]; intros S Hfs HI; [exact HI |].
    inversion Hfs as [| ? ? Hf Hrest]; subst.
    rewrite run_cons. apply IH; [exact Hrest |]. apply Hframe; assumption. }
  destruct (Hrun frames (initState level o) Hdt H0) as (X & Y & Q & T & C).
  pose proof (run_time frames (initState level o)) as RT. rewrite Z in RT.
  split; [rewrite RT; lra |]. split; [exact X |]. split; [exact Y |]. split; [exact Q |].
  split; [exact T |].
  intros Hc. specialize (C Hc). split; [exact C |]. rewrite RT in T. lra.
Qed.

Lemma glacial_egg_needs_two_seconds_witness :
  Forall (fun f => 0 <= Frame.dt f) [frameAt 1000 1000; frameAt 1010 1000] /\
  State.time (run (initState 1 oracle0) [frameAt 1000 1000; frameAt 1010 1000]) =
    elapsed [frameAt 1000 1000; frameAt 1010 1000].
Proof.
  assert (H : Forall (fun f => 0 <= Frame.dt f) [frameAt 1000 1000; frameAt 1010 1000]).
  { repeat constructor; unfold frameAt; cbn [Frame.dt]; lra. }
  split; [exact H |].
  exact (proj1 (glacial_egg_needs_two_seconds 1 oracle0
                  [frameAt 1000 1000; frameAt 1010 1000] H)).
Defined.

(** ** The edge [abilityJustUsed] *)

Lemma enterFrame_edge dt p S :
  snd (enterFrame dt p S) = abilityEdge p S.
Proof.
  unfold enterFrame, abilityEdge, detectMovement. cbn [snd].
  destruct (negb (State.playerMoved _)); [| reflexivity].
  destruct (playerDisplaced _ _); reflexivity.
Qed.

Lemma updateZones_prevAbilityCooldown dt p a S o k :
  State.prevAbilityCooldown (fst (fst (updateZones dt p a S o k))) =
  State.prevAbilityCooldown S.
Proof.
  unfold updateZones, bind.
  pose proof (updateVolcanic_only dt p a S o k) as H1.
  destruct (_updateVolcanic dt p a S o k) as [[S1 p1] k1]. cbn [fst] in H1.
  pose proof (updateGlacial_only dt p1 S1 o k1) as H2.
  destruct (_updateGlacial dt p1 S1 o k1) as [[S2 p2] k2]. cbn [fst] in H2.
  pose proof (updateCanopy_only dt p2 S2 o k2) as H3.
  destruct (_updateCanopy dt p2 S2 o k2) as [[S3 p3] k3]. cbn [fst] in H3.
  pose proof (updateReef_only dt p3 S3 o k3) as H4.
  destruct (_updateReef dt p3 S3 o k3) as [[S4 p4] k4]. cbn [fst] in H4 |- *.
  destruct (onlyReef_header _ _ H4) as (_ & _ & _ & _ & A4 & _).
  destruct (onlyCanopy_header _ _ H3) as (_ & _ & _ & _ & A3 & _).
  destruct (onlyGlacial_header _ _ H2) as (_ & _ & _ & _ & A2 & _).
  destruct (onlyVolcanic_header _ _ H1) as (_ & _ & _ & _ & A1 & _).
  congruence.
Qed.

Lemma frame_prevAbilityCooldown S f :
  State.prevAbilityCooldown (frame S f) = Player.abilityCooldown (Frame.player f).
Proof.
  rewrite frame_unfold. cbv zeta.
  assert (H : State.prevAbilityCooldown (fst (enterFrame (Frame.dt f) (Frame.player f) S)) =
              Player.abilityCooldown (Frame.player f)).
  { unfold enterFrame, _updateSafeZone. reflexivity. }
  destruct (State.playerMoved _).
  - unfold advanceVisualPhases. cbn [State.prevAbilityCooldown].
    rewrite updateZones_prevAbilityCooldown. exact H.
  - unfold advanceVisualPhases. cbn [State.prevAbilityCooldown]. exact H.
Qed.

(** X16.  [abilityJustUsed] is an edge of the player's cooldown between
    two calls of [update]: after a frame played with player [p], the next
    frame, with player [p'], has [abilityJustUsed] exactly when [p]'s cooldown
    was 0 and [p']'s is positive.  So it is never true on two frames in a row,
    and on the first frame of a level it is true as soon as the cooldown is
    positive, [prevAbilityCooldown] being 0 after [init]. *)
Theorem ability_edge (S : State.t) (f : Frame.t) (dt' : R) (p' : Player.t) :
  let used := snd (enterFrame (Frame.dt f) (Frame.player f) S) in
  let used' := snd (enterFrame dt' p' (frame S f)) in
  (used' = true <->
   Player.abilityCooldown (Frame.player f) = 0 /\ 0 < Player.abilityCooldown p') /\
  (used = true -> used' = false) /\
  (forall level o dt p,
     snd (enterFrame dt p (initState level o)) = true <-> 0 < Player.abilityCooldown p).
Proof.
  cbv zeta. rewrite !enterFrame_edge. unfold abilityEdge.
  rewrite frame_prevAbilityCooldown. split; [| split].
  - rewrite andb_true_iff, Reqb_true, Rltb_true. tauto.
  - intros H. apply andb_true_iff in H. destruct H as [_ H]. reflectR.
    replace (Player.abilityCooldown (Frame.player f) =? 0) with false; [reflexivity |].
    symmetry. apply Reqb_false. lra.
  - intros level o dt p. rewrite enterFrame_edge. unfold abilityEdge.
    destruct (initState_header level o) as (_ & _ & _ & _ & A & _). rewrite A.
    rewrite Reqb_refl. cbn [andb]. apply Rltb_true.
Qed.

Lemma ability_edge_witness :
  snd (enterFrame 0.1 (playerAt 0 0) (frame collectedState abilityFrame)) = true <->
  Player.abilityCooldown (Frame.player abilityFrame) = 0 /\
  0 < Player.abilityCooldown (playerAt 0 0).
Proof.
  exact (proj1 (ability_edge collectedState abilityFrame 0.1 (playerAt 0 0))).
Defined.

(** ** The trail of the Lightning Dash *)

Lemma clamp01_cases (t0 : R) :
  let t := Rmax 0 (Rmin 1 t0) in
  (t0 <= 0 /\ t = 0) \/ (0 <= t0 <= 1 /\ t = t0) \/ (1 <= t0 /\ t = 1).
Proof.
  cbv zeta. unfold Rmax, Rmin.
  destruct (Rle_dec 1 t0); destruct (Rle_dec 0 _);
    first [left; lra | right; left; lra | right; right; lra].
Qed.

(** The clamped projection is the point of the segment nearest to
    [(px, py)]. *)
Lemma closest_point_minimal (px py x1 y1 x2 y2 s : R) :
  let dx := x2 - x1 in
  let dy := y2 - y1 in
  let lenSq := dx * dx + dy * dy in
  let t0 := if lenSq =? 0 then 0 else ((px - x1) * dx + (py - y1) * dy) / lenSq in
  let t := Rmax 0 (Rmin 1 t0) in
  0 <= s <= 1 ->
  (px - (x1 + t * dx)) * (px - (x1 + t * dx)) + (py - (y1 + t * dy)) * (py - (y1 + t * dy)) <=
  (px - (x1 + s * dx)) * (px - (x1 + s * dx)) + (py - (y1 + s * dy)) * (py - (y1 + s * dy)).
Proof.
  intros dx dy lenSq t0 t Hs.
  pose proof (clamp01_cases t0) as Hc. cbv zeta in Hc. fold t in Hc.
  clearbody t.
  destruct (lenSq =? 0) eqn:E; reflectR.
  - assert (Hx : dx = 0) by (unfold lenSq in E; nra).
    assert (Hy : dy = 0) by (unfold lenSq in E; nra).
    rewrite Hx, Hy. nra.
  - assert (Hl : 0 < lenSq) by (unfold lenSq in *; nra).
    assert (Hid :
      (px - (x1 + s * dx)) * (px - (x1 + s * dx)) +
      (py - (y1 + s * dy)) * (py - (y1 + s * dy)) -
      ((px - (x1 + t * dx)) * (px - (x1 + t * dx)) +
       (py - (y1 + t * dy)) * (py - (y1 + t * dy))) =
      (s - t) * lenSq * (s + t - 2 * t0)).
    { unfold t0, lenSq. field. exact E. }
    clearbody t0.
    assert (Hp : 0 <= (s - t) * lenSq * (s + t - 2 * t0)).
    { destruct Hc as [[H1 ->] | [[H1 ->] | [H1 ->]]].
      - apply Rmult_le_pos; [apply Rmult_le_pos |]; lra.
      - replace ((s - t0) * lenSq * (s + t0 - 2 * t0)) with (lenSq * ((s - t0) * (s - t0)))
          by ring.
        apply Rmult_le_pos; [lra | apply Rle_0_sqr].
      - replace ((s - 1) * lenSq * (s + 1 - 2 * t0))
          with ((1 - s) * lenSq * (2 * t0 - s - 1)) by ring.
        apply Rmult_le_pos; [apply Rmult_le_pos |]; lra. }
    lra.
Qed.

(** X17.  [isNearLineSegment] answers true exactly when some point of the
    segment from [(x1, y1)] to [(x2, y2)] is within [|halfWidth|] of
    [(px, py)]: the clamped projection it tests is the nearest point of the
    segment, also when the segment is a single point. *)
Theorem near_segment_iff (px py x1 y1 x2 y2 halfWidth : R) :
  isNearLineSegment px py x1 y1 x2 y2 halfWidth = true <->
  exists s, 0 <= s <= 1 /\
    (px - (x1 + s * (x2 - x1))) * (px - (x1 + s * (x2 - x1))) +
    (py - (y1 + s * (y2 - y1))) * (py - (y1 + s * (y2 - y1))) <= halfWidth * halfWidth.
Proof.
  unfold isNearLineSegment. cbv zeta. rewrite Rleb_true. split.
  - intros H. eexists. split; [| exact H].
    apply (clamp_range 0 1). lra.
  - intros (s & Hs & H).
    pose proof (closest_point_minimal px py x1 y1 x2 y2 s Hs) as M. cbv zeta in M.
    lra.
Qed.

(** ** The ability cooldown *)

Lemma sumR_from (l : list R) : forall a, fold_left Rplus l a = a + sumR l.
Proof.
  unfold sumR. induction l as [| x l IH]; intros a; cbn [fold_left].
  - lra.
  - rewrite IH, (IH (0 + x)). lra.
Qed.

Lemma sumR_cons (x : R) (l : list R) : sumR (x :: l) = x + sumR l.
Proof. unfold sumR at 1. cbn [fold_left]. rewrite sumR_from. lra. Qed.

Lemma sumR_nonneg (l : list R) : Forall (fun dt => 0 <= dt) l -> 0 <= sumR l.
Proof.
  intros H. induction H as [| x l Hx Hl IH]; [unfold sumR; cbn; lra |].
  rewrite sumR_cons. lra.
Qed.

Lemma update_cooldown dt p :
  0 <= dt -> 0 <= Player.abilityCooldown p ->
  Player.abilityCooldown (PlayerJs.update dt p) = Rmax 0 (Player.abilityCooldown p - dt).
Proof.
  intros Hdt Hc. unfold PlayerJs.update. cbn [Player.abilityCooldown].
  destruct (_ >? 0) eqn:E; [reflexivity |]. reflectR.
  unfold Rmax. destruct (Rle_dec _ _); lra.
Qed.

Lemma updates_cooldown dts : forall p,
  Forall (fun dt => 0 <= dt) dts -> 0 <= Player.abilityCooldown p ->
  Player.abilityCooldown (fold_left (fun p dt => PlayerJs.update dt p) dts p) =
  Rmax 0 (Player.abilityCooldown p - sumR dts).
Proof.
  induction dts as [| dt dts IH]; intros p Hd Hc.
  - unfold sumR. cbn. unfold Rmax. destruct (Rle_dec _ _); lra.
  - inversion Hd as [| ? ? Hdt Hrest]; subst. cbn [fold_left].
    pose proof (update_cooldown dt p Hdt Hc) as U.
    pose proof (sumR_nonneg dts Hrest) as N.
    rewrite IH; [| exact Hrest | rewrite U; apply Rmax_l].
    rewrite U, sumR_cons. unfold Rmax.
    repeat destruct (Rle_dec _ _); lra.
Qed.

Lemma abilities_cooldown {V : Type} (id : Z) (fn : Game.t V -> Game.t V) game :
  PlayerJs.abilities id = Some fn ->
  Player.abilityCooldown (Game.player (fn game)) = Player.abilityCooldown (Game.player game).
Proof.
  unfold PlayerJs.abilities.
  destruct id as [| q | q]; try discriminate.
  destruct q as [[[| |] | [| |] |] | [[| |] | [| |] |] |]; try discriminate;
    intros H; injection H as <-; reflexivity.
Qed.

Lemma abilities_defined {V : Type} (id : Z) :
  (1 <= id <= 6)%Z -> exists fn : Game.t V -> Game.t V, PlayerJs.abilities id = Some fn.
Proof.
  intros H.
  assert (C : id = 1%Z \/ id = 2%Z \/ id = 3%Z \/ id = 4%Z \/ id = 5%Z \/ id = 6%Z) by lia.
  destruct C as [-> | [-> | [-> | [-> | [-> | ->]]]]]; eexists; reflexivity.
Qed.

(** X18.  The cooldown of [src/player.js].  With a dragon of the table and
    the cooldown at 0, [useAbility] sets the cooldown to 10; under
    [Player.update] with non-negative [dt]s the cooldown is then 10 minus the
    time elapsed, floored at 0; until 10 s have elapsed a further
    [useAbility] changes nothing, enemies included, and once they have it
    fires again. *)
Theorem ability_cooldown_gate {V : Type} (id : Z) (game : Game.t V) (dts : list R) :
  (1 <= id <= 6)%Z ->
  Player.abilityCooldown (Game.player game) = 0 ->
  Forall (fun dt => 0 <= dt) dts ->
  let g1 := PlayerJs.useAbility id game in
  let g2 := playerUpdates dts g1 in
  Player.abilityCooldown (Game.player g1) = 10 /\
  Player.abilityCooldown (Game.player g2) = Rmax 0 (10 - sumR dts) /\
  Game.enemies g2 = Game.enemies g1 /\
  (sumR dts < 10 -> PlayerJs.useAbility id g2 = g2) /\
  (10 <= sumR dts -> Player.abilityCooldown (Game.player (PlayerJs.useAbility id g2)) = 10).
Proof.
  intros Hid Hc Hd. cbv zeta.
  destruct (abilities_defined (V := V) id Hid) as (fn & Hfn).
  assert (H1 : Player.abilityCooldown (Game.player (PlayerJs.useAbility id game)) = 10).
  { unfold PlayerJs.useAbility. rewrite Hc.
    replace (0 >? 0) with false by (symmetry; reflectR; lra).
    rewrite Hfn. reflexivity. }
  assert (H2 : Player.abilityCooldown
                 (Game.player (playerUpdates dts (PlayerJs.useAbility id game))) =
               Rmax 0 (10 - sumR dts)).
  { unfold playerUpdates. cbn [Game.player].
    rewrite updates_cooldown; [rewrite H1; reflexivity | exact Hd | rewrite H1; lra]. }
  split; [exact H1 |]. split; [exact H2 |]. split; [reflexivity |]. split.
  - intros Hs. unfold PlayerJs.useAbility at 1. rewrite H2.
    replace (Rmax 0 (10 - sumR dts) >? 0) with true; [reflexivity |].
    symmetry. reflectR. unfold Rmax. destruct (Rle_dec _ _); lra.
  - intros Hs. unfold PlayerJs.useAbility at 1. rewrite H2.
    replace (Rmax 0 (10 - sumR dts) >? 0) with false.
    + rewrite Hfn. reflexivity.
    + symmetry. reflectR. unfold Rmax. destruct (Rle_dec _ _); lra.
Qed.

Lemma ability_cooldown_gate_witness :
  Player.abilityCooldown
    (Game.player (playerUpdates [1; 2] (PlayerJs.useAbility 6 sampleGame))) =
  Rmax 0 (10 - sumR [1; 2]).
Proof.
  assert (Hid : (1 <= 6 <= 6)%Z) by lia.
  assert (Hc : Player.abilityCooldown (Game.player sampleGame) = 0) by reflexivity.
  assert (Hd : Forall (fun dt => 0 <= dt) [1; 2]) by (repeat constructor; lra).
  exact (proj1 (proj2 (ability_cooldown_gate 6 sampleGame [1; 2] Hid Hc Hd))).
Defined.

(** ** Frostfang's permanent slow *)

Lemma massFreeze_effects {V : Type} (e : Enemy.t V) :
  Enemy.activeEffects (Abilities.massFreeze e) =
  Enemy.activeEffects e ++
  Effect.mk freeze (Finite 4) ::
  (if existsb isPermanentSlow (Enemy.activeEffects e) then []
   else [Effect.mk (permanentSlow (1 - 0.3)) Infinity]).
Proof.
  unfold Abilities.massFreeze, pushEnemyEffect. cbv zeta.
  cbn [Enemy.activeEffects Enemy.setEffects].
  rewrite existsb_app. cbn [existsb isPermanentSlow Effect.type]. rewrite !orb_false_r.
  destruct (existsb isPermanentSlow (Enemy.activeEffects e)); cbn [negb].
  - reflexivity.
  - cbn [Enemy.activeEffects Enemy.setEffects]. rewrite <- app_assoc. reflexivity.
Qed.

Lemma massFreeze_iter_slowed {V : Type} (n : nat) (e : Enemy.t V) :
  existsb isPermanentSlow (Enemy.activeEffects (Nat.iter (S n) Abilities.massFreeze e)) = true.
Proof.
  change (Nat.iter (S n) Abilities.massFreeze e)
    with (Abilities.massFreeze (Nat.iter n Abilities.massFreeze e)).
  rewrite massFreeze_effects, existsb_app.
  destruct (existsb isPermanentSlow (Enemy.activeEffects _)); reflexivity.
Qed.

Lemma massFreeze_iter_fresh {V : Type} (n : nat) (e : Enemy.t V) :
  Enemy.activeEffects e = [] ->
  Enemy.activeEffects (Nat.iter (S n) Abilities.massFreeze e) =
  [Effect.mk freeze (Finite 4); Effect.mk (permanentSlow (1 - 0.3)) Infinity] ++
  repeat (Effect.mk freeze (Finite 4)) n.
Proof.
  intros He. induction n as [| n IH].
  - change (Nat.iter 1 Abilities.massFreeze e) with (Abilities.massFreeze e).
    rewrite massFreeze_effects, He. reflexivity.
  - change (Nat.iter (S (S n)) Abilities.massFreeze e)
      with (Abilities.massFreeze (Nat.iter (S n) Abilities.massFreeze e)).
    rewrite massFreeze_effects, massFreeze_iter_slowed, IH.
    rewrite <- app_assoc. f_equal.
    change (repeat (Effect.mk freeze (Finite 4)) n ++ [Effect.mk freeze (Finite 4)])
      with (repeat (Effect.mk freeze (Finite 4)) n ++ repeat (Effect.mk freeze (Finite 4)) 1).
    rewrite <- repeat_app. replace (n + 1)%nat with (S n) by lia. reflexivity.
Qed.

Lemma tick_freezes dt n :
  4 <= dt -> tickEffectList dt (repeat (Effect.mk freeze (Finite 4)) n) = [].
Proof.
  intros H. induction n as [| n IH]; [reflexivity |].
  cbn [repeat]. rewrite tickEffectList_cons. unfold tickEffect. cbn [Effect.duration].
  replace (4 - dt <=? 0) with true by (symmetry; reflectR; lra). exact IH.
Qed.

Lemma filter_freezes n :
  filter isPermanentSlow (repeat (Effect.mk freeze (Finite 4)) n) = [].
Proof. induction n as [| n IH]; [reflexivity | exact IH]. Qed.

(** X19.  Frostfang's permanent slow does not stack.  After any number
    [n + 1] of Mass Freezes an enemy that had no effect carries one
    [permanentSlow] of multiplier 0.7 and [n + 1] freezes; while they last
    [_chasePlayer] leaves it where it is, and once [_tickEffects] has run for
    4 s or more the only effect left is the slow, so that the enemy chases at
    0.7 times its speed, however often the ability was used. *)
Theorem frostfang_slow_never_stacks {V : Type} (e : Enemy.t V) (n : nat) (dt : R)
    (p : Player.t) (dt' : R) :
  Enemy.activeEffects e = [] -> 4 <= dt ->
  let e' := Nat.iter (S n) Abilities.massFreeze e in
  let e'' := Enemy.setEffects e' (tickEffectList dt (Enemy.activeEffects e')) in
  filter isPermanentSlow (Enemy.activeEffects e') =
    [Effect.mk (permanentSlow (1 - 0.3)) Infinity] /\
  _chasePlayer e' p dt' = e' /\
  Enemy.activeEffects e'' = [Effect.mk (permanentSlow (1 - 0.3)) Infinity] /\
  existsb blocksMovement (Enemy.activeEffects e'') = false /\
  fold_left slowFactor (Enemy.activeEffects e'') 1 = 1 * (1 - 0.3).
Proof.
  intros He Hdt. cbv zeta.
  pose proof (massFreeze_iter_fresh n e He) as E.
  assert (T : tickEffectList dt
                (Enemy.activeEffects (Nat.iter (S n) Abilities.massFreeze e)) =
              [Effect.mk (permanentSlow (1 - 0.3)) Infinity]).
  { rewrite E. cbn [app]. rewrite !tickEffectList_cons. unfold tickEffect at 1 2.
    cbn [Effect.duration].
    replace (4 - dt <=? 0) with true by (symmetry; reflectR; lra).
    rewrite tick_freezes by exact Hdt. reflexivity. }
  split; [| split; [| split; [| split]]].
  - rewrite E. cbn [app filter isPermanentSlow Effect.type].
    rewrite filter_freezes. reflexivity.
  - unfold _chasePlayer. rewrite E. cbn [app existsb blocksMovement Effect.type orb].
    destruct (Enemy.frozen _); reflexivity.
  - cbn [Enemy.activeEffects Enemy.setEffects]. exact T.
  - cbn [Enemy.activeEffects Enemy.setEffects]. rewrite T. reflexivity.
  - cbn [Enemy.activeEffects Enemy.setEffects]. rewrite T. reflexivity.
Qed.

Lemma frostfang_slow_never_stacks_witness :
  fold_left slowFactor
    (Enemy.activeEffects
       (Enemy.setEffects (Nat.iter 3 Abilities.massFreeze sampleEnemy)
          (tickEffectList 4
             (Enemy.activeEffects (Nat.iter 3 Abilities.massFreeze sampleEnemy))))) 1 =
  1 * (1 - 0.3).
Proof.
  assert (He : Enemy.activeEffects sampleEnemy = []) by reflexivity.
  assert (Hdt : 4 <= 4) by lra.
  exact (proj2 (proj2 (proj2 (proj2
           (frostfang_slow_never_stacks sampleEnemy 2 4 (playerAt 0 0) 0 He Hdt))))).
Defined.

(** ** What the abilities do to one enemy *)

Lemma slowFactor_app (effs : list Effect.t) (eff : Effect.t) (m : R) :
  fold_left slowFactor (effs ++ [eff]) m = slowFactor (fold_left slowFactor effs m) eff.
Proof. rewrite fold_left_app. reflexivity. Qed.

(** X20.  The abilities of [src/player.js] on one enemy, as
    [src/enemies.js] then sees it.  Slow Bubble halves the speed multiplier
    of [_chasePlayer] for an enemy within 200 px, once per use, and leaves an
    enemy further away as it is.  Gravity Pull puts the enemy on the player
    and [_chasePlayer] then does not move it.  Fire Ring moves an enemy at
    distance [d > 0] to distance [d + 80], and does not move an enemy that is
    exactly on the player.  Lightning Dash stuns exactly the enemies within
    24 px of some point of the trail. *)
Theorem abilities_on_enemy {V : Type} (p : Player.t) (e : Enemy.t V) :
  let d := hypot (Enemy.x e - Player.x p) (Enemy.y e - Player.y p) in
  (* Tidesong *)
  (d <= 200 ->
   fold_left slowFactor (Enemy.activeEffects (Abilities.slowBubble p e)) 1 =
   fold_left slowFactor (Enemy.activeEffects e) 1 * 0.5) /\
  (200 < d -> Abilities.slowBubble p e = e) /\
  (* Shadowmend *)
  (Enemy.x (Abilities.gravityPull p e) = Player.x p /\
   Enemy.y (Abilities.gravityPull p e) = Player.y p /\
   forall p' dt, _chasePlayer (Abilities.gravityPull p e) p' dt = Abilities.gravityPull p e) /\
  (* Emberclaw *)
  (d <> 0 ->
   hypot (Enemy.x (Abilities.fireRing p e) - Player.x p)
         (Enemy.y (Abilities.fireRing p e) - Player.y p) = d + 80) /\
  (d = 0 ->
   Enemy.x (Abilities.fireRing p e) = Enemy.x e /\
   Enemy.y (Abilities.fireRing p e) = Enemy.y e) /\
  (* Stormtalon *)
  (forall startX startY endX endY,
     let stunned := Abilities.lightningTrail startX startY endX endY e in
     ((exists s, 0 <= s <= 1 /\
         hypot (Enemy.x e - (startX + s * (endX - startX)))
               (Enemy.y e - (startY + s * (endY - startY))) <= 24) ->
      Enemy.activeEffects stunned = Enemy.activeEffects e ++ [Effect.mk stun (Finite 2)]) /\
     (~ (exists s, 0 <= s <= 1 /\
           hypot (Enemy.x e - (startX + s * (endX - startX)))
                 (Enemy.y e - (startY + s * (endY - startY))) <= 24) ->
      stunned = e)).
Proof.
  intros d. split; [| split; [| split; [| split; [| split]]]].
  - intros H. unfold Abilities.slowBubble. cbv zeta. fold d.
    replace (d <=? 200) with true by (symmetry; reflectR; exact H).
    unfold pushEnemyEffect. cbn [Enemy.activeEffects Enemy.setEffects].
    rewrite slowFactor_app. reflexivity.
  - intros H. unfold Abilities.slowBubble. cbv zeta. fold d.
    replace (d <=? 200) with false by (symmetry; reflectR; exact H). reflexivity.
  - split; [reflexivity |]. split; [reflexivity |].
    intros p' dt. unfold _chasePlayer, Abilities.gravityPull, pushEnemyEffect.
    cbn [Enemy.frozen Enemy.activeEffects Enemy.setEffects Enemy.moveTo].
    rewrite existsb_app. cbn [existsb blocksMovement Effect.type]. rewrite orb_true_r.
    destruct (Enemy.frozen e); reflexivity.
  - intros H. unfold Abilities.fireRing. cbv zeta. fold d.
    cbn [Enemy.x Enemy.y Enemy.moveTo]. rewrite (orOne_id d H).
    replace (Enemy.x e + (Enemy.x e - Player.x p) / d * 80 - Player.x p)
      with ((Enemy.x e - Player.x p) + (Enemy.x e - Player.x p) / d * 80) by lra.
    replace (Enemy.y e + (Enemy.y e - Player.y p) / d * 80 - Player.y p)
      with ((Enemy.y e - Player.y p) + (Enemy.y e - Player.y p) / d * 80) by lra.
    unfold d. rewrite hypot_shift by exact H. fold d.
    pose proof (hypot_nonneg (Enemy.x e - Player.x p) (Enemy.y e - Player.y p)) as N.
    fold d in N. apply Rabs_pos_eq. lra.
  - intros H. destruct (hypot_zero_components _ _ H) as [Hx Hy].
    unfold Abilities.fireRing. cbv zeta. cbn [Enemy.x Enemy.y Enemy.moveTo].
    rewrite Hx, Hy. split; lra.
  - intros startX startY endX endY. cbv zeta.
    assert (Hiff :
      isNearLineSegment (Enemy.x e) (Enemy.y e) startX startY endX endY 24 = true <->
      exists s, 0 <= s <= 1 /\
        hypot (Enemy.x e - (startX + s * (endX - startX)))
              (Enemy.y e - (startY + s * (endY - startY))) <= 24).
    { assert (Hsq : forall a b, hypot a b <= 24 <-> a * a + b * b <= 24 * 24).
      { intros a b. pose proof (hypot_sqr a b) as Q. pose proof (hypot_nonneg a b) as N.
        split; intros; nra. }
      unfold isNearLineSegment. cbv zeta. rewrite Rleb_true. split.
      - intros H. eexists. split; [apply (clamp_range 0 1); lra |].
        apply Hsq. exact H.
      - intros (s & Hs & H). apply Hsq in H.
        pose proof (closest_point_minimal (Enemy.x e) (Enemy.y e) startX startY endX endY
                      s Hs) as M.
        cbv zeta in M. lra. }
    unfold Abilities.lightningTrail.
    destruct (isNearLineSegment _ _ _ _ _ _ _) eqn:E.
    + split; [intros _; reflexivity |].
      intros N. exfalso. apply N, Hiff. reflexivity.
    + split; [| intros _; reflexivity].
      intros H. apply Hiff in H. discriminate.
Qed.

Lemma abilities_on_enemy_witness :
  hypot (Enemy.x (Abilities.fireRing (playerAt 1400 500) sampleEnemy) -
         Player.x (playerAt 1400 500))
        (Enemy.y (Abilities.fireRing (playerAt 1400 500) sampleEnemy) -
         Player.y (playerAt 1400 500)) =
  hypot (Enemy.x sampleEnemy - Player.x (playerAt 1400 500))
        (Enemy.y sampleEnemy - Player.y (playerAt 1400 500)) + 80.
Proof.
  assert (Hd : hypot (Enemy.x sampleEnemy - Player.x (playerAt 1400 500))
                     (Enemy.y sampleEnemy - Player.y (playerAt 1400 500)) <> 0).
  { unfold sampleEnemy, playerAt. cbn [Enemy.x Enemy.y Player.x Player.y].
    replace (1500 - 1400) with 100 by lra. replace (500 - 500) with 0 by lra.
    rewrite hypot_axis; lra. }
  exact (proj1 (proj2 (proj2 (proj2 (abilities_on_enemy (playerAt 1400 500) sampleEnemy))))
           Hd).
Defined.

(** ** Silent multiplication *)

Lemma addCanopyObstacles_multiplyTimer n S o k :
  Canopy.multiplyTimer (State.canopy (fst (_addCanopyObstacles n S o k))) =
  Canopy.multiplyTimer (State.canopy S).
Proof.
  unfold _addCanopyObstacles.
  apply (repeatR_inv
           (fun T => Canopy.multiplyTimer (State.canopy T) =
                     Canopy.multiplyTimer (State.canopy S)));
    [| reflexivity].
  intros a o' k' Ha. cbn. exact Ha.
Qed.

Lemma assignCanopyEgg_multiplyTimer S o k :
  Canopy.multiplyTimer (State.canopy (fst (_assignCanopyEgg S o k))) =
  Canopy.multiplyTimer (State.canopy S).
Proof.
  unfold _assignCanopyEgg.
  destruct (Canopy.obstacles (State.canopy S)) as [| ob obs]; [reflexivity |].
  unfold bind, random. destruct (nth_error _ _); reflexivity.
Qed.

Lemma canopyEscalate_multiplyTimer dt S o k :
  Canopy.multiplyTimer (State.canopy (fst (canopyEscalate dt S o k))) =
  Canopy.multiplyTimer (State.canopy S).
Proof.
  unfold canopyEscalate. destruct (_ >=? 5); [| reflexivity].
  unfold bind.
  match goal with |- context [_addCanopyObstacles ?n ?S0 o k] =>
    pose proof (addCanopyObstacles_multiplyTimer n S0 o k) as A;
    destruct (_addCanopyObstacles n S0 o k) as [S1 k1]
  end.
  cbn [fst] in A.
  destruct (CanopyEgg._host _); [exact A |].
  rewrite assignCanopyEgg_multiplyTimer. exact A.
Qed.

Lemma canopyJolt_multiplyTimer dt S o k :
  Canopy.multiplyTimer (State.canopy (fst (canopyJolt dt S o k))) =
  Canopy.multiplyTimer (State.canopy S).
Proof.
  unfold canopyJolt, bind, random. destruct (_ <? _); [| reflexivity].
  destruct (mapR _ _ _ _). reflexivity.
Qed.

(** What the phases after [canopyMultiply] leave of its work. *)
Lemma updateCanopy_after_multiply dt p S o k :
  let S1 := fst (canopyMultiply dt p S o k) in
  let c' := State.canopy (fst (fst (_updateCanopy dt p S o k))) in
  length (Canopy.enemies c') = length (Canopy.enemies (State.canopy S1)) /\
  Canopy.multiplyTimer c' = Canopy.multiplyTimer (State.canopy S1).
Proof.
  cbv zeta. unfold _updateCanopy, bind.
  destruct (canopyMultiply dt p S o k) as [S1 k1]. cbn [fst].
  pose proof (canopyEscalate_enemies dt (canopyTeleport dt S1) o k1) as H2.
  pose proof (canopyEscalate_multiplyTimer dt (canopyTeleport dt S1) o k1) as M2.
  destruct (canopyEscalate dt (canopyTeleport dt S1) o k1) as [S2 k2]. cbn [fst] in H2, M2.
  pose proof (canopyJolt_enemies dt S2 o k2) as H3.
  pose proof (canopyJolt_multiplyTimer dt S2 o k2) as M3.
  destruct (canopyJolt dt S2 o k2) as [S3 k3]. cbn [fst] in H3, M3.
  unfold ret.
  cbn [fst State.canopy State.setCanopy setCanopyEnemies Canopy.enemies
       Canopy.multiplyTimer].
  rewrite length_blockFromSafeZone. unfold canopyEnemies.
  cbn [State.canopy State.setCanopy setCanopyEnemies setCanopyEgg Canopy.enemies
       Canopy.multiplyTimer].
  unfold _tickEffects. rewrite !length_map, H3, H2, M3, M2.
  unfold canopyTeleport. destruct (_ >=? 5);
    cbn [State.canopy State.setCanopy setCanopyEnemies setCanopyTimers Canopy.enemies
         Canopy.multiplyTimer]; rewrite ?length_map; auto.
Qed.

(** X21.  The Canopy multiplies only out of the player's sight.  In a call
    of [_updateCanopy], [multiplyTimer] advances by [dt] and the enemy list
    keeps its length unless the player is outside the Canopy rectangle and
    the timer reaches 10; then the timer restarts at 0 and one Thornwyrm is
    added, provided fewer than 6 are alive.  No other phase of the simulator
    adds or removes an enemy. *)
Theorem canopy_multiplies_unseen (dt : R) (p : Player.t) (S : State.t) (o : Oracle.t)
    (k : nat) :
  let c := State.canopy S in
  let c' := State.canopy (fst (fst (_updateCanopy dt p S o k))) in
  let due := negb (_inZone (Player.x p) (Player.y p) ZONES.canopy) &&
             (Canopy.multiplyTimer c + dt >=? 10) in
  (due = false ->
   Canopy.multiplyTimer c' = Canopy.multiplyTimer c + dt /\
   length (Canopy.enemies c') = length (Canopy.enemies c)) /\
  (due = true ->
   Canopy.multiplyTimer c' = 0 /\
   length (Canopy.enemies c') =
     if (MAX_PER_ZONE <=? _aliveCount (Canopy.enemies c))%nat
     then length (Canopy.enemies c) else Datatypes.S (length (Canopy.enemies c))).
Proof.
  cbv zeta.
  destruct (updateCanopy_after_multiply dt p S o k) as [L M]. cbv zeta in L, M.
  rewrite L, M. unfold canopyMultiply. split; intros H; rewrite H.
  - unfold ret. cbn. auto.
  - unfold _spawnThornwyrm.
    cbn [State.canopy State.setCanopy setCanopyTimers Canopy.enemies].
    destruct (MAX_PER_ZONE <=? _)%nat.
    + unfold ret. cbn. auto.
    + unfold bind, random, ret.
      cbn [fst State.canopy State.setCanopy setCanopyEnemies Canopy.enemies
           Canopy.multiplyTimer].
      rewrite length_app. cbn [length]. split; [reflexivity | lia].
Qed.

Lemma canopy_multiplies_unseen_witness :
  Canopy.multiplyTimer
    (State.canopy (fst (fst (_updateCanopy 0.1 (playerAt 1000 1000) collectedState
                               oracle0 0%nat)))) =
  Canopy.multiplyTimer (State.canopy collectedState) + 0.1.
Proof.
  assert (Hdue : negb (_inZone (Player.x (playerAt 1000 1000)) (Player.y (playerAt 1000 1000))
                         ZONES.canopy) &&
                 (Canopy.multiplyTimer (State.canopy collectedState) + 0.1 >=? 10) = false).
  { apply andb_false_iff. right.
    cbn [collectedState State.canopy Canopy.multiplyTimer]. apply Rleb_false. lra. }
  exact (proj1 (proj1 (canopy_multiplies_unseen 0.1 (playerAt 1000 1000) collectedState
                         oracle0 0%nat) Hdue)).
Defined.

(** ** The derived fields of a Magmawyrm *)

Lemma magmaStep_magmaInv S dt p a done rest trails e o k :
  magmaInv e ->
  let r := fst (magmaStep S dt p a done rest trails e o k) in
  magmaInv (fst (fst r)) /\ Forall magmaInv (snd r).
Proof.
  intros (Hs & Hb & Hr). cbv zeta. unfold magmaStep.
  destruct (negb (Enemy.alive e) || Enemy.frozen e).
  { split; [split; [exact Hs | split; [exact Hb | exact Hr]] | constructor]. }
  destruct (chasePlayer_fields e p dt) as (_ & _ & Cr & Cs & _ & Cx).
  assert (P1 : forall t b,
            magmaInv (Enemy.setAlive (setTrailTimer (_chasePlayer e p dt) t) b)).
  { intros t b. unfold magmaInv, setTrailTimer. cbn. rewrite Cr, Cs, Cx. auto. }
  assert (P2 : forall t, magmaInv (setTrailTimer (_chasePlayer e p dt) t)).
  { intros t. unfold magmaInv, setTrailTimer. cbn. rewrite Cr, Cs, Cx. auto. }
  assert (K : forall m o k, magmaInv m -> magmaInv (fst (spawnChild S m o k))).
  { intros m o' k' (Ms & Mb & Mr). unfold spawnChild, bind, random, ret, makeMagmawyrm,
      defaultOne, magmaInv. cbn. split; [reflexivity |]. split; [exact Mb | reflexivity]. }
  destruct (_ >=? 0.3);
    (destruct (a && splits p _);
     [ destruct (_ <=? MAX_PER_ZONE)%nat;
       [ unfold bind;
         match goal with |- context [spawnChild S ?m o k] =>
           pose proof (K m o k (P1 _ _)) as K1; destruct (spawnChild S m o k) as [c1 k1];
           pose proof (K m o k1 (P1 _ _)) as K2; destruct (spawnChild S m o k1) as [c2 k2]
         end;
         cbn [fst snd ret] in *;
         split; [apply P1 | constructor; [exact K1 | constructor; [exact K2 | constructor]]]
       | cbn [fst snd ret]; split; [apply P1 | constructor] ]
     | cbn [fst snd ret]; split; [apply P2 | constructor] ]).
Qed.

(** X22.  In every state of a level each Magmawyrm, of whatever
    generation, has [speed = baseSpeed * speedBoostMult] with a boost of at
    least 1, and [radius = 20 * sizeMult]: the boost every 5 s, the chase and
    the split keep the derived fields in step. *)
Theorem magmawyrm_fields_in_step (level : Z) (o : Oracle.t) (frames : list Frame.t) :
  Forall magmaInv (Volcanic.enemies (State.volcanic (run (initState level o) frames))).
Proof.
  set (Inv := fun S : State.t => Forall magmaInv (Volcanic.enemies (State.volcanic S))).
  apply (run_inv Inv).
  - apply frame_inv.
    + intros dt p S HI.
      pose proof (enterFrame_zoneEnemies
                    magmaInv (fun _ => True) (fun _ => True) (fun _ => True) dt p S
                    ltac:(auto) ltac:(auto) ltac:(auto) ltac:(auto)) as Hen.
      destruct Hen as (V & _); [| exact V].
      unfold zoneEnemies. split; [exact HI | repeat split; apply Forall_forall; auto].
    + intros dt p a S o' k _ HI.
      destruct (updateZones_split dt p a S o' k)
        as (p1 & p2 & p3 & k1 & k2 & k3 & S1 & S2 & S3 & E1 & V1 & _).
      unfold Inv. rewrite V1, E1.
      apply (updateVolcanic_Forall magmaInv magmaInv magmaInv).
      * intros e (Hs & Hb & Hr). unfold magmaInv, boostSpeed. cbn.
        split; [reflexivity |]. split; [lra | exact Hr].
      * intros e effs He. exact He.
      * intros done rest trails p' e o'' k'' He.
        apply magmaStep_magmaInv. exact He.
      * intros e He _. exact He.
      * intros e He. exact He.
      * intros e (Hs & Hb & Hr). unfold magmaInv.
        destruct (blockOne_fields (State.safeZone S) e) as (_ & X & R' & _).
        rewrite X, R'. unfold blockOne.
        destruct (negb (Enemy.alive e)); [auto |]. cbv zeta.
        destruct (_ <? _); cbn; auto.
      * exact HI.
    + intros dt S HI. exact HI.
  - unfold Inv. rewrite initState_volcanic. cbn [Volcanic.enemies].
    constructor; [| constructor].
    unfold magmaInv, makeMagmawyrm, defaultOne. cbn. split; [lra |]. split; lra.
Qed.

(** ** The populations of the Canopy and the Reef *)

Lemma schoolLoop_length dt r n l : forall i, length (schoolLoop dt r n i l) = length l.
Proof.
  induction l as [| e l IH]; intros i; [reflexivity |].
  cbn [schoolLoop]. destruct (inSchool e); cbn [length]; rewrite IH; reflexivity.
Qed.

Lemma bouncerLoop_length dt obs : forall acc,
  length (snd (fold_left (bouncerStep dt) obs acc)) = length (snd acc).
Proof.
  induction obs as [| ob obs IH]; intros acc; [reflexivity |].
  cbn [fold_left]. rewrite IH.
  destruct acc as [[done q] en]. unfold bouncerStep.
  repeat match goal with
  | |- context [let '(_, _) := ?c in _] => destruct c
  end.
  cbn [snd]. apply length_map.
Qed.

Lemma updateReef_school dt p S o k :
  let r := State.reef S in
  let r' := State.reef (fst (fst (_updateReef dt p S o k))) in
  let due := Reef.multiplyTimer r + dt >=? 10 in
  length (Reef.enemies r') =
    (if due && (_aliveCount (Reef.enemies r) <? MAX_PER_ZONE)%nat
     then Datatypes.S (length (Reef.enemies r)) else length (Reef.enemies r)) /\
  Reef.multiplyTimer r' = (if due then 0 else Reef.multiplyTimer r + dt) /\
  Reef.waveComplexity r' =
    (if Reef.waveTimer r + dt >=? 5 then Nat.min (Reef.waveComplexity r + 1) 4
     else Reef.waveComplexity r) /\
  Reef.wavePhase r' = Reef.wavePhase r + dt.
Proof.
  cbv zeta. unfold _updateReef, bind.
  assert (H1 : let r1 := State.reef (fst (reefMultiply dt S o k)) in
               length (Reef.enemies r1) =
                 (if (Reef.multiplyTimer (State.reef S) + dt >=? 10) &&
                     (_aliveCount (Reef.enemies (State.reef S)) <? MAX_PER_ZONE)%nat
                  then Datatypes.S (length (Reef.enemies (State.reef S)))
                  else length (Reef.enemies (State.reef S))) /\
               Reef.multiplyTimer r1 =
                 (if Reef.multiplyTimer (State.reef S) + dt >=? 10 then 0
                  else Reef.multiplyTimer (State.reef S) + dt) /\
               Reef.waveComplexity r1 = Reef.waveComplexity (State.reef S) /\
               Reef.waveTimer r1 = Reef.waveTimer (State.reef S) /\
               Reef.wavePhase r1 = Reef.wavePhase (State.reef S)).
  { cbv zeta. unfold reefMultiply. destruct (_ >=? 10); cbn [andb].
    - destruct (_ <? MAX_PER_ZONE)%nat.
      + unfold bind, random, ret.
        cbn [fst State.reef State.setReef setReefEnemies Reef.enemies Reef.multiplyTimer
             Reef.waveComplexity Reef.waveTimer Reef.wavePhase].
        rewrite length_app. cbn [length]. repeat split; lia.
      + unfold ret. cbn. auto.
    - unfold ret. cbn. auto. }
  destruct (reefMultiply dt S o k) as [S1 k1]. cbv zeta in H1. cbn [fst] in H1.
  destruct H1 as (L1 & M1 & W1 & T1 & P1).
  assert (H2 : let r2 := State.reef (reefSchool dt S1) in
               length (Reef.enemies r2) = length (Reef.enemies (State.reef S1)) /\
               Reef.multiplyTimer r2 = Reef.multiplyTimer (State.reef S1) /\
               Reef.waveComplexity r2 =
                 (if Reef.waveTimer (State.reef S1) + dt >=? 5
                  then Nat.min (Reef.waveComplexity (State.reef S1) + 1) 4
                  else Reef.waveComplexity (State.reef S1)) /\
               Reef.wavePhase r2 = Reef.wavePhase (State.reef S1) + dt).
  { cbv zeta. unfold reefSchool. destruct (_ >=? 5);
      cbn [State.reef State.setReef setReefEnemies Reef.enemies Reef.multiplyTimer
           Reef.waveComplexity Reef.waveTimer Reef.wavePhase];
      rewrite schoolLoop_length; unfold _tickEffects; rewrite length_map; auto. }
  cbv zeta in H2. destruct H2 as (L2 & M2 & W2 & P2).
  match goal with |- context [fold_left (bouncerStep dt) ?obs (?d, ?q, ?en)] =>
    pose proof (bouncerLoop_length dt obs (d, q, en)) as H3;
    destruct (fold_left (bouncerStep dt) obs (d, q, en)) as [[obs' p'] en']
  end.
  cbn [snd] in H3. unfold ret.
  cbn [fst State.reef State.setReef setReefEnemies setReefEgg setReefObstacles Reef.enemies
       Reef.multiplyTimer Reef.waveComplexity Reef.waveTimer Reef.wavePhase].
  rewrite length_blockFromSafeZone, H3, L2, L1, M2, M1, W2, W1, T1, P2, P1. auto.
Qed.

Lemma spawnThornwyrm_appends S o k :
  (_aliveCount (Canopy.enemies (State.canopy S)) < MAX_PER_ZONE)%nat ->
  exists tw : Thornwyrm,
    Canopy.enemies (State.canopy (fst (_spawnThornwyrm S o k))) =
      Canopy.enemies (State.canopy S) ++ [tw] /\
    Enemy.alive tw = true.
Proof.
  intros H. unfold _spawnThornwyrm.
  replace (MAX_PER_ZONE <=? _)%nat with false by (symmetry; apply Nat.leb_gt; exact H).
  unfold bind, random, ret.
  cbn [fst State.canopy State.setCanopy setCanopyEnemies Canopy.enemies].
  eexists. split; reflexivity.
Qed.

Lemma initState_populations level o :
  length (Canopy.enemies (State.canopy (initState level o))) = 2%nat /\
  length (Reef.enemies (State.reef (initState level o))) = 3%nat.
Proof.
  destruct (initState_zones level o) as (S1 & k1 & S3 & k3 & E1 & E3 & _ & _ & C & R).
  pose proof (initVolcanic_only (resetState level) o 0%nat) as O1. rewrite E1 in O1.
  cbn [fst] in O1.
  pose proof (initCanopy_only (_initGlacial S1) o k1) as O3. rewrite E3 in O3.
  cbn [fst] in O3.
  destruct (onlyVolcanic_others _ _ O1) as (_ & C1 & R1).
  destruct (onlyCanopy_others _ _ O3) as (_ & _ & R3).
  split.
  - rewrite C. unfold _initCanopy, bind in E3.
    assert (C0 : Canopy.enemies (State.canopy (_initGlacial S1)) = []).
    { cbn [_initGlacial State.canopy State.setGlacial]. rewrite C1. reflexivity. }
    assert (L : length (Canopy.enemies
                          (State.canopy (fst (repeatR 2 _spawnThornwyrm (_initGlacial S1) o k1))))
                = 2%nat).
    { cbn [repeatR]. unfold bind.
      destruct (spawnThornwyrm_appends (_initGlacial S1) o k1) as (t1 & A1 & L1).
      { rewrite C0. unfold _aliveCount, MAX_PER_ZONE. cbn. lia. }
      destruct (_spawnThornwyrm (_initGlacial S1) o k1) as [T1 j1]. cbn [fst] in A1.
      destruct (spawnThornwyrm_appends T1 o j1) as (t2 & A2 & L2).
      { rewrite A1, C0. unfold _aliveCount, MAX_PER_ZONE. cbn. rewrite L1. cbn. lia. }
      destruct (_spawnThornwyrm T1 o j1) as [T2 j2]. cbn [fst] in A2 |- *.
      unfold ret. cbn [fst]. rewrite A2, A1, C0. reflexivity. }
    destruct (repeatR 2 _spawnThornwyrm (_initGlacial S1) o k1) as [T1 j1].
    pose proof (addCanopyObstacles_enemies 5 T1 o j1) as A.
    destruct (_addCanopyObstacles 5 T1 o j1) as [T2 j2].
    pose proof (assignCanopyEgg_enemies T2 o j2) as A2. rewrite E3 in A2.
    cbn [fst] in *. rewrite A2, A. exact L.
  - rewrite R. destruct (initReef_enemies S3 o k3) as (t1 & t2 & t3 & E & _).
    rewrite E, R3. cbn [_initGlacial State.reef State.setGlacial]. rewrite R1.
    reflexivity.
Qed.

(** X23.  The populations of the Canopy and the Reef.  In every state of a
    level the Canopy holds between 2 and 6 Thornwyrms and the Reef between 3
    and 6 Tidewyrms, all of them alive (nothing in these zones kills an
    enemy), and [waveComplexity] is at most 4; a frame never makes either
    list shorter.  In one call of [_updateReef], a Tidewyrm is added exactly
    when [multiplyTimer] reaches 10 with fewer than 6 alive, the timer then
    restarting at 0 whether or not one was added; the wave complexity goes up
    by one, capped at 4, when [waveTimer] reaches 5; and [wavePhase] advances
    by [dt]. *)
Theorem canopy_reef_populations (level : Z) (o : Oracle.t) (frames : list Frame.t)
    (f : Frame.t) (dt : R) (p : Player.t) (S0 : State.t) (k : nat) :
  let S := run (initState level o) frames in
  let thorns := Canopy.enemies (State.canopy S) in
  let tides := Reef.enemies (State.reef S) in
  (Forall (fun e => Enemy.alive e = true) thorns /\ (2 <= length thorns <= 6)%nat /\
   (length thorns <= length (Canopy.enemies (State.canopy (frame S f))))%nat) /\
  (Forall (fun e => Enemy.alive e = true) tides /\ (3 <= length tides <= 6)%nat /\
   (length tides <= length (Reef.enemies (State.reef (frame S f))))%nat) /\
  (Reef.waveComplexity (State.reef S) <= 4)%nat /\
  (let r := State.reef S0 in
   let r' := State.reef (fst (fst (_updateReef dt p S0 o k))) in
   let due := Reef.multiplyTimer r + dt >=? 10 in
   length (Reef.enemies r') =
     (if due && (_aliveCount (Reef.enemies r) <? MAX_PER_ZONE)%nat
      then Datatypes.S (length (Reef.enemies r)) else length (Reef.enemies r)) /\
   Reef.multiplyTimer r' = (if due then 0 else Reef.multiplyTimer r + dt) /\
   Reef.waveComplexity r' =
     (if Reef.waveTimer r + dt >=? 5 then Nat.min (Reef.waveComplexity r + 1) 4
      else Reef.waveComplexity r) /\
   Reef.wavePhase r' = Reef.wavePhase r + dt).
Proof.
  cbv zeta.
  set (Inv := fun S : State.t =>
                capInv S /\
                (Forall (fun e : Thornwyrm => Enemy.alive e = true)
                   (Canopy.enemies (State.canopy S)) /\
                 (2 <= length (Canopy.enemies (State.canopy S)))%nat) /\
                (Forall (fun e : Tidewyrm => Enemy.alive e = true)
                   (Reef.enemies (State.reef S)) /\
                 (3 <= length (Reef.enemies (State.reef S)))%nat) /\
                (Reef.waveComplexity (State.reef S) <= 4)%nat).
  assert (Hframe : forall S g, Inv S ->
            Inv (frame S g) /\
            (length (Canopy.enemies (State.canopy S)) <=
             length (Canopy.enemies (State.canopy (frame S g))))%nat /\
            (length (Reef.enemies (State.reef S)) <=
             length (Reef.enemies (State.reef (frame S g))))%nat).
  { intros S g (Hc & (CA & CL) & (RA & RL) & W).
    pose proof (frame_capInv S g Hc) as Hc'.
    assert (Hrest :
      (Forall (fun e : Thornwyrm => Enemy.alive e = true)
         (Canopy.enemies (State.canopy (frame S g))) /\
       (length (Canopy.enemies (State.canopy S)) <=
        length (Canopy.enemies (State.canopy (frame S g))))%nat) /\
      (Forall (fun e : Tidewyrm => Enemy.alive e = true)
         (Reef.enemies (State.reef (frame S g))) /\
       (length (Reef.enemies (State.reef S)) <=
        length (Reef.enemies (State.reef (frame S g))))%nat) /\
      (Reef.waveComplexity (State.reef (frame S g)) <= 4)%nat).
    { rewrite frame_unfold. cbv zeta.
      pose proof (enterFrame_zoneEnemies
                    (fun _ => True) (fun _ => True) (fun e => Enemy.alive e = true)
                    (fun e => Enemy.alive e = true) (Frame.dt g) (Frame.player g) S
                    ltac:(auto) ltac:(auto) ltac:(auto) ltac:(auto)) as Hz.
      destruct Hz as (_ & _ & CA1 & RA1).
      { unfold zoneEnemies. split; [apply Forall_forall; auto |].
        split; [apply Forall_forall; auto |]. split; assumption. }
      assert (E1 : length (Canopy.enemies
                             (State.canopy (fst (enterFrame (Frame.dt g) (Frame.player g) S))))
                   = length (Canopy.enemies (State.canopy S)) /\
                   length (Reef.enemies
                             (State.reef (fst (enterFrame (Frame.dt g) (Frame.player g) S))))
                   = length (Reef.enemies (State.reef S)) /\
                   Reef.waveComplexity
                     (State.reef (fst (enterFrame (Frame.dt g) (Frame.player g) S)))
                   = Reef.waveComplexity (State.reef S)).
      { unfold enterFrame, _updateSafeZone, detectMovement.
        cbn [fst State.playerMoved].
        destruct (negb (State.playerMoved S)); [| auto].
        destruct (playerDisplaced _ _); [| auto].
        unfold _unfreezeAll.
        cbn [State.canopy State.reef State.setSafeZone setCanopyEnemies setReefEnemies
             Canopy.enemies Reef.enemies Reef.waveComplexity].
        rewrite !length_map. auto. }
      destruct E1 as (EC & ER & EW).
      set (S1 := fst (enterFrame (Frame.dt g) (Frame.player g) S)) in *.
      set (a := snd (enterFrame (Frame.dt g) (Frame.player g) S)).
      destruct (State.playerMoved S1).
      - destruct (updateZones_split (Frame.dt g) (Frame.player g) a S1 (Frame.oracle g) 0%nat)
          as (p1 & p2 & p3 & k1 & k2 & k3 & T1 & T2 & T3 &
              _ & _ & _ & _ & _ & E3 & C2 & C3 & R3 & R4 & _).
        unfold advanceVisualPhases.
        cbn [State.canopy State.reef Canopy.enemies Reef.enemies Reef.waveComplexity].
        rewrite C3, R4.
        destruct (updateCanopy_after_multiply (Frame.dt g) p2 T2 (Frame.oracle g) k2)
          as [UL _].
        cbv zeta in UL.
        destruct (updateReef_school (Frame.dt g) p3 T3 (Frame.oracle g) k3)
          as (SL & _ & SW & _).
        cbv zeta in SL, SW. rewrite R3 in SL, SW.
        split; [split | split; [split |]].
        + rewrite E3. apply updateCanopy_Forall.
          * intros. reflexivity.
          * intros range e He. exact He.
          * intros e effs He. exact He.
          * intros e He. rewrite thornStep_alive. exact He.
          * intros e He. rewrite (proj1 (blockOne_fields _ e)). exact He.
          * rewrite C2. exact CA1.
        + rewrite E3, UL, <- EC, <- C2. unfold canopyMultiply.
          destruct (negb _ && _); [| cbn; lia].
          unfold _spawnThornwyrm.
          cbn [State.canopy State.setCanopy setCanopyTimers Canopy.enemies].
          destruct (MAX_PER_ZONE <=? _)%nat; [cbn; lia |].
          unfold bind, random, ret.
          cbn [fst State.canopy State.setCanopy setCanopyEnemies Canopy.enemies].
          rewrite length_app. lia.
        + apply updateReef_Forall.
          * intros. reflexivity.
          * intros e effs He. exact He.
          * intros r n i e He. rewrite tideStep_alive. exact He.
          * intros obs e He. rewrite knockBackEnemy_alive. exact He.
          * intros e He. rewrite (proj1 (blockOne_fields _ e)). exact He.
          * rewrite R3. exact RA1.
        + rewrite SL, ER. destruct (_ && _); lia.
        + rewrite SW, EW. destruct (_ >=? 5); lia.
      - unfold advanceVisualPhases.
        cbn [State.canopy State.reef Canopy.enemies Reef.enemies Reef.waveComplexity].
        rewrite EC, ER, EW. auto 10. }
    destruct Hrest as ((CA' & CL') & (RA' & RL') & W').
    split; [| split; assumption].
    split; [exact Hc' |].
    split; [split; [exact CA' | lia] |]. split; [split; [exact RA' | lia] | exact W']. }
  assert (H0 : Inv (initState level o)).
  { destruct (initState_populations level o) as [PC PR].
    pose proof (initState_zoneEnemies
                  (fun _ => True) (fun _ => True) (fun e => Enemy.alive e = true)
                  (fun e => Enemy.alive e = true) level o) as HZ.
    destruct HZ as (_ & _ & CA & RA); try exact I; try (intros; reflexivity).
    split; [apply initState_capInv |].
    split; [split; [exact CA | lia] |]. split; [split; [exact RA | lia] |].
    destruct (initState_zones level o) as (S1 & k1 & S3 & k3 & E1 & E3 & _ & _ & _ & R).
    pose proof (initVolcanic_only (resetState level) o 0%nat) as O1. rewrite E1 in O1.
    cbn [fst] in O1.
    pose proof (initCanopy_only (_initGlacial S1) o k1) as O3. rewrite E3 in O3.
    cbn [fst] in O3.
    destruct (onlyVolcanic_others _ _ O1) as (_ & _ & R1).
    destruct (onlyCanopy_others _ _ O3) as (_ & _ & R3).
    rewrite R.
    assert (W : Reef.waveComplexity (State.reef (fst (_initReef S3 o k3))) =
                Reef.waveComplexity (State.reef S3)).
    { unfold _initReef, bind, random, ret. cbn. reflexivity. }
    rewrite W, R3. cbn [_initGlacial State.reef State.setGlacial]. rewrite R1.
    cbn. lia. }
  assert (Hrun : Inv (run (initState level o) frames)).
  { apply (run_inv Inv); [| exact H0]. intros S g H. apply Hframe, H. }
  destruct (Hframe _ f Hrun) as (_ & FC & FR).
  destruct Hrun as (Hc & (CA & CL) & (RA & RL) & W).
  destruct Hc as (_ & _ & _ & CC & CR).
  rewrite (aliveCount_all _ CA) in CC. rewrite (aliveCount_all _ RA) in CR.
  unfold MAX_PER_ZONE in CC, CR.
  split; [split; [exact CA | split; [lia | exact FC]] |].
  split; [split; [exact RA | split; [lia | exact FR]] |].
  split; [exact W |].
  apply (updateReef_school dt p S0 o k).
Qed.

(** ** The ambush of the Thornwyrm *)

Lemma clamp_fixed lo hi v : lo <= v <= hi -> clamp lo hi v = v.
Proof.
  intros H. unfold clamp, Rmax, Rmin.
  destruct (Rle_dec hi v); destruct (Rle_dec lo _); lra.
Qed.

Lemma thornStep_ext_flags dt p e :
  (Thorn.visible (Enemy.ext e) = true -> Thorn.visible (Enemy.ext (thornStep dt p e)) = true) /\
  (revealed e -> revealed (thornStep dt p e)).
Proof.
  unfold revealed, thornStep.
  destruct (negb (Enemy.alive e) || Enemy.frozen e); [auto |].
  cbn [Enemy.ext Enemy.moveTo].
  destruct (Thorn.visible (Enemy.ext e)) eqn:Vis; destruct (Thorn.lunging (Enemy.ext e)) eqn:Lu;
    cbn [negb andb];
    repeat match goal with
    | |- context [if ?c then _ else _] => destruct c eqn:?
    end; cbn;
    rewrite ?(proj2 (proj2 (proj2 (proj2 (proj2 (chasePlayer_fields _ _ _))))));
    split; intros; try reflexivity; try discriminate; try assumption; try congruence;
    match goal with
    | H : true = true -> false = true |- _ => discriminate (H eq_refl)
    end.
Qed.

(** X24.  The ambush of the Thornwyrm.  In every state of a level a
    lunging Thornwyrm is a visible one.  [thornStep], the body of the enemy
    loop of [_updateCanopy], never hides a visible Thornwyrm; and an alive,
    unfrozen, invisible Thornwyrm that is not lunging, lies inside the Canopy
    and is more than 150 px from the player, is left exactly as it is: it
    waits. *)
Theorem thornwyrm_ambush (level : Z) (o : Oracle.t) (frames : list Frame.t)
    (dt : R) (p : Player.t) (e : Thornwyrm) :
  Forall revealed (Canopy.enemies (State.canopy (run (initState level o) frames))) /\
  (Thorn.visible (Enemy.ext e) = true ->
   Thorn.visible (Enemy.ext (thornStep dt p e)) = true) /\
  (Thorn.visible (Enemy.ext e) = false -> Thorn.lunging (Enemy.ext e) = false ->
   150 < hypot (Player.x p - Enemy.x e) (Player.y p - Enemy.y e) ->
   withinZone ZONES.canopy e ->
   thornStep dt p e = e).
Proof.
  split; [| split].
  - set (Inv := fun S : State.t => Forall revealed (Canopy.enemies (State.canopy S))).
    apply (run_inv Inv).
    + apply frame_inv.
      * intros dt0 p0 S HI.
        pose proof (enterFrame_zoneEnemies
                      (fun _ => True) (fun _ => True) revealed (fun _ => True) dt0 p0 S
                      ltac:(auto) ltac:(auto) ltac:(auto) ltac:(auto)) as Hen.
        destruct Hen as (_ & _ & C & _); [| exact C].
        unfold zoneEnemies. split; [apply Forall_forall; auto |].
        split; [apply Forall_forall; auto |]. split; [exact HI | apply Forall_forall; auto].
      * intros dt0 p0 a S o' k _ HI.
        destruct (updateZones_split dt0 p0 a S o' k)
          as (p1 & p2 & p3 & k1 & k2 & k3 & S1 & S2 & S3 &
              _ & _ & _ & _ & _ & E3 & C2 & C3 & _).
        unfold Inv. rewrite C3, E3. apply updateCanopy_Forall.
        -- intros S0 rx ry _ _ _ _. unfold revealed. cbn. discriminate.
        -- intros range e0 He. exact He.
        -- intros e0 effs He. exact He.
        -- intros e0 He. apply thornStep_ext_flags, He.
        -- intros e0 He. unfold revealed in *.
           rewrite (proj1 (proj2 (blockOne_fields _ e0))). exact He.
        -- rewrite C2. exact HI.
      * intros dt0 S HI. exact HI.
    + unfold Inv.
      pose proof (initState_zoneEnemies
                    (fun _ => True) (fun _ => True) revealed (fun _ => True) level o) as H0.
      destruct H0 as (_ & _ & C & _); try exact I; [| intros; exact I | exact C].
      intros S0 rx ry _ _ _. unfold revealed. cbn. discriminate.
  - apply thornStep_ext_flags.
  - intros Vis Lu Hd ((X1 & X2) & (Y1 & Y2)).
    unfold thornStep.
    destruct (negb (Enemy.alive e) || Enemy.frozen e); [reflexivity |].
    cbv zeta. rewrite Vis. cbn [negb andb].
    pose proof (hypot_nonneg (Player.x p - Enemy.x e) (Player.y p - Enemy.y e)) as N.
    rewrite orOne_id by lra.
    replace (hypot (Player.x p - Enemy.x e) (Player.y p - Enemy.y e) <=? 150) with false
      by (symmetry; reflectR; lra).
    rewrite Lu, Vis.
    rewrite !clamp_fixed by (split; assumption).
    destruct e. reflexivity.
Qed.

Lemma thornwyrm_ambush_witness :
  thornStep 0.1 (playerAt 1000 1000) sampleThornwyrm = sampleThornwyrm.
Proof.
  assert (Hd : 150 < hypot (Player.x (playerAt 1000 1000) - Enemy.x sampleThornwyrm)
                           (Player.y (playerAt 1000 1000) - Enemy.y sampleThornwyrm)).
  { unfold playerAt, sampleThornwyrm. cbn [Player.x Player.y Enemy.x Enemy.y].
    destruct (hypot_ge_abs (1000 - 1500) (1000 - 1500)) as [A _].
    unfold Rabs in A. destruct (Rcase_abs (1000 - 1500)); lra. }
  assert (Hw : withinZone ZONES.canopy sampleThornwyrm).
  { unfold withinZone, sampleThornwyrm. cbn. lra. }
  exact (proj2 (proj2 (thornwyrm_ambush 1 oracle0 [] 0.1 (playerAt 1000 1000) sampleThornwyrm))
           eq_refl eq_refl Hd Hw).
Defined.
